(** * MMKV for OpenHarmony: the N-API bridge (native_bridge.cpp)

    The bridge exposes the MMKV engine to the ArkTS host.  Each exported
    function reads its host arguments, converts them to native values,
    calls the engine once and converts the answer back.  This development
    embeds the conversion layer and the exported functions over a model of
    the two interfaces the file is written against:

    - Node-API (napi/native_api.h), modelled after its documentation: host
      values, the accessors and constructors the bridge calls, together
      with the status each one returns;
    - the MMKV engine (MMKV.h, MMBuffer.h), kept abstract: an unknown
      store with a transition function, and a log of the calls made.

    Conventions of the model.  A host string is identified with its
    UTF-8 encoding, a host number with a binary64 value that has a single
    NaN.  Neither the host nor [std::string] runs out of memory, and a
    pending exception does not make the accessors and constructors fail:
    they fail on a null or unwritten handle and on a value of the wrong
    type only.  The record behind [napi_get_last_error_info] is kept
    where it is read, in the macro [NAPI_CALL_RET].  A local that the code
    declares without initialiser and that no call writes holds an
    arbitrary word, taken from the state. *)

From Stdlib Require Import ZArith Lia Bool.
From Stdlib Require Import Floats.SpecFloat.
From Stdlib Require Import Strings.Byte.
From stdpp Require Import base tactics option list strings gmap.

Local Open Scope Z_scope.

(** ** Native scalar types *)

Definition bytes := list byte.

#[global] Instance byte_eq_dec : EqDecision byte := Byte.byte_eq_dec.

(** [uint32_t], [int32_t], [uint64_t], [int64_t] are integers in their
    range; a conversion into the type keeps the low bits. *)
Definition to_uint32 (z : Z) : Z := z mod 2^32.
Definition to_int32 (z : Z) : Z := (z + 2^31) mod 2^32 - 2^31.
Definition to_uint64 (z : Z) : Z := z mod 2^64.
Definition to_int64 (z : Z) : Z := (z + 2^63) mod 2^64 - 2^63.

Definition is_uint32 (z : Z) : Prop := 0 <= z < 2^32.
Definition is_int32 (z : Z) : Prop := - 2^31 <= z < 2^31.
Definition is_uint64 (z : Z) : Prop := 0 <= z < 2^64.
Definition is_int64 (z : Z) : Prop := - 2^63 <= z < 2^63.

(** A host number is an IEEE 754 binary64 value in which every NaN is the
    same value. *)
Definition number := spec_float.

(** [double] is binary64 as the native side holds it: a NaN has a sign and
    a payload, the 52 bits of its mantissa field, which are not all 0. *)
Inductive double :=
| Dzero (sign : bool)
| Dinfinity (sign : bool)
| Dnan (sign : bool) (payload : positive)
| Dfinite (sign : bool) (mantissa : positive) (exponent : Z).

(** The NaN the host hands out, 0x7ff8000000000000: positive, quiet, with
    no further payload. *)
Definition quiet_nan : double := Dnan false (2 ^ 51).

(** A double as a host number, and a host number as a double. *)
Definition number_of_double (d : double) : number :=
  match d with
  | Dzero s => S754_zero s
  | Dinfinity s => S754_infinity s
  | Dnan _ _ => S754_nan
  | Dfinite s m e => S754_finite s m e
  end.

Definition double_of_number (x : number) : double :=
  match x with
  | S754_zero s => Dzero s
  | S754_infinity s => Dinfinity s
  | S754_nan => quiet_nan
  | S754_finite s m e => Dfinite s m e
  end.

Definition is_nan (d : double) : bool :=
  match d with Dnan _ _ => true | _ => false end.

(** The conversion of an integer to a number (round to nearest even). *)
Definition Z_to_number (z : Z) : number := binary_normalize 53 1024 z 0 false.

(** The implicit conversion [bool -> double] of C++. *)
Definition bool_to_double (b : bool) : double :=
  if b then Dfinite false (2 ^ 52) (-52) else Dzero false.

(** The integral part of a number, rounded toward zero; 0 when the number
    is not finite. *)
Definition number_trunc (d : number) : Z :=
  match d with
  | S754_finite s m e =>
      let a := match e with
               | Z0 => Zpos m
               | Zpos _ => Zpos m * 2 ^ e
               | Zneg p => Zpos m / 2 ^ (Zpos p)
               end in
      if s then - a else a
  | _ => 0
  end.

(** The double whose binary64 encoding is the 64-bit word [z]. *)
Definition double_of_bits (z : Z) : double :=
  let w := z mod 2^64 in
  let s := Z.testbit w 63 in
  let e := (w / 2^52) mod 2^11 in
  let m := w mod 2^52 in
  if e =? 0 then
    match m with Zpos p => Dfinite s p (-1074) | _ => Dzero s end
  else if e =? 2047 then
    match m with Zpos p => Dnan s p | _ => Dinfinity s end
  else
    match m + 2^52 with Zpos p => Dfinite s p (e - 1075) | _ => Dzero s end.

(** ** Host values (napi/native_api.h) *)

Inductive napi_status :=
| napi_ok
| napi_invalid_arg
| napi_object_expected
| napi_string_expected
| napi_name_expected
| napi_function_expected
| napi_number_expected
| napi_boolean_expected
| napi_array_expected
| napi_generic_failure
| napi_pending_exception
| napi_bigint_expected
| napi_arraybuffer_expected.

Inductive napi_valuetype :=
| napi_undefined
| napi_null
| napi_boolean
| napi_number
| napi_string
| napi_symbol
| napi_object
| napi_function
| napi_external
| napi_bigint.

#[global] Instance napi_status_eq_dec : EqDecision napi_status.
Proof. solve_decision. Defined.
#[global] Instance napi_valuetype_eq_dec : EqDecision napi_valuetype.
Proof. solve_decision. Defined.

(** A [napi_value] is a handle.  The model identifies a live handle with
    the host value it designates; [nullptr] is the null handle and
    [dangling] a handle that was never written (the content of an
    uninitialised local).  A host string is represented by its UTF-8
    encoding, an ArrayBuffer by the index of its backing store in the
    host's memory. *)
Inductive napi_value :=
| nullptr
| dangling (raw : Z)
| JUndefined
| JNull
| JBoolean (b : bool)
| JNumber (d : number)
| JString (utf8 : bytes)
| JBigInt (z : Z)
| JArrayBuffer (data : nat)
| JObject (id : nat).

(** What a call wrote through its out-parameter: [Some v] when it
    succeeded, [None] when it returned an error and left the pointee
    alone. *)
Definition napi_out (T : Type) : Type := napi_status * option T.

Definition napi_typeof (value : napi_value) : napi_out napi_valuetype :=
  match value with
  | nullptr | dangling _ => (napi_invalid_arg, None)
  | JUndefined => (napi_ok, Some napi_undefined)
  | JNull => (napi_ok, Some napi_null)
  | JBoolean _ => (napi_ok, Some napi_boolean)
  | JNumber _ => (napi_ok, Some napi_number)
  | JString _ => (napi_ok, Some napi_string)
  | JBigInt _ => (napi_ok, Some napi_bigint)
  | JArrayBuffer _ | JObject _ => (napi_ok, Some napi_object)
  end.

(** *** Host strings from bytes *)

(** [lo <= b <= hi]. *)
Definition byte_between (lo hi : N) (b : byte) : bool :=
  ((lo <=? Byte.to_N b) && (Byte.to_N b <=? hi))%N.

(** The bytes that may follow the first byte of a sequence: any
    continuation byte, but for the four first bytes after which a part of
    that range would encode a character in too many bytes, a surrogate, or
    a value above U+10FFFF. *)
Definition utf8_second (lead : byte) : N * N :=
  match lead with
  | xe0 => (0xA0, 0xBF)
  | xed => (0x80, 0x9F)
  | xf0 => (0x90, 0xBF)
  | xf4 => (0x80, 0x8F)
  | _ => (0x80, 0xBF)
  end%N.

(** Well-formed UTF-8 (The Unicode Standard, table 3-7): sequences of one
    byte 00..7F, of two bytes C2..DF 80..BF, of three bytes E0..EF and of
    four bytes F0..F4, each followed by continuation bytes, the first of
    them within [utf8_second]. *)
Fixpoint utf8_valid (s : bytes) : bool :=
  match s with
  | [] => true
  | b0 :: s1 =>
      if byte_between 0x00 0x7F b0 then utf8_valid s1
      else
        match s1 with
        | [] => false
        | b1 :: s2 =>
            if byte_between 0xC2 0xDF b0 then byte_between 0x80 0xBF b1 && utf8_valid s2
            else
              match s2 with
              | [] => false
              | b2 :: s3 =>
                  if byte_between 0xE0 0xEF b0 then
                    byte_between (utf8_second b0).1 (utf8_second b0).2 b1 &&
                    byte_between 0x80 0xBF b2 && utf8_valid s3
                  else
                    match s3 with
                    | [] => false
                    | b3 :: s4 =>
                        byte_between 0xF0 0xF4 b0 &&
                        byte_between (utf8_second b0).1 (utf8_second b0).2 b1 &&
                        byte_between 0x80 0xBF b2 && byte_between 0x80 0xBF b3 &&
                        utf8_valid s4
                    end
              end
        end
  end.

(** The host decodes the bytes it is given and puts U+FFFD, in UTF-8
    EF BF BD, in the place of what is not well formed.  The decoder is
    the one of the WHATWG Encoding standard: it reads byte by byte,
    remembers the bytes of the sequence it is in, how many are missing and
    the range the next one must be in; a byte out of that range ends the
    sequence with one U+FFFD and is then read again as the first byte of
    a sequence.  A sequence that is complete is the encoding of its
    character, so its bytes are the string's. *)
Definition utf8_replacement : bytes := [xef; xbf; xbd].

Record utf8_state := {
  utf8_seen : bytes;
  utf8_needed : nat;
  utf8_lower : N;
  utf8_upper : N
}.

Definition utf8_start (b : byte) : bytes * option utf8_state :=
  let expect n := Some {| utf8_seen := [b]; utf8_needed := n;
                          utf8_lower := (utf8_second b).1; utf8_upper := (utf8_second b).2 |} in
  if byte_between 0x00 0x7F b then ([b], None)
  else if byte_between 0xC2 0xDF b then ([], expect 1%nat)
  else if byte_between 0xE0 0xEF b then ([], expect 2%nat)
  else if byte_between 0xF0 0xF4 b then ([], expect 3%nat)
  else (utf8_replacement, None).

Definition utf8_step (state : option utf8_state) (b : byte) : bytes * option utf8_state :=
  match state with
  | None => utf8_start b
  | Some st =>
      if byte_between (utf8_lower st) (utf8_upper st) b then
        match utf8_needed st with
        | O | S O => (utf8_seen st ++ [b], None)
        | S n => ([], Some {| utf8_seen := utf8_seen st ++ [b]; utf8_needed := n;
                              utf8_lower := 0x80; utf8_upper := 0xBF |})
        end
      else
        let '(out, state') := utf8_start b in (utf8_replacement ++ out, state')
  end.

Fixpoint utf8_decode (state : option utf8_state) (s : bytes) : bytes :=
  match s with
  | [] => match state with Some _ => utf8_replacement | None => [] end
  | b :: s' => let '(out, state') := utf8_step state b in out ++ utf8_decode state' s'
  end.

(** Constructors of host values.  In the model they always succeed, so
    they are written as functions to the value they create. *)
Definition napi_create_double (value : double) : napi_value :=
  JNumber (number_of_double value).
Definition napi_create_int32 (value : Z) : napi_value := JNumber (Z_to_number value).
Definition napi_create_uint32 (value : Z) : napi_value := JNumber (Z_to_number value).
Definition napi_create_bigint_int64 (value : Z) : napi_value := JBigInt value.
Definition napi_create_bigint_uint64 (value : Z) : napi_value := JBigInt value.
Definition napi_create_string_utf8 (str : bytes) (length : nat) : napi_value :=
  JString (utf8_decode None (take length str)).

(** Latin-1 text: a byte below 0x80 is its own UTF-8 encoding, a byte
    above takes two bytes. *)
Definition latin1_to_utf8 (b : byte) : bytes :=
  let n := Byte.to_N b in
  if (n <? 128)%N then [b]
  else match Byte.of_N (192 + n / 64), Byte.of_N (128 + n mod 64) with
       | Some hi, Some lo => [hi; lo]
       | _, _ => [b]
       end.
Definition napi_create_string_latin1 (str : bytes) (length : nat) : napi_value :=
  JString (concat (map latin1_to_utf8 (take length str))).

(** ToBoolean of ECMAScript. *)
Definition napi_coerce_to_bool (value : napi_value) : napi_out napi_value :=
  match value with
  | nullptr | dangling _ => (napi_invalid_arg, None)
  | JUndefined | JNull => (napi_ok, Some (JBoolean false))
  | JBoolean b => (napi_ok, Some (JBoolean b))
  | JNumber d =>
      (napi_ok, Some (JBoolean match d with
                               | S754_zero _ | S754_nan => false
                               | _ => true
                               end))
  | JString s => (napi_ok, Some (JBoolean match s with [] => false | _ => true end))
  | JBigInt z => (napi_ok, Some (JBoolean (negb (z =? 0))))
  | JArrayBuffer _ | JObject _ => (napi_ok, Some (JBoolean true))
  end.

Definition napi_get_value_bool (value : napi_value) : napi_out bool :=
  match value with
  | nullptr | dangling _ => (napi_invalid_arg, None)
  | JBoolean b => (napi_ok, Some b)
  | _ => (napi_boolean_expected, None)
  end.

(** A number out of the 32-bit range is cut to its low 32 bits; NaN and
    the infinities give 0. *)
Definition napi_get_value_int32 (value : napi_value) : napi_out Z :=
  match value with
  | nullptr | dangling _ => (napi_invalid_arg, None)
  | JNumber d => (napi_ok, Some (to_int32 (number_trunc d)))
  | _ => (napi_number_expected, None)
  end.

Definition napi_get_value_uint32 (value : napi_value) : napi_out Z :=
  match value with
  | nullptr | dangling _ => (napi_invalid_arg, None)
  | JNumber d => (napi_ok, Some (to_uint32 (number_trunc d)))
  | _ => (napi_number_expected, None)
  end.

Definition napi_get_value_double (value : napi_value) : napi_out double :=
  match value with
  | nullptr | dangling _ => (napi_invalid_arg, None)
  | JNumber d => (napi_ok, Some (double_of_number d))
  | _ => (napi_number_expected, None)
  end.

(** The low 64 bits of a BigInt, and whether they are the whole of it. *)
Definition napi_get_value_bigint_int64 (value : napi_value) : napi_out (Z * bool) :=
  match value with
  | nullptr | dangling _ => (napi_invalid_arg, None)
  | JBigInt z => (napi_ok, Some (to_int64 z, to_int64 z =? z))
  | _ => (napi_bigint_expected, None)
  end.

Definition napi_get_value_bigint_uint64 (value : napi_value) : napi_out (Z * bool) :=
  match value with
  | nullptr | dangling _ => (napi_invalid_arg, None)
  | JBigInt z => (napi_ok, Some (to_uint64 z, to_uint64 z =? z))
  | _ => (napi_bigint_expected, None)
  end.

(** *** Reading a host string into a buffer *)

Definition is_utf8_continuation (b : byte) : bool :=
  let n := Byte.to_N b in ((128 <=? n) && (n <? 192))%N.

(** The largest [k <= n] at which [s] can be cut without splitting a
    character: the byte at [k] is not a continuation byte. *)
Fixpoint utf8_boundary (s : bytes) (n : nat) : nat :=
  match n with
  | O => O
  | S n' =>
      match s !! n with
      | Some b => if is_utf8_continuation b then utf8_boundary s n' else n
      | None => n
      end
  end.

(** How many bytes of [s] fit, as whole characters, in [room] bytes. *)
Definition utf8_fit (s : bytes) (room : nat) : nat :=
  if (length s <=? room)%nat then length s else utf8_boundary s room.

(** Overwrite the beginning of [buf] with [src]. *)
Definition write_at_start (buf src : bytes) : bytes :=
  src ++ drop (length src) buf.

(** [napi_get_value_string_utf8 value buf bufsize]: with a null [buf]
    only the length in bytes is reported.  Otherwise at most
    [bufsize - 1] bytes are copied and a NUL written behind them: "when
    this value is insufficient, the returned string is truncated and
    null-terminated".  The outcome is the new content of the buffer and
    the number written to [result]. *)
Definition napi_get_value_string_utf8
    (value : napi_value) (buf : option bytes) (bufsize : nat) : napi_out (option bytes * nat) :=
  match value with
  | nullptr | dangling _ => (napi_invalid_arg, None)
  | JString s =>
      match buf with
      | None => (napi_ok, Some (None, length s))
      | Some b =>
          if (bufsize =? 0)%nat then (napi_ok, Some (Some b, O))
          else
            let copied := utf8_fit s (bufsize - 1) in
            (napi_ok, Some (Some (write_at_start b (take copied s ++ [x00])), copied))
      end
  | _ => (napi_string_expected, None)
  end.

(** *** The last error *)

(** The text the host has for a status. *)
Definition napi_error_message (status : napi_status) : option string :=
  match status with
  | napi_ok => None
  | napi_invalid_arg => Some "Invalid argument"
  | napi_object_expected => Some "An object was expected"
  | napi_string_expected => Some "A string was expected"
  | napi_name_expected => Some "A string or symbol was expected"
  | napi_function_expected => Some "A function was expected"
  | napi_number_expected => Some "A number was expected"
  | napi_boolean_expected => Some "A boolean was expected"
  | napi_array_expected => Some "An array was expected"
  | napi_generic_failure => Some "Unknown failure"
  | napi_pending_exception => Some "An exception is pending"
  | napi_bigint_expected => Some "A bigint was expected"
  | napi_arraybuffer_expected => Some "An arraybuffer was expected"
  end%string.

(** The environment owns one [napi_extended_error_info].  A call that
    fails leaves its status there; [napi_get_last_error_info] fills in
    the text of that status and hands out a pointer to the record itself,
    not a copy; a call that succeeds clears the record, text included. *)
Record napi_extended_error_info := {
  error_message : option string;
  error_code : napi_status
}.

Definition napi_set_last_error (status : napi_status) : napi_extended_error_info :=
  {| error_message := None; error_code := status |}.

Definition napi_get_last_error_info (last_error : napi_extended_error_info) :
    napi_extended_error_info :=
  {| error_message := napi_error_message (error_code last_error);
     error_code := error_code last_error |}.

Definition napi_clear_last_error (last_error : napi_extended_error_info) :
    napi_extended_error_info :=
  {| error_message := None; error_code := napi_ok |}.

(** ** [std::string] *)

(** The bridge uses one [std::string] operation whose result the C++
    standard leaves to the implementation: the capacity a
    default-constructed string has after [resize(n)].  The standard
    promises that it is at least [n]. *)
Class StdString := {
  string_capacity : nat → nat;
  string_capacity_ge : ∀ n, (n ≤ string_capacity n)%nat
}.

(** A string owns [capacity() + 1] characters, of which the first
    [size()] are its value. *)
Record std_string := {
  str_buffer : bytes;
  str_size : nat
}.

Definition str_content (s : std_string) : bytes := take (str_size s) (str_buffer s).
Definition str_capacity (s : std_string) : nat := (length (str_buffer s) - 1)%nat.

(** [string result; result.resize(n);]: [n] characters of value 0. *)
Definition string_resized `{StdString} (n : nat) : std_string :=
  {| str_buffer := replicate (string_capacity n + 1) x00; str_size := n |}.

(** [strlen] of a character array. *)
Fixpoint strlen (s : bytes) : nat :=
  match s with
  | [] => O
  | b :: s' => if Byte.eqb b x00 then O else S (strlen s')
  end.

(** The capacity rule of libc++ on a 64-bit target: 22 characters are
    stored in place, larger strings in blocks of 16 and at least twice
    the previous capacity. *)
Definition libcxx_recommend (s : nat) : nat :=
  if (s <? 23)%nat then 22%nat
  else
    let guess := ((s + 1 + 15) / 16 * 16 - 1)%nat in
    if (guess =? 23)%nat then 24%nat else guess.

Definition libcxx_capacity (n : nat) : nat :=
  if (n <=? 22)%nat then 22%nat else libcxx_recommend (Nat.max n 44).

(** ** The engine interface (MMKV.h, MMBuffer.h) *)

(** Native memory the bridge can hold a pointer to: nothing, memory the
    engine owns (never written by the bridge, so given by its content), or
    the backing store of a host ArrayBuffer. *)
Inductive pointer :=
| NULL
| native (content : bytes)
| host (data : nat).

(** Modelled from the spec: MMBuffer (MMBuffer.h is not under src/), the
    "raw byte buffer" of the engine: a pointer and a length, either owning
    its memory or, when built with [MMBufferNoCopy], referring to memory
    owned by someone else. *)
Record MMBuffer := {
  isNoCopy : bool;
  getPtr : pointer;
  MMBuffer_length : nat
}.

Definition MMBuffer_empty : MMBuffer :=
  {| isNoCopy := false; getPtr := NULL; MMBuffer_length := O |}.

Definition MMBuffer_of (source : pointer) (length : nat) (noCopy : bool) : MMBuffer :=
  {| isNoCopy := noCopy; getPtr := source; MMBuffer_length := length |}.

(** The values [MMKV::set] is overloaded on, as the engine receives them. *)
Inductive MMKV_value :=
| VBool (value : bool)
| VInt32 (value : Z)
| VUInt32 (value : Z)
| VInt64 (value : Z)
| VUInt64 (value : Z)
| VDouble (value : double)
| VString (value : bytes)
| VBytes (value : bytes).

(** The engine operations the bridge calls, indexed by what they return.
    [kv] is the [MMKV *] the operation is invoked on; an absent
    [expiration] is the overload of [set] without that parameter.
    [getString] and [getBytes] return their flag together with the new
    content of their [result] reference. *)
Inductive MMKV_call : Type → Type :=
| kv_set (kv : Z) (value : MMKV_value) (key : bytes) (expiration : option Z) : MMKV_call bool
| kv_getBool (kv : Z) (key : bytes) (defaultValue : bool) : MMKV_call bool
| kv_getInt32 (kv : Z) (key : bytes) (defaultValue : Z) : MMKV_call Z
| kv_getUInt32 (kv : Z) (key : bytes) (defaultValue : Z) : MMKV_call Z
| kv_getInt64 (kv : Z) (key : bytes) (defaultValue : Z) : MMKV_call Z
| kv_getUInt64 (kv : Z) (key : bytes) (defaultValue : Z) : MMKV_call Z
| kv_getDouble (kv : Z) (key : bytes) (defaultValue : double) : MMKV_call double
| kv_getString (kv : Z) (key : bytes) : MMKV_call (bool * bytes)
| kv_getBytes (kv : Z) (key : bytes) : MMKV_call (bool * MMBuffer)
| MMKV_initializeMMKV (rootDir : bytes) (logLevel : Z) : MMKV_call unit
| MMKV_getRootDir : MMKV_call bytes
| MMKV_defaultMMKV (mode : Z) (cryptKey : option bytes) : MMKV_call Z.

(** Modelled from the spec: the wrapped engine (MMKV.h and MMKVPredef.h
    are not under src/).  The spec leaves its design out of scope, so it
    is an arbitrary state with an arbitrary reaction to each call, and the
    version text of [MMKV_VERSION]. *)
Class Engine := {
  MMKV_store : Type;
  MMKV_perform : ∀ R, MMKV_call R → MMKV_store → R * MMKV_store;
  MMKV_VERSION : bytes
}.
Arguments MMKV_perform {_ _} _ _.

Definition logged_call : Type := { R : Type & MMKV_call R }.
Definition log_entry {R} (c : MMKV_call R) : logged_call := existT R c.

Section Bridge.
Context `{Eng : Engine} `{Str : StdString}.

(** ** The state a call runs in *)

(** - [mmkv]: the state of the engine, and [mmkv_calls] the calls it has
      received, oldest first;
    - [pending_exception]: the message of the host exception waiting to
      be delivered, if any;
    - [arraybuffers]: the backing stores of the host's ArrayBuffers;
    - [stack_junk]: what uninitialised locals will be found to hold;
    - [g_android_tmpDir]: the engine's global of that name. *)
Record World := {
  mmkv : MMKV_store;
  mmkv_calls : list logged_call;
  pending_exception : option string;
  arraybuffers : list bytes;
  stack_junk : nat → Z;
  g_android_tmpDir : bytes
}.

Definition M (A : Type) : Type := World → A * World.

#[global] Instance M_ret : MRet M := λ A a w, (a, w).
#[global] Instance M_bind : MBind M := λ A B f m w, let '(a, w') := m w in f a w'.

(** One call of the engine: it reacts, and the call is logged. *)
Definition MMKV_do {R} (c : MMKV_call R) : M R := λ w,
  let '(r, s) := MMKV_perform c (mmkv w) in
  (r, {| mmkv := s; mmkv_calls := mmkv_calls w ++ [log_entry c];
         pending_exception := pending_exception w; arraybuffers := arraybuffers w;
         stack_junk := stack_junk w; g_android_tmpDir := g_android_tmpDir w |}).

Definition set_g_android_tmpDir (dir : bytes) : M unit := λ w,
  (tt, {| mmkv := mmkv w; mmkv_calls := mmkv_calls w;
          pending_exception := pending_exception w; arraybuffers := arraybuffers w;
          stack_junk := stack_junk w; g_android_tmpDir := dir |}).

(** *** Uninitialised locals *)

(** The content of a local declared without initialiser. *)
Definition uninit : M Z := λ w,
  (stack_junk w O,
   {| mmkv := mmkv w; mmkv_calls := mmkv_calls w;
      pending_exception := pending_exception w; arraybuffers := arraybuffers w;
      stack_junk := λ n, stack_junk w (S n); g_android_tmpDir := g_android_tmpDir w |}).

Definition uninit_bool : M bool := z ← uninit; mret (negb (z mod 256 =? 0)).
Definition uninit_int32 : M Z := z ← uninit; mret (to_int32 z).
Definition uninit_uint32 : M Z := z ← uninit; mret (to_uint32 z).
Definition uninit_int64 : M Z := z ← uninit; mret (to_int64 z).
Definition uninit_uint64 : M Z := z ← uninit; mret (to_uint64 z).
Definition uninit_double : M double := z ← uninit; mret (double_of_bits z).
Definition uninit_size_t : M nat := z ← uninit; mret (Z.to_nat (to_uint64 z)).
Definition uninit_napi_value : M napi_value := z ← uninit; mret (dangling z).

(** [T x; call(..., &x);]: afterwards [x] is what the call wrote, or still
    uninitialised when it wrote nothing. *)
Definition written {T} (out : option T) (garbage : M T) : M T :=
  match out with
  | Some v => mret v
  | None => garbage
  end.

(** *** Exceptions and host memory *)

Definition napi_is_exception_pending : M bool := λ w,
  (match pending_exception w with Some _ => true | None => false end, w).

Definition napi_throw_error (msg : string) : M unit := λ w,
  (tt, {| mmkv := mmkv w; mmkv_calls := mmkv_calls w;
          pending_exception := Some msg; arraybuffers := arraybuffers w;
          stack_junk := stack_junk w; g_android_tmpDir := g_android_tmpDir w |}).

Definition set_arraybuffers (h : list bytes) : M unit := λ w,
  (tt, {| mmkv := mmkv w; mmkv_calls := mmkv_calls w;
          pending_exception := pending_exception w; arraybuffers := h;
          stack_junk := stack_junk w; g_android_tmpDir := g_android_tmpDir w |}).

(** The bytes behind a pointer. *)
Definition read (w : World) (p : pointer) : bytes :=
  match p with
  | NULL => []
  | native content => content
  | host data => default [] (arraybuffers w !! data)
  end.

(** The content of a buffer: [length()] bytes from [getPtr()]. *)
Definition MMBuffer_bytes (w : World) (b : MMBuffer) : bytes :=
  take (MMBuffer_length b) (read w (getPtr b)).

(** A buffer is well formed when its pointer has [length()] bytes behind it. *)
Definition MMBuffer_valid (w : World) (b : MMBuffer) : Prop :=
  (MMBuffer_length b ≤ length (read w (getPtr b)))%nat.

Definition read_MMBuffer (b : MMBuffer) : M bytes := λ w, (MMBuffer_bytes w b, w).

(** A new ArrayBuffer of [byte_length] zero bytes; [data] is its backing
    store. *)
Definition napi_create_arraybuffer (byte_length : nat) : M (napi_out (pointer * napi_value)) := λ w,
  let data := length (arraybuffers w) in
  let '(_, w') := set_arraybuffers (arraybuffers w ++ [replicate byte_length x00]) w in
  ((napi_ok, Some (host data, JArrayBuffer data)), w').

Definition napi_get_arraybuffer_info (value : napi_value) : M (napi_out (pointer * nat)) := λ w,
  (match value with
   | JArrayBuffer data =>
       match arraybuffers w !! data with
       | Some content => (napi_ok, Some (host data, length content))
       | None => (napi_invalid_arg, None)
       end
   | _ => (napi_invalid_arg, None)
   end, w).

(** [memcpy] into host memory. *)
Definition memcpy (dest src : pointer) (n : nat) : M unit := λ w,
  match dest with
  | host data =>
      set_arraybuffers
        (alter (λ old, write_at_start old (take n (read w src))) data (arraybuffers w)) w
  | _ => (tt, w)
  end.

(** ** The conversion layer (native_bridge.cpp, lines 44 to 200) *)

(** The macro [NAPI_CALL_RET(call, return_value)], applied to the status
    of [call].  On an error it takes [error_info], the pointer to the
    record of the environment in the state the failed call left it, and
    asks whether an exception is pending.  That call succeeds, so it
    clears the record [error_info] points to.  When no exception is
    pending the macro then throws one with the message it finds in the
    record, or ["null"] when there is none, and the enclosing function
    returns [return_value]; when one is pending the function carries on
    with [rest], as it does on success. *)
Definition NAPI_CALL_RET {A} (status : napi_status) (return_value : A) (rest : M A) : M A :=
  if bool_decide (status ≠ napi_ok) then
    let error_info := napi_get_last_error_info (napi_set_last_error status) in
    is_pending ← napi_is_exception_pending;
    let error_info := napi_clear_last_error error_info in
    if negb is_pending then
      let message := default "null"%string (error_message error_info) in
      napi_throw_error message;;
      mret return_value
    else rest
  else rest.

Definition NAPI_CALL (status : napi_status) (rest : M napi_value) : M napi_value :=
  NAPI_CALL_RET status nullptr rest.

Definition IsNValueUndefined (value : napi_value) : bool :=
  match napi_typeof value with
  | (napi_ok, Some type) => bool_decide (type = napi_undefined)
  | _ => false
  end.

Definition NValueToString (value : napi_value) (maybeUndefined : bool) : M bytes :=
  if maybeUndefined && IsNValueUndefined value then mret []
  else
    let '(status, out) := napi_get_value_string_utf8 value None 0 in
    size ← written (snd <$> out) uninit_size_t;
    NAPI_CALL_RET status [] (
      let result := string_resized size in
      let '(status, out) :=
        napi_get_value_string_utf8 value (Some (str_buffer result)) (str_capacity result) in
      let result :=
        match out with
        | Some (Some buffer, _) => {| str_buffer := buffer; str_size := str_size result |}
        | _ => result
        end in
      NAPI_CALL_RET status [] (mret (str_content result))).

Definition StringToNValue (value : bytes) : M napi_value :=
  mret (napi_create_string_utf8 value (length value)).

Definition NValueToMMBuffer (value : napi_value) (maybeUndefined : bool) : M MMBuffer :=
  if maybeUndefined && IsNValueUndefined value then mret MMBuffer_empty
  else
    '(status, out) ← napi_get_arraybuffer_info value;
    let '(data, length) := default (NULL, O) out in
    if bool_decide (status = napi_ok) then mret (MMBuffer_of data length true)
    else mret MMBuffer_empty.

Definition MMBufferToNValue (value : MMBuffer) : M napi_value :=
  '(status, out) ← napi_create_arraybuffer (MMBuffer_length value);
  let '(data, result) := default (NULL, nullptr) out in
  (if bool_decide (status = napi_ok)
   then memcpy data (getPtr value) (MMBuffer_length value)
   else mret tt);;
  mret result.

Definition NAPIUndefined : M napi_value := mret JUndefined.

Definition NAPINull : M napi_value := mret JNull.

Definition BoolToNValue (value : bool) : M napi_value :=
  let result := napi_create_double (bool_to_double value) in
  let '(_, out) := napi_coerce_to_bool result in
  written out uninit_napi_value.

Definition NValueToBool (value : napi_value) : M bool :=
  let '(_, out) := napi_get_value_bool value in
  written out uninit_bool.

Definition Int32ToNValue (value : Z) : M napi_value :=
  mret (napi_create_int32 value).

Definition NValueToInt32 (value : napi_value) : M Z :=
  let '(_, out) := napi_get_value_int32 value in
  written out uninit_int32.

Definition UInt32ToNValue (value : Z) : M napi_value :=
  mret (napi_create_uint32 value).

Definition NValueToUInt32 (value : napi_value) : M Z :=
  let '(_, out) := napi_get_value_uint32 value in
  written out uninit_uint32.

Definition DoubleToNValue (value : double) : M napi_value :=
  mret (napi_create_double value).

Definition NValueToDouble (value : napi_value) : M double :=
  let '(_, out) := napi_get_value_double value in
  written out uninit_double.

Definition Int64ToNValue (value : Z) : M napi_value :=
  mret (napi_create_bigint_int64 value).

Definition NValueToInt64 (value : napi_value) : M Z :=
  let '(_, out) := napi_get_value_bigint_int64 value in
  written (fst <$> out) uninit_int64.

Definition UInt64ToNValue (value : Z) : M napi_value :=
  mret (napi_create_bigint_uint64 value).

Definition NValueToUInt64 (value : napi_value) : M Z :=
  let '(_, out) := napi_get_value_bigint_uint64 value in
  written (fst <$> out) uninit_uint64.

(** ** The exported functions (native_bridge.cpp, lines 202 to 540) *)

(** The arguments the host passed to a native function. *)
Definition napi_callback_info : Type := list napi_value.

(** [napi_get_cb_info(env, info, &argc, args, nullptr, nullptr)] fills
    [args]: the first [argc] arguments, and [undefined] where the host
    passed fewer. *)
Definition napi_get_cb_info (info : napi_callback_info) (argc : nat) : napi_status * list napi_value :=
  (napi_ok, take argc (info ++ replicate argc JUndefined)).

(** [args[i]]; [args] starts out as null handles. *)
Definition argv (args : list napi_value) (i : nat) : napi_value :=
  default nullptr (args !! i).

Definition initialize (info : napi_callback_info) : M napi_value :=
  let argc := 3%nat in
  let '(status, args) := napi_get_cb_info info argc in
  NAPI_CALL status (
    rootDir ← NValueToString (argv args 0) false;
    cacheDir ← NValueToString (argv args 1) false;
    let '(status, out) := napi_get_value_int32 (argv args 2) in
    logLevel ← written out uninit_int32;
    NAPI_CALL status (
      MMKV_do (MMKV_initializeMMKV rootDir logLevel);;
      set_g_android_tmpDir cacheDir;;
      root ← MMKV_do MMKV_getRootDir;
      StringToNValue root)).

Definition version (info : napi_callback_info) : M napi_value :=
  let sum := napi_create_string_latin1 MMKV_VERSION (strlen MMKV_VERSION) in
  NAPI_CALL napi_ok (mret sum).

Definition getDefaultMMKV (info : napi_callback_info) : M napi_value :=
  let argc := 2%nat in
  let '(status, args) := napi_get_cb_info info argc in
  NAPI_CALL status (
    let '(status, out) := napi_get_value_int32 (argv args 0) in
    mode ← written out uninit_int32;
    NAPI_CALL status (
      crypt ← NValueToString (argv args 1) true;
      let kv := 0 in
      kv ← (if (0 <? length crypt)%nat
            then MMKV_do (MMKV_defaultMMKV mode (Some crypt))
            else mret kv);
      kv ← (if kv =? 0
            then MMKV_do (MMKV_defaultMMKV mode None)
            else mret kv);
      UInt64ToNValue kv)).

Definition encodeBool (info : napi_callback_info) : M napi_value :=
  let argc := 4%nat in
  let '(status, args) := napi_get_cb_info info argc in
  NAPI_CALL status (
    handle ← NValueToUInt64 (argv args 0);
    key ← NValueToString (argv args 1) false;
    let kv := handle in
    if negb (kv =? 0) && (0 <? length key)%nat then
      value ← NValueToBool (argv args 2);
      if IsNValueUndefined (argv args 3) then
        ret ← MMKV_do (kv_set kv (VBool value) key None);
        BoolToNValue ret
      else
        expiration ← NValueToUInt32 (argv args 3);
        ret ← MMKV_do (kv_set kv (VBool value) key (Some expiration));
        BoolToNValue ret
    else BoolToNValue false).

Definition decodeBool (info : napi_callback_info) : M napi_value :=
  let argc := 3%nat in
  let '(status, args) := napi_get_cb_info info argc in
  NAPI_CALL status (
    handle ← NValueToUInt64 (argv args 0);
    key ← NValueToString (argv args 1) false;
    defaultValue ← NValueToBool (argv args 2);
    let kv := handle in
    if negb (kv =? 0) && (0 <? length key)%nat then
      ret ← MMKV_do (kv_getBool kv key defaultValue);
      BoolToNValue ret
    else BoolToNValue defaultValue).

Definition encodeInt32 (info : napi_callback_info) : M napi_value :=
  let argc := 4%nat in
  let '(status, args) := napi_get_cb_info info argc in
  NAPI_CALL status (
    handle ← NValueToUInt64 (argv args 0);
    key ← NValueToString (argv args 1) false;
    let kv := handle in
    if negb (kv =? 0) && (0 <? length key)%nat then
      value ← NValueToInt32 (argv args 2);
      if IsNValueUndefined (argv args 3) then
        ret ← MMKV_do (kv_set kv (VInt32 value) key None);
        BoolToNValue ret
      else
        expiration ← NValueToUInt32 (argv args 3);
        ret ← MMKV_do (kv_set kv (VInt32 value) key (Some expiration));
        BoolToNValue ret
    else BoolToNValue false).

Definition decodeInt32 (info : napi_callback_info) : M napi_value :=
  let argc := 3%nat in
  let '(status, args) := napi_get_cb_info info argc in
  NAPI_CALL status (
    handle ← NValueToUInt64 (argv args 0);
    key ← NValueToString (argv args 1) false;
    defaultValue ← NValueToInt32 (argv args 2);
    let kv := handle in
    if negb (kv =? 0) && (0 <? length key)%nat then
      ret ← MMKV_do (kv_getInt32 kv key defaultValue);
      Int32ToNValue ret
    else Int32ToNValue defaultValue).

Definition encodeUInt32 (info : napi_callback_info) : M napi_value :=
  let argc := 4%nat in
  let '(status, args) := napi_get_cb_info info argc in
  NAPI_CALL status (
    handle ← NValueToUInt64 (argv args 0);
    key ← NValueToString (argv args 1) false;
    let kv := handle in
    if negb (kv =? 0) && (0 <? length key)%nat then
      value ← NValueToUInt32 (argv args 2);
      if IsNValueUndefined (argv args 3) then
        ret ← MMKV_do (kv_set kv (VUInt32 value) key None);
        BoolToNValue ret
      else
        expiration ← NValueToUInt32 (argv args 3);
        ret ← MMKV_do (kv_set kv (VUInt32 value) key (Some expiration));
        BoolToNValue ret
    else BoolToNValue false).

Definition decodeUInt32 (info : napi_callback_info) : M napi_value :=
  let argc := 3%nat in
  let '(status, args) := napi_get_cb_info info argc in
  NAPI_CALL status (
    handle ← NValueToUInt64 (argv args 0);
    key ← NValueToString (argv args 1) false;
    defaultValue ← NValueToUInt32 (argv args 2);
    let kv := handle in
    if negb (kv =? 0) && (0 <? length key)%nat then
      ret ← MMKV_do (kv_getUInt32 kv key defaultValue);
      UInt32ToNValue ret
    else UInt32ToNValue defaultValue).

Definition encodeInt64 (info : napi_callback_info) : M napi_value :=
  let argc := 4%nat in
  let '(status, args) := napi_get_cb_info info argc in
  NAPI_CALL status (
    handle ← NValueToUInt64 (argv args 0);
    key ← NValueToString (argv args 1) false;
    let kv := handle in
    if negb (kv =? 0) && (0 <? length key)%nat then
      value ← NValueToInt64 (argv args 2);
      if IsNValueUndefined (argv args 3) then
        ret ← MMKV_do (kv_set kv (VInt64 value) key None);
        BoolToNValue ret
      else
        expiration ← NValueToUInt32 (argv args 3);
        ret ← MMKV_do (kv_set kv (VInt64 value) key (Some expiration));
        BoolToNValue ret
    else BoolToNValue false).

Definition decodeInt64 (info : napi_callback_info) : M napi_value :=
  let argc := 3%nat in
  let '(status, args) := napi_get_cb_info info argc in
  NAPI_CALL status (
    handle ← NValueToUInt64 (argv args 0);
    key ← NValueToString (argv args 1) false;
    defaultValue ← NValueToInt64 (argv args 2);
    let kv := handle in
    if negb (kv =? 0) && (0 <? length key)%nat then
      ret ← MMKV_do (kv_getInt64 kv key defaultValue);
      Int64ToNValue ret
    else Int64ToNValue defaultValue).

Definition encodeUInt64 (info : napi_callback_info) : M napi_value :=
  let argc := 4%nat in
  let '(status, args) := napi_get_cb_info info argc in
  NAPI_CALL status (
    handle ← NValueToUInt64 (argv args 0);
    key ← NValueToString (argv args 1) false;
    let kv := handle in
    if negb (kv =? 0) && (0 <? length key)%nat then
      value ← NValueToUInt64 (argv args 2);
      if IsNValueUndefined (argv args 3) then
        ret ← MMKV_do (kv_set kv (VUInt64 value) key None);
        BoolToNValue ret
      else
        expiration ← NValueToUInt32 (argv args 3);
        ret ← MMKV_do (kv_set kv (VUInt64 value) key (Some expiration));
        BoolToNValue ret
    else BoolToNValue false).

Definition decodeUInt64 (info : napi_callback_info) : M napi_value :=
  let argc := 3%nat in
  let '(status, args) := napi_get_cb_info info argc in
  NAPI_CALL status (
    handle ← NValueToUInt64 (argv args 0);
    key ← NValueToString (argv args 1) false;
    defaultValue ← NValueToUInt64 (argv args 2);
    let kv := handle in
    if negb (kv =? 0) && (0 <? length key)%nat then
      ret ← MMKV_do (kv_getUInt64 kv key defaultValue);
      UInt64ToNValue ret
    else UInt64ToNValue defaultValue).

Definition encodeDouble (info : napi_callback_info) : M napi_value :=
  let argc := 4%nat in
  let '(status, args) := napi_get_cb_info info argc in
  NAPI_CALL status (
    handle ← NValueToUInt64 (argv args 0);
    key ← NValueToString (argv args 1) false;
    let kv := handle in
    if negb (kv =? 0) && (0 <? length key)%nat then
      value ← NValueToDouble (argv args 2);
      if IsNValueUndefined (argv args 3) then
        ret ← MMKV_do (kv_set kv (VDouble value) key None);
        BoolToNValue ret
      else
        expiration ← NValueToUInt32 (argv args 3);
        ret ← MMKV_do (kv_set kv (VDouble value) key (Some expiration));
        BoolToNValue ret
    else BoolToNValue false).

Definition decodeDouble (info : napi_callback_info) : M napi_value :=
  let argc := 3%nat in
  let '(status, args) := napi_get_cb_info info argc in
  NAPI_CALL status (
    handle ← NValueToUInt64 (argv args 0);
    key ← NValueToString (argv args 1) false;
    defaultValue ← NValueToDouble (argv args 2);
    let kv := handle in
    if negb (kv =? 0) && (0 <? length key)%nat then
      ret ← MMKV_do (kv_getDouble kv key defaultValue);
      DoubleToNValue ret
    else DoubleToNValue defaultValue).

Definition encodeString (info : napi_callback_info) : M napi_value :=
  let argc := 4%nat in
  let '(status, args) := napi_get_cb_info info argc in
  NAPI_CALL status (
    handle ← NValueToUInt64 (argv args 0);
    key ← NValueToString (argv args 1) false;
    let kv := handle in
    if negb (kv =? 0) && (0 <? length key)%nat then
      value ← NValueToString (argv args 2) false;
      if IsNValueUndefined (argv args 3) then
        ret ← MMKV_do (kv_set kv (VString value) key None);
        BoolToNValue ret
      else
        expiration ← NValueToUInt32 (argv args 3);
        ret ← MMKV_do (kv_set kv (VString value) key (Some expiration));
        BoolToNValue ret
    else BoolToNValue false).

Definition decodeString (info : napi_callback_info) : M napi_value :=
  let argc := 3%nat in
  let '(status, args) := napi_get_cb_info info argc in
  NAPI_CALL status (
    handle ← NValueToUInt64 (argv args 0);
    key ← NValueToString (argv args 1) false;
    let kv := handle in
    if negb (kv =? 0) && (0 <? length key)%nat then
      '(found, result) ← MMKV_do (kv_getString kv key);
      if (found : bool) then StringToNValue result
      else mret (argv args 2)
    else mret (argv args 2)).

(** [kv->set(value, key)] for a buffer: the engine receives the bytes the
    buffer holds when it is called. *)
Definition encodeBytes (info : napi_callback_info) : M napi_value :=
  let argc := 4%nat in
  let '(status, args) := napi_get_cb_info info argc in
  NAPI_CALL status (
    handle ← NValueToUInt64 (argv args 0);
    key ← NValueToString (argv args 1) false;
    let kv := handle in
    if negb (kv =? 0) && (0 <? length key)%nat then
      value ← NValueToMMBuffer (argv args 2) false;
      if IsNValueUndefined (argv args 3) then
        content ← read_MMBuffer value;
        ret ← MMKV_do (kv_set kv (VBytes content) key None);
        BoolToNValue ret
      else
        expiration ← NValueToUInt32 (argv args 3);
        content ← read_MMBuffer value;
        ret ← MMKV_do (kv_set kv (VBytes content) key (Some expiration));
        BoolToNValue ret
    else BoolToNValue false).

Definition decodeBytes (info : napi_callback_info) : M napi_value :=
  let argc := 3%nat in
  let '(status, args) := napi_get_cb_info info argc in
  NAPI_CALL status (
    handle ← NValueToUInt64 (argv args 0);
    key ← NValueToString (argv args 1) false;
    let kv := handle in
    if negb (kv =? 0) && (0 <? length key)%nat then
      '(found, result) ← MMKV_do (kv_getBytes kv key);
      if (found : bool) then MMBufferToNValue result
      else mret (argv args 2)
    else mret (argv args 2)).

(** ** The dispatch table and the module (native_bridge.cpp, lines 542 to 582) *)

Definition napi_callback : Type := napi_callback_info → M napi_value.

(** A [napi_property_descriptor]; of its eight fields the table sets
    [utf8name] and [method], the others are null or [napi_default]. *)
Record napi_property_descriptor := {
  utf8name : string;
  method : napi_callback
}.

(** A host object as far as the module deals with it: its properties
    that are native functions, and the names under which the host refuses
    to define a property, because a property that is not configurable is
    in the way or because the name is new and the object is not
    extensible. *)
Record host_object := {
  methods : gmap string napi_callback;
  refuses : string → bool
}.

(** A fresh object has no property and refuses none. *)
#[global] Instance host_object_empty : Empty host_object :=
  {| methods := ∅; refuses := λ _, false |}.

(** The native function an object has under a name, and the number of
    its native functions. *)
#[global] Instance host_object_lookup : Lookup string napi_callback host_object :=
  λ name object, methods object !! name.

#[global] Instance host_object_size : Size host_object :=
  λ object, size (methods object).

(** [napi_define_properties] defines the properties one after the other
    and returns at the first one the host refuses, with an error and with
    the earlier ones defined.  A property defined with [napi_default] is
    neither writable nor configurable, so its name is refused from then
    on. *)
Fixpoint define_properties
    (object : host_object) (properties : list napi_property_descriptor) :
    napi_status * host_object :=
  match properties with
  | [] => (napi_ok, object)
  | p :: properties =>
      if refuses object (utf8name p) then (napi_invalid_arg, object)
      else
        define_properties
          {| methods := <[utf8name p := method p]> (methods object);
             refuses := λ name, bool_decide (name = utf8name p) || refuses object name |}
          properties
  end.

Definition napi_define_properties
    (object : host_object) (property_count : nat)
    (properties : list napi_property_descriptor) : napi_status * host_object :=
  define_properties object (take property_count properties).

Definition desc : list napi_property_descriptor := [
  {| utf8name := "initialize"; method := initialize |};
  {| utf8name := "version"; method := version |};
  {| utf8name := "getDefaultMMKV"; method := getDefaultMMKV |};
  {| utf8name := "encodeBool"; method := encodeBool |};
  {| utf8name := "decodeBool"; method := decodeBool |};
  {| utf8name := "encodeInt32"; method := encodeInt32 |};
  {| utf8name := "decodeInt32"; method := decodeInt32 |};
  {| utf8name := "encodeUInt32"; method := encodeUInt32 |};
  {| utf8name := "decodeUInt32"; method := decodeUInt32 |};
  {| utf8name := "encodeInt64"; method := encodeInt64 |};
  {| utf8name := "decodeInt64"; method := decodeInt64 |};
  {| utf8name := "encodeUInt64"; method := encodeUInt64 |};
  {| utf8name := "decodeUInt64"; method := decodeUInt64 |};
  {| utf8name := "encodeDouble"; method := encodeDouble |};
  {| utf8name := "decodeDouble"; method := decodeDouble |};
  {| utf8name := "encodeString"; method := encodeString |};
  {| utf8name := "decodeString"; method := decodeString |};
  {| utf8name := "encodeBytes"; method := encodeBytes |};
  {| utf8name := "decodeBytes"; method := decodeBytes |}
]%string.

(** [Init] does not look at the status of [napi_define_properties]. *)
Definition Init (exports : host_object) : host_object :=
  let '(_, exports) := napi_define_properties exports (length desc) desc in
  exports.

Record napi_module := {
  nm_version : Z;
  nm_flags : Z;
  nm_filename : option string;
  nm_register_func : host_object → host_object;
  nm_modname : string
}.

Definition mmkvModule : napi_module := {|
  nm_version := 1;
  nm_flags := 0;
  nm_filename := None;
  nm_register_func := Init;
  nm_modname := "mmkv"
|}.

(** The host keeps the modules registered with it, and on the first
    import of a module calls its register function on a fresh exports
    object. *)
Definition napi_module_register (nm : napi_module) (registry : list napi_module) : list napi_module :=
  registry ++ [nm].

Definition host_import (registry : list napi_module) (modname : string) : option host_object :=
  m ← list_find (λ m, nm_modname m = modname) registry;
  Some (nm_register_func m.2 ∅).

Definition RegisterMMKVModule (registry : list napi_module) : list napi_module :=
  napi_module_register mmkvModule registry.

(** *** The exported functions by value type *)

Inductive value_type :=
| TBool | TInt32 | TUInt32 | TInt64 | TUInt64 | TDouble | TString | TBytes.

Definition encode_function (t : value_type) : napi_callback :=
  match t with
  | TBool => encodeBool
  | TInt32 => encodeInt32
  | TUInt32 => encodeUInt32
  | TInt64 => encodeInt64
  | TUInt64 => encodeUInt64
  | TDouble => encodeDouble
  | TString => encodeString
  | TBytes => encodeBytes
  end.

Definition decode_function (t : value_type) : napi_callback :=
  match t with
  | TBool => decodeBool
  | TInt32 => decodeInt32
  | TUInt32 => decodeUInt32
  | TInt64 => decodeInt64
  | TUInt64 => decodeUInt64
  | TDouble => decodeDouble
  | TString => decodeString
  | TBytes => decodeBytes
  end.

(** ** Vocabulary of the statements *)

(** The [i]-th argument the host passed, [undefined] when it passed fewer. *)
Definition host_arg (info : napi_callback_info) (i : nat) : napi_value :=
  default JUndefined (info !! i).

(** The conversion an encode function applies to its third argument, and
    the value the engine is then given. *)
Definition convert_value (t : value_type) (value : napi_value) : M MMKV_value :=
  match t with
  | TBool => v ← NValueToBool value; mret (VBool v)
  | TInt32 => v ← NValueToInt32 value; mret (VInt32 v)
  | TUInt32 => v ← NValueToUInt32 value; mret (VUInt32 v)
  | TInt64 => v ← NValueToInt64 value; mret (VInt64 v)
  | TUInt64 => v ← NValueToUInt64 value; mret (VUInt64 v)
  | TDouble => v ← NValueToDouble value; mret (VDouble v)
  | TString => v ← NValueToString value false; mret (VString v)
  | TBytes => v ← NValueToMMBuffer value false; c ← read_MMBuffer v; mret (VBytes c)
  end.

(** The state of the engine and its log after one more call. *)
Definition after_call {R} (c : MMKV_call R) (w : World) : World := (MMKV_do c w).2.

(** [c] is the get operation of type [t] on instance [kv] for [key]. *)
Definition is_get_of (t : value_type) (kv : Z) (key : bytes) (c : logged_call) : Prop :=
  match projT2 c with
  | kv_getBool kv' key' _ => t = TBool ∧ kv' = kv ∧ key' = key
  | kv_getInt32 kv' key' _ => t = TInt32 ∧ kv' = kv ∧ key' = key
  | kv_getUInt32 kv' key' _ => t = TUInt32 ∧ kv' = kv ∧ key' = key
  | kv_getInt64 kv' key' _ => t = TInt64 ∧ kv' = kv ∧ key' = key
  | kv_getUInt64 kv' key' _ => t = TUInt64 ∧ kv' = kv ∧ key' = key
  | kv_getDouble kv' key' _ => t = TDouble ∧ kv' = kv ∧ key' = key
  | kv_getString kv' key' => t = TString ∧ kv' = kv ∧ key' = key
  | kv_getBytes kv' key' => t = TBytes ∧ kv' = kv ∧ key' = key
  | _ => False
  end.

(** The type of a value given to [set]. *)
Definition type_of_value (v : MMKV_value) : value_type :=
  match v with
  | VBool _ => TBool
  | VInt32 _ => TInt32
  | VUInt32 _ => TUInt32
  | VInt64 _ => TInt64
  | VUInt64 _ => TUInt64
  | VDouble _ => TDouble
  | VString _ => TString
  | VBytes _ => TBytes
  end.

(** [c] is the set operation of type [t] on instance [kv] for [key]. *)
Definition is_set_of (t : value_type) (kv : Z) (key : bytes) (c : logged_call) : Prop :=
  match projT2 c with
  | kv_set kv' value key' _ => type_of_value value = t ∧ kv' = kv ∧ key' = key
  | _ => False
  end.

(** The engine state reached from [s] by the logged call [c]. *)
Definition store_after (c : logged_call) (s : MMKV_store) : MMKV_store :=
  (MMKV_perform (projT2 c) s).2.

(** The six scalar types share one decode function up to the row of
    this table: the native type, the two conversions, and the get
    operation of the engine. *)
Inductive scalar_type :=
| SBool | SInt32 | SUInt32 | SInt64 | SUInt64 | SDouble.

Definition value_type_of (s : scalar_type) : value_type :=
  match s with
  | SBool => TBool
  | SInt32 => TInt32
  | SUInt32 => TUInt32
  | SInt64 => TInt64
  | SUInt64 => TUInt64
  | SDouble => TDouble
  end.

Record marshalling := {
  native_type : Type;
  from_host : napi_value → M native_type;
  to_host : native_type → M napi_value;
  get : Z → bytes → native_type → MMKV_call native_type
}.

Definition marshalling_of (s : scalar_type) : marshalling :=
  match s with
  | SBool => {| from_host := NValueToBool; to_host := BoolToNValue; get := kv_getBool |}
  | SInt32 => {| from_host := NValueToInt32; to_host := Int32ToNValue; get := kv_getInt32 |}
  | SUInt32 => {| from_host := NValueToUInt32; to_host := UInt32ToNValue; get := kv_getUInt32 |}
  | SInt64 => {| from_host := NValueToInt64; to_host := Int64ToNValue; get := kv_getInt64 |}
  | SUInt64 => {| from_host := NValueToUInt64; to_host := UInt64ToNValue; get := kv_getUInt64 |}
  | SDouble => {| from_host := NValueToDouble; to_host := DoubleToNValue; get := kv_getDouble |}
  end.

(** The values of a scalar type that its native type holds and that the
    host has a value of their own for: the integers of the C type, and
    every double but the NaNs with a sign or a payload, for which the host
    has the one NaN. *)
Definition in_range (s : scalar_type) : native_type (marshalling_of s) → Prop :=
  match s with
  | SBool => λ _, True
  | SInt32 => is_int32
  | SUInt32 => is_uint32
  | SInt64 => is_int64
  | SUInt64 => is_uint64
  | SDouble => λ d, is_nan d = true → d = quiet_nan
  end.

(** What the host and the native side take for the same value, written
    out for the host's types and independently of the bridge's conversion
    functions, which the statements compare with it.  The host form of a
    native value: a boolean is a host boolean, a 32-bit integer the number
    of that value, a 64-bit integer the BigInt of that value, a double
    the number it is (the one NaN for every NaN). *)
Definition host_form (s : scalar_type) : native_type (marshalling_of s) → napi_value :=
  match s with
  | SBool => JBoolean
  | SInt32 => λ z, JNumber (Z_to_number z)
  | SUInt32 => λ z, JNumber (Z_to_number z)
  | SInt64 => JBigInt
  | SUInt64 => JBigInt
  | SDouble => λ d, JNumber (number_of_double d)
  end.

(** The native form of a host value of the type a function expects: the
    boolean; the integral part of the number, cut to the low 32 bits; the
    low 64 bits of the BigInt; the number as a double.  A host value of
    another type has none. *)
Definition native_form (s : scalar_type) (value : napi_value) :
    option (native_type (marshalling_of s)) :=
  match s with
  | SBool => match value with JBoolean b => Some b | _ => None end
  | SInt32 => match value with JNumber x => Some (to_int32 (number_trunc x)) | _ => None end
  | SUInt32 => match value with JNumber x => Some (to_uint32 (number_trunc x)) | _ => None end
  | SInt64 => match value with JBigInt z => Some (to_int64 z) | _ => None end
  | SUInt64 => match value with JBigInt z => Some (to_uint64 z) | _ => None end
  | SDouble => match value with JNumber x => Some (double_of_number x) | _ => None end
  end.

(** A computation that leaves the engine alone: neither its state nor
    the log of its calls changes. *)
Definition engine_untouched {A} (m : M A) : Prop :=
  ∀ w, mmkv (m w).2 = mmkv w ∧ mmkv_calls (m w).2 = mmkv_calls w.

(** A computation that leaves one component of the state as it was. *)
Definition keeps {X A} (field : World → X) (m : M A) : Prop :=
  ∀ w, field (m w).2 = field w.

(** The value of a scalar type as [set] is given it. *)
Definition wrap_scalar (s : scalar_type) : native_type (marshalling_of s) → MMKV_value :=
  match s with
  | SBool => VBool
  | SInt32 => VInt32
  | SUInt32 => VUInt32
  | SInt64 => VInt64
  | SUInt64 => VUInt64
  | SDouble => VDouble
  end.

(** The bytes [encodeBytes] finds behind its third argument: the content
    of the ArrayBuffer, nothing for any other value. *)
Definition arraybuffer_content (w : World) (value : napi_value) : bytes :=
  match value with
  | JArrayBuffer data => default [] (arraybuffers w !! data)
  | _ => []
  end.

(** Text of 7-bit characters without a NUL. *)
Definition plain_ascii (s : bytes) : Prop :=
  Forall (λ b, (0 < Byte.to_N b < 128)%N) s.

End Bridge.

(** ** A concrete engine and concrete states *)

(** An engine in memory: a list of the records set so far, newest first.
    The default instance has handle 1, the encrypted one handle 2. *)
Record memory_store := {
  root_dir : bytes;
  records : list (Z * bytes * MMKV_value)
}.

Definition memory_find (s : memory_store) (kv : Z) (key : bytes) : option MMKV_value :=
  snd <$> (snd <$> list_find (λ r, r.1 = (kv, key)) (records s)).

Definition memory_perform (R : Type) (c : MMKV_call R) (s : memory_store) : R * memory_store :=
  match c in MMKV_call R return R * memory_store with
  | kv_set kv value key _ =>
      (true, {| root_dir := root_dir s; records := (kv, key, value) :: records s |})
  | kv_getBool kv key d =>
      (match memory_find s kv key with Some (VBool v) => v | _ => d end, s)
  | kv_getInt32 kv key d =>
      (match memory_find s kv key with Some (VInt32 v) => v | _ => d end, s)
  | kv_getUInt32 kv key d =>
      (match memory_find s kv key with Some (VUInt32 v) => v | _ => d end, s)
  | kv_getInt64 kv key d =>
      (match memory_find s kv key with Some (VInt64 v) => v | _ => d end, s)
  | kv_getUInt64 kv key d =>
      (match memory_find s kv key with Some (VUInt64 v) => v | _ => d end, s)
  | kv_getDouble kv key d =>
      (match memory_find s kv key with Some (VDouble v) => v | _ => d end, s)
  | kv_getString kv key =>
      (match memory_find s kv key with Some (VString v) => (true, v) | _ => (false, []) end, s)
  | kv_getBytes kv key =>
      (match memory_find s kv key with
       | Some (VBytes v) => (true, MMBuffer_of (native v) (length v) false)
       | _ => (false, MMBuffer_empty)
       end, s)
  | MMKV_initializeMMKV rootDir _ => (tt, {| root_dir := rootDir; records := records s |})
  | MMKV_getRootDir => (root_dir s, s)
  | MMKV_defaultMMKV _ cryptKey => (match cryptKey with Some _ => 2 | None => 1 end, s)
  end.

Definition memory_engine : Engine := {|
  MMKV_store := memory_store;
  MMKV_perform := memory_perform;
  MMKV_VERSION := String.list_byte_of_string "v1.3.3"
|}.

Definition libcxx : StdString.
Proof.
  refine {| string_capacity := libcxx_capacity |}.
  intros n. unfold libcxx_capacity, libcxx_recommend.
  destruct (Nat.leb_spec n 22) as [|Hn]; [lia|].
  destruct (Nat.ltb_spec (Nat.max n 44) 23); [lia|].
  pose proof (Nat.div_mod_eq (Nat.max n 44 + 1 + 15) 16).
  pose proof (Nat.mod_upper_bound (Nat.max n 44 + 1 + 15) 16).
  destruct (Nat.eqb_spec ((Nat.max n 44 + 1 + 15) / 16 * 16 - 1) 23); lia.
Defined.

(** A state of the memory engine with nothing stored, no exception
    pending, no ArrayBuffer, and [junk] in the uninitialised locals. *)
Definition empty_store : memory_store := {| root_dir := []; records := [] |}.

Definition world_with_junk (junk : nat → Z) : World (Eng := memory_engine) :=
  @Build_World memory_engine empty_store [] None [] junk [].

Definition world0 : World (Eng := memory_engine) := world_with_junk (λ _, 0).

(** The same with an exception pending and 2 in the uninitialised locals. *)
Definition world_pending : World (Eng := memory_engine) :=
  @Build_World memory_engine empty_store [] (Some "earlier error"%string) [] (λ _, 2) [].

(** *** Concrete calls *)

Definition key_k : bytes := String.list_byte_of_string "k".

Definition key_of_22_bytes : bytes := String.list_byte_of_string "abcdefghijklmnopqrstuv".

Definition secret : bytes := String.list_byte_of_string "secret".

(** The number 3.5: 7 * 2^50 * 2^-51. *)
Definition three_and_a_half : number := S754_finite false 7881299347898368 (-51).

(** The doubles -3.5, and a negative quiet NaN with payload 0x123, given
    by their encodings. *)
Definition minus_three_and_a_half : double := double_of_bits 0xc00c000000000000.

Definition nan_with_payload : double := double_of_bits 0xfff8000000000123.

(** [encodeInt32(1n, "k", 7, 60)] and [decodeInt32(1n, "k", 7)]. *)
Definition info_encode : napi_callback_info :=
  [JBigInt 1; JString key_k; JNumber (Z_to_number 7); JNumber (Z_to_number 60)].

Definition info_decode : napi_callback_info :=
  [JBigInt 1; JString key_k; JNumber (Z_to_number 7)].

(** [encodeInt32(1n, "k", 7, null)]: an expiration that is not a number. *)
Definition info_encode_null_expiration : napi_callback_info :=
  [JBigInt 1; JString key_k; JNumber (Z_to_number 7); JNull].

(** [decodeInt32(0n, "k", 3.5)]: a null handle. *)
Definition info_null_handle : napi_callback_info :=
  [JBigInt 0; JString key_k; JNumber three_and_a_half].

(** [getDefaultMMKV(1, "secret")] and [getDefaultMMKV(undefined, "secret")]. *)
Definition info_default : napi_callback_info :=
  [JNumber (Z_to_number 1); JString secret].

Definition info_default_without_mode : napi_callback_info :=
  [JUndefined; JString secret].

(** A native buffer of three bytes. *)
Definition buffer_abc : MMBuffer :=
  MMBuffer_of (native (String.list_byte_of_string "abc")) 3 false.

(** The euro sign, three bytes of UTF-8. *)
Definition euro_sign : bytes := [xe2; x82; xac].

(** [initialize("/data", "/cache", 1)]. *)
Definition dir_data : bytes := String.list_byte_of_string "/data".

Definition dir_cache : bytes := String.list_byte_of_string "/cache".

Definition info_initialize : napi_callback_info :=
  [JString dir_data; JString dir_cache; JNumber (Z_to_number 1)].

(** [initialize("/data", "/cache", "verbose")] and [initialize(null, "/cache", 1)]. *)
Definition info_initialize_bad_level : napi_callback_info :=
  [JString dir_data; JString dir_cache; JString key_k].

Definition info_initialize_bad_root : napi_callback_info :=
  [JNull; JString dir_cache; JNumber (Z_to_number 1)].

(** [encodeInt32(1n, null, 7)]: the key is not a string. *)
Definition info_bad_key : napi_callback_info :=
  [JBigInt 1; JNull; JNumber (Z_to_number 7)].

(** [encodeString(1n, "k", 7)] and [encodeBytes(1n, "k", undefined)]. *)
Definition info_encode_number_as_string : napi_callback_info :=
  [JBigInt 1; JString key_k; JNumber (Z_to_number 7)].

Definition info_encode_no_buffer : napi_callback_info :=
  [JBigInt 1; JString key_k].

(** [decodeString(1n, "k", "fallback")]. *)
Definition info_decode_string : napi_callback_info :=
  [JBigInt 1; JString key_k; JString secret].

(** [encodeInt32(1n, "k", 7, 60, "ignored")]: one argument too many. *)
Definition info_encode_extra : napi_callback_info :=
  info_encode ++ [JString secret].

(** An exports object with a property ["version"] that cannot be
    redefined, and the first two rows of the table. *)
Definition exports_with_version : host_object (Eng := memory_engine) :=
  {| methods := ∅; refuses := λ name, bool_decide (name = "version"%string) |}.

Definition desc_initialize : napi_property_descriptor (Eng := memory_engine) :=
  {| utf8name := "initialize"; method := initialize (Str := libcxx) |}.

Definition desc_version : napi_property_descriptor (Eng := memory_engine) :=
  {| utf8name := "version"; method := version |}.

(** * Properties *)

(** ** Integers and doubles *)

Lemma to_int32_id (z : Z) : is_int32 z → to_int32 z = z.
Proof. unfold is_int32, to_int32. intros Hz. rewrite Z.mod_small; lia. Qed.

Lemma to_uint32_id (z : Z) : is_uint32 z → to_uint32 z = z.
Proof. unfold is_uint32, to_uint32. intros Hz. apply Z.mod_small; lia. Qed.

Lemma to_int64_id (z : Z) : is_int64 z → to_int64 z = z.
Proof. unfold is_int64, to_int64. intros Hz. rewrite Z.mod_small; lia. Qed.

Lemma to_uint64_id (z : Z) : is_uint64 z → to_uint64 z = z.
Proof. unfold is_uint64, to_uint64. intros Hz. apply Z.mod_small; lia. Qed.

Lemma digits2_pos_bounds (p : positive) :
  2 ^ (Zpos (digits2_pos p) - 1) ≤ Zpos p < 2 ^ Zpos (digits2_pos p).
Proof.
  induction p as [p IH|p IH|]; cbn [digits2_pos]; [| |simpl; lia].
  all: rewrite Pos2Z.inj_succ;
    replace (Z.succ (Zpos (digits2_pos p)) - 1) with (Z.succ (Zpos (digits2_pos p) - 1)) by lia;
    rewrite !Z.pow_succ_r by lia; lia.
Qed.

Lemma iter_xO_mul (p k : positive) : Zpos (Pos.iter xO p k) = Zpos p * 2 ^ Zpos k.
Proof.
  revert p. induction k as [|k IH] using Pos.peano_ind; intros p.
  - simpl. lia.
  - rewrite Pos.iter_succ, Pos2Z.inj_succ, Z.pow_succ_r by lia.
    rewrite Pos2Z.inj_xO, IH. lia.
Qed.

Lemma digits2_pos_iter_xO (p k : positive) :
  digits2_pos (Pos.iter xO p k) = (digits2_pos p + k)%positive.
Proof.
  induction k as [|k IH] using Pos.peano_ind.
  - simpl. lia.
  - rewrite Pos.iter_succ. cbn [digits2_pos]. rewrite IH. lia.
Qed.

(** A 53-bit mantissa with an exponent in range is left alone by rounding. *)
Lemma shr_fexp_canonical (m : positive) (e : Z) :
  Zpos (digits2_pos m) = 53 → -1074 ≤ e →
  shr_fexp 53 1024 (Zpos m) e loc_Exact =
  ({| shr_m := Zpos m; shr_r := false; shr_s := false |}, e).
Proof.
  intros Hd He. unfold shr_fexp, fexp, emin.
  change (Zdigits2 (Zpos m)) with (Zpos (digits2_pos m)). rewrite Hd.
  replace (Z.max (53 + e - 53) (3 - 1024 - 53) - e) with 0 by lia.
  reflexivity.
Qed.

Lemma binary_round_aux_canonical (s : bool) (m : positive) (e : Z) :
  Zpos (digits2_pos m) = 53 → -1074 ≤ e ≤ 971 →
  binary_round_aux 53 1024 s (Zpos m) e loc_Exact = S754_finite s m e.
Proof.
  intros Hd He.
  unfold binary_round_aux. rewrite shr_fexp_canonical by lia.
  cbn [shr_m loc_of_shr_record round_nearest_even].
  rewrite shr_fexp_canonical by lia. cbn [shr_m].
  destruct (Z.leb_spec e (1024 - 53)); [reflexivity | lia].
Qed.

(** An integer below 2^53 is a number: its mantissa is the integer
    shifted left to 53 bits. *)
Lemma binary_round_small (s : bool) (p : positive) :
  Zpos p < 2 ^ 53 →
  ∃ m e, binary_round 53 1024 s p 0 = S754_finite s m e ∧ e ≤ 0 ∧ Zpos m = Zpos p * 2 ^ (- e).
Proof.
  intros Hp.
  pose proof (digits2_pos_bounds p) as [Hlo _].
  assert (Hd : Zpos (digits2_pos p) ≤ 53).
  { destruct (Z_le_gt_dec (Zpos (digits2_pos p)) 53) as [|Hgt]; [assumption|].
    assert (2 ^ 53 ≤ 2 ^ (Zpos (digits2_pos p) - 1)) by (apply Z.pow_le_mono_r; lia). lia. }
  unfold binary_round, shl_align, fexp, emin.
  replace (Z.max (Zpos (digits2_pos p) + 0 - 53) (3 - 1024 - 53) - 0)
    with (Zpos (digits2_pos p) - 53) by lia.
  replace (Z.max (Zpos (digits2_pos p) + 0 - 53) (3 - 1024 - 53))
    with (Zpos (digits2_pos p) - 53) by lia.
  destruct (Zpos (digits2_pos p) - 53) as [|k|k] eqn:Hk; try lia.
  - exists p, 0. rewrite binary_round_aux_canonical by lia.
    split; [reflexivity|]. simpl. lia.
  - exists (Pos.iter xO p k), (Zneg k).
    rewrite binary_round_aux_canonical.
    + split; [reflexivity|]. split; [lia|]. rewrite iter_xO_mul. reflexivity.
    + rewrite digits2_pos_iter_xO. lia.
    + lia.
Qed.

(** Every integer of magnitude below 2^53 survives the conversion to
    double and back. *)
Lemma number_trunc_Z_to_number (z : Z) : Z.abs z < 2 ^ 53 → number_trunc (Z_to_number z) = z.
Proof.
  intros Hz. destruct z as [|p|p]; [reflexivity| |].
  - destruct (binary_round_small false p) as (m & e & Heq & He & Hm); [lia|].
    unfold Z_to_number, binary_normalize. rewrite Heq. unfold number_trunc.
    destruct e as [|q|q]; [rewrite Hm; simpl; lia | lia |].
    rewrite Hm. change (- Zneg q) with (Zpos q). apply Z.div_mul. lia.
  - destruct (binary_round_small true p) as (m & e & Heq & He & Hm); [simpl in Hz; lia|].
    unfold Z_to_number, binary_normalize. rewrite Heq. unfold number_trunc.
    destruct e as [|q|q]; [rewrite Hm; simpl; lia | lia |].
    rewrite Hm. change (- Zneg q) with (Zpos q). rewrite Z.div_mul by lia. reflexivity.
Qed.

Lemma napi_int32_roundtrip (v : Z) :
  is_int32 v → napi_get_value_int32 (napi_create_int32 v) = (napi_ok, Some v).
Proof.
  intros Hv. unfold napi_create_int32, napi_get_value_int32.
  rewrite number_trunc_Z_to_number by (unfold is_int32 in Hv; lia).
  by rewrite to_int32_id.
Qed.

Lemma napi_uint32_roundtrip (v : Z) :
  is_uint32 v → napi_get_value_uint32 (napi_create_uint32 v) = (napi_ok, Some v).
Proof.
  intros Hv. unfold napi_create_uint32, napi_get_value_uint32.
  rewrite number_trunc_Z_to_number by (unfold is_uint32 in Hv; lia).
  by rewrite to_uint32_id.
Qed.

Lemma IsNValueUndefined_true (value : napi_value) :
  IsNValueUndefined value = true ↔ value = JUndefined.
Proof. destruct value; cbn; split; (done || discriminate). Qed.

Lemma argv_cb_info (info : napi_callback_info) (argc i : nat) :
  (i < argc)%nat → argv (napi_get_cb_info info argc).2 i = host_arg info i.
Proof.
  intros Hi. unfold argv, host_arg, napi_get_cb_info. cbn [snd].
  rewrite lookup_take_lt by done.
  destruct (info !! i) as [v|] eqn:Hv.
  - by rewrite (lookup_app_l_Some _ _ _ _ Hv).
  - apply lookup_ge_None in Hv. rewrite lookup_app_r by done.
    rewrite lookup_replicate_2 by lia. done.
Qed.

(** ** Well-formed text is decoded to itself *)

Lemma utf8_second_of_two (b : byte) :
  byte_between 0xC2 0xDF b = true → utf8_second b = (0x80, 0xBF)%N.
Proof. by destruct b. Qed.

Lemma utf8_decode_valid_le (n : nat) (s : bytes) :
  (length s ≤ n)%nat → utf8_valid s = true → utf8_decode None s = s.
Proof.
  revert s. induction n as [|n IH]; intros s Hn Hv.
  { destruct s; [done|cbn in Hn; lia]. }
  destruct s as [|b0 s1]; [done|].
  cbn [utf8_valid] in Hv. cbn [utf8_decode utf8_step]. unfold utf8_start.
  destruct (byte_between 0x00 0x7F b0) eqn:H1.
  { cbn [app]. f_equal. apply IH; [cbn in Hn; lia|done]. }
  destruct s1 as [|b1 s2]; [done|].
  destruct (byte_between 0xC2 0xDF b0) eqn:H2.
  { apply andb_true_iff in Hv as [Hb1 Hv].
    cbn [utf8_decode utf8_step utf8_lower utf8_upper utf8_needed utf8_seen].
    rewrite (utf8_second_of_two b0 H2). cbn [fst snd]. rewrite Hb1. cbn [app]. do 2 f_equal.
    apply IH; [cbn in Hn; lia|done]. }
  destruct s2 as [|b2 s3]; [done|].
  destruct (byte_between 0xE0 0xEF b0) eqn:H3.
  { apply andb_true_iff in Hv as [Hv Hv3]. apply andb_true_iff in Hv as [Hb1 Hb2].
    cbn [utf8_decode utf8_step utf8_lower utf8_upper utf8_needed utf8_seen].
    rewrite Hb1. cbn [utf8_decode utf8_step utf8_lower utf8_upper utf8_needed utf8_seen app].
    rewrite Hb2. cbn [app]. do 3 f_equal.
    apply IH; [cbn in Hn; lia|done]. }
  destruct s3 as [|b3 s4]; [done|].
  apply andb_true_iff in Hv as [Hv Hv4]. apply andb_true_iff in Hv as [Hv Hb3].
  apply andb_true_iff in Hv as [Hv Hb2]. apply andb_true_iff in Hv as [H4 Hb1].
  rewrite H4.
  cbn [utf8_decode utf8_step utf8_lower utf8_upper utf8_needed utf8_seen].
  rewrite Hb1. cbn [utf8_decode utf8_step utf8_lower utf8_upper utf8_needed utf8_seen app].
  rewrite Hb2. cbn [utf8_decode utf8_step utf8_lower utf8_upper utf8_needed utf8_seen app].
  rewrite Hb3. cbn [app]. do 4 f_equal.
  apply IH; [cbn in Hn; lia|done].
Qed.

Lemma utf8_decode_valid (s : bytes) : utf8_valid s = true → utf8_decode None s = s.
Proof. apply (utf8_decode_valid_le (length s)). done. Qed.

Section BridgeProperties.
Context `{Eng : Engine} `{Str : StdString}.

(** ** Running the conversion layer *)

Lemma bind_run {A B} (m : M A) (f : A → M B) (w : World) :
  (m ≫= f) w = let '(a, w') := m w in f a w'.
Proof. reflexivity. Qed.

Lemma NAPI_CALL_RET_ok {A} (return_value : A) (rest : M A) :
  NAPI_CALL_RET napi_ok return_value rest = rest.
Proof. reflexivity. Qed.

Lemma BoolToNValue_run (value : bool) (w : World) :
  BoolToNValue value w = (JBoolean value, w).
Proof. by destruct value. Qed.

Lemma NValueToBool_run (b : bool) (w : World) : NValueToBool (JBoolean b) w = (b, w).
Proof. reflexivity. Qed.

Lemma NValueToInt32_run (d : number) (w : World) :
  NValueToInt32 (JNumber d) w = (to_int32 (number_trunc d), w).
Proof. reflexivity. Qed.

Lemma NValueToUInt32_run (d : number) (w : World) :
  NValueToUInt32 (JNumber d) w = (to_uint32 (number_trunc d), w).
Proof. reflexivity. Qed.

Lemma NValueToDouble_run (d : number) (w : World) :
  NValueToDouble (JNumber d) w = (double_of_number d, w).
Proof. reflexivity. Qed.

Lemma NValueToInt64_run (z : Z) (w : World) : NValueToInt64 (JBigInt z) w = (to_int64 z, w).
Proof. reflexivity. Qed.

Lemma NValueToUInt64_run (z : Z) (w : World) : NValueToUInt64 (JBigInt z) w = (to_uint64 z, w).
Proof. reflexivity. Qed.

(** *** Strings *)

Lemma utf8_fit_le (s : bytes) (room : nat) : (utf8_fit s room ≤ length s)%nat.
Proof.
  unfold utf8_fit. destruct (Nat.leb_spec (length s) room) as [|Hlt]; [done|].
  assert (Hb : ∀ n, (utf8_boundary s n ≤ n)%nat).
  { induction n as [|n IH]; [done|]. cbn [utf8_boundary].
    destruct (s !! S n); [|done]. destruct (is_utf8_continuation _); lia. }
  specialize (Hb room). lia.
Qed.

(** What [NValueToString] makes of a host string: the characters that fit
    in [capacity() - 1] bytes, the rest of the [size()] bytes being 0. *)
Lemma NValueToString_JString_take (s : bytes) (maybeUndefined : bool) (w : World) :
  NValueToString (JString s) maybeUndefined w =
  (let copied := utf8_fit s (string_capacity (length s) - 1) in
   if (string_capacity (length s) =? 0)%nat then []
   else take (length s) (take copied s ++ replicate (length s - copied) x00), w).
Proof.
  unfold NValueToString.
  replace (maybeUndefined && IsNValueUndefined (JString s)) with false
    by (by destruct maybeUndefined).
  cbn [napi_get_value_string_utf8 fmap option_fmap option_map snd written].
  rewrite bind_run. cbn [mret M_ret]. rewrite NAPI_CALL_RET_ok.
  unfold str_capacity, string_resized. cbn [str_buffer str_size].
  rewrite length_replicate, Nat.add_sub.
  pose proof (string_capacity_ge (length s)) as Hcap.
  destruct (Nat.eqb_spec (string_capacity (length s)) 0) as [H0|H0].
  - rewrite NAPI_CALL_RET_ok. unfold str_content. cbn [str_buffer str_size].
    assert (length s = 0%nat) as -> by lia. done.
  - rewrite NAPI_CALL_RET_ok. unfold str_content. cbn [str_buffer str_size mret M_ret].
    f_equal. unfold write_at_start.
    set (copied := utf8_fit s (string_capacity (length s) - 1)).
    assert (copied ≤ length s)%nat by apply utf8_fit_le.
    assert (copied ≤ string_capacity (length s) - 1)%nat.
    { unfold copied, utf8_fit. destruct (Nat.leb_spec (length s) (string_capacity (length s) - 1)); [done|].
      clear. induction (string_capacity (length s) - 1)%nat as [|n IH]; [done|].
      cbn [utf8_boundary]. destruct (s !! S n); [|done].
      destruct (is_utf8_continuation _); lia. }
    rewrite length_app, length_take, drop_replicate. cbn [length].
    rewrite Nat.min_l by done.
    rewrite <- (assoc_L (++)). rewrite !take_app.
    rewrite !length_take, Nat.min_l by done.
    f_equal. cbn [length].
    destruct (length s - copied)%nat as [|k] eqn:Hk; [done|].
    cbn [take]. rewrite take_nil. cbn [app replicate take]. f_equal.
    replace (S k - 1)%nat with k by lia.
    rewrite !take_replicate. f_equal. lia.
Qed.

Lemma NValueToString_JString (s : bytes) (maybeUndefined : bool) (w : World) :
  NValueToString (JString s) maybeUndefined w =
  (let copied := utf8_fit s (string_capacity (length s) - 1) in
   take copied s ++ replicate (length s - copied) x00, w).
Proof.
  rewrite NValueToString_JString_take. cbv zeta. f_equal.
  pose proof (utf8_fit_le s (string_capacity (length s) - 1)) as Hle.
  pose proof (string_capacity_ge (length s)) as Hcap.
  destruct (Nat.eqb_spec (string_capacity (length s)) 0) as [H0|H0].
  - assert (length s = 0%nat) as Hs by lia. destruct s; [|done].
    by rewrite take_nil.
  - apply take_ge. rewrite length_app, length_take, length_replicate. lia.
Qed.

(** The string read has the size of the host string, whatever fitted. *)
Lemma NValueToString_JString_length (s : bytes) (maybeUndefined : bool) (w : World) :
  length (NValueToString (JString s) maybeUndefined w).1 = length s.
Proof.
  rewrite NValueToString_JString. cbn [fst].
  pose proof (utf8_fit_le s (string_capacity (length s) - 1)).
  rewrite length_app, length_take, length_replicate. lia.
Qed.

(** With room for the terminator the host string is read whole. *)
Lemma NValueToString_JString_room (s : bytes) (maybeUndefined : bool) (w : World) :
  (length s < string_capacity (length s))%nat →
  NValueToString (JString s) maybeUndefined w = (s, w).
Proof.
  intros Hroom. rewrite NValueToString_JString. cbv zeta. f_equal.
  unfold utf8_fit. destruct (Nat.leb_spec (length s) (string_capacity (length s) - 1)); [|lia].
  by rewrite firstn_all, Nat.sub_diag, app_nil_r.
Qed.

(** Without it, the last character is lost and the string ends in 0. *)
Lemma NValueToString_JString_full (s : bytes) (maybeUndefined : bool) (w : World) :
  string_capacity (length s) = length s → s ≠ [] →
  NValueToString (JString s) maybeUndefined w =
  (let copied := utf8_boundary s (length s - 1) in
   take copied s ++ replicate (length s - copied) x00, w).
Proof.
  intros Hfull Hs. rewrite NValueToString_JString. cbv zeta. rewrite Hfull.
  unfold utf8_fit. destruct (Nat.leb_spec (length s) (length s - 1)); [|done].
  destruct s; [done|]. cbn [length] in *. lia.
Qed.

Lemma NValueToString_undefined (w : World) : NValueToString JUndefined true w = ([], w).
Proof. reflexivity. Qed.

(** ** Running the exported functions *)

Lemma argv_take (info : napi_callback_info) (argc i : nat) :
  (i < argc)%nat → argv (take argc (info ++ replicate argc JUndefined)) i = host_arg info i.
Proof. intros Hi. by rewrite <- (argv_cb_info info argc i Hi). Qed.

Lemma guard_true (kv : Z) (key : bytes) :
  kv ≠ 0 → key ≠ [] → negb (kv =? 0) && (0 <? length key)%nat = true.
Proof.
  intros Hkv Hkey. destruct (Z.eqb_spec kv 0); [done|].
  destruct key; [done|]. reflexivity.
Qed.

Lemma guard_false (kv : Z) (key : bytes) :
  kv = 0 ∨ key = [] → negb (kv =? 0) && (0 <? length key)%nat = false.
Proof. intros [->| ->]; [done|]. apply andb_false_r. Qed.

(** Reading a buffer looks at the ArrayBuffers only. *)
Lemma MMBuffer_bytes_ext (w w' : World) (b : MMBuffer) :
  arraybuffers w = arraybuffers w' → MMBuffer_bytes w b = MMBuffer_bytes w' b.
Proof. intros Hh. unfold MMBuffer_bytes, read. by rewrite Hh. Qed.

Lemma uninit_arraybuffers (w : World) : arraybuffers (uninit w).2 = arraybuffers w.
Proof. reflexivity. Qed.

Lemma NValueToUInt32_arraybuffers (value : napi_value) (w : World) :
  arraybuffers (NValueToUInt32 value w).2 = arraybuffers w.
Proof. unfold NValueToUInt32. by destruct (napi_get_value_uint32 value) as [? [?|]]. Qed.

Ltac step_with H := rewrite bind_run, H; cbv beta iota.

Ltac enter info :=
  unfold napi_get_cb_info, NAPI_CALL; cbv beta iota zeta;
  rewrite NAPI_CALL_RET_ok, ?argv_take by lia.

Ltac split_convert Hv x w' Hx :=
  unfold convert_value in Hv; rewrite bind_run in Hv;
  match type of Hv with
  | (let '(_, _) := ?c in _) = _ => destruct c as [x w'] eqn:Hx
  end;
  cbv beta iota in Hv.

Lemma encode_run (t : value_type) (info : napi_callback_info) (w w1 w2 w3 : World)
    (handle : Z) (key : bytes) (value : MMKV_value) :
  NValueToUInt64 (host_arg info 0) w = (handle, w1) →
  NValueToString (host_arg info 1) false w1 = (key, w2) →
  handle ≠ 0 → key ≠ [] →
  convert_value t (host_arg info 2) w2 = (value, w3) →
  encode_function t info w =
    if IsNValueUndefined (host_arg info 3) then
      (ret ← MMKV_do (kv_set handle value key None); BoolToNValue ret) w3
    else
      (expiration ← NValueToUInt32 (host_arg info 3);
       ret ← MMKV_do (kv_set handle value key (Some expiration));
       BoolToNValue ret) w3.
Proof.
  intros Hh Hk Hkv Hkey Hv.
  destruct t; cbn [encode_function];
    [unfold encodeBool|unfold encodeInt32|unfold encodeUInt32|unfold encodeInt64
    |unfold encodeUInt64|unfold encodeDouble|unfold encodeString|unfold encodeBytes];
    enter info; step_with Hh; step_with Hk; rewrite guard_true by done;
    split_convert Hv x w' Hx.
  1-7: injection Hv as <- <-; rewrite bind_run, Hx; cbv beta iota;
    by destruct (IsNValueUndefined (host_arg info 3)).
  rewrite bind_run, Hx; cbv beta iota.
  rewrite bind_run in Hv. unfold read_MMBuffer in Hv at 1. cbv beta iota in Hv.
  injection Hv as <- <-.
  destruct (IsNValueUndefined (host_arg info 3)); [reflexivity|].
  rewrite !bind_run.
  pose proof (NValueToUInt32_arraybuffers (host_arg info 3) w') as Hab.
  destruct (NValueToUInt32 (host_arg info 3) w') as [e w4].
  cbn [snd] in Hab. rewrite bind_run. unfold read_MMBuffer at 1. cbv beta iota.
  by rewrite (MMBuffer_bytes_ext w4 w' x Hab).
Qed.

(** ** What leaves the engine alone *)

Lemma untouched_ret {A} (a : A) : engine_untouched (mret a : M A).
Proof. by intros w. Qed.

Lemma untouched_bind {A B} (m : M A) (f : A → M B) :
  engine_untouched m → (∀ a, engine_untouched (f a)) → engine_untouched (m ≫= f).
Proof.
  intros Hm Hf w. rewrite bind_run. specialize (Hm w).
  destruct (m w) as [a w']. cbn [snd] in Hm. destruct Hm as [E1 E2].
  destruct (Hf a w') as [H1 H2]. split; congruence.
Qed.

Lemma untouched_uninit : engine_untouched uninit.
Proof. by intros w. Qed.

Lemma untouched_throw (msg : string) : engine_untouched (napi_throw_error msg).
Proof. by intros w. Qed.

Lemma untouched_pending : engine_untouched napi_is_exception_pending.
Proof. by intros w. Qed.

Lemma untouched_set_arraybuffers (h : list bytes) : engine_untouched (set_arraybuffers h).
Proof. by intros w. Qed.

Lemma untouched_written {T} (out : option T) (garbage : M T) :
  engine_untouched garbage → engine_untouched (written out garbage).
Proof. intros Hg. destruct out; [apply untouched_ret | exact Hg]. Qed.

Lemma untouched_NAPI_CALL_RET {A} (status : napi_status) (return_value : A) (rest : M A) :
  engine_untouched rest → engine_untouched (NAPI_CALL_RET status return_value rest).
Proof.
  intros Hr. unfold NAPI_CALL_RET. case_bool_decide; [|done].
  apply untouched_bind; [apply untouched_pending|]. intros [|]; cbn [negb]; [done|].
  apply untouched_bind; [apply untouched_throw|]. intros _. apply untouched_ret.
Qed.

Create HintDb untouched.
#[local] Hint Resolve untouched_ret untouched_uninit untouched_throw untouched_pending
  untouched_set_arraybuffers : untouched.
#[local] Hint Extern 2 (engine_untouched (_ ≫= _)) =>
  apply untouched_bind; [|intros ?] : untouched.
#[local] Hint Extern 2 (engine_untouched (written _ _)) => apply untouched_written : untouched.
#[local] Hint Extern 2 (engine_untouched (NAPI_CALL_RET _ _ _)) =>
  apply untouched_NAPI_CALL_RET : untouched.

Ltac untouched := eauto 20 with untouched.

Lemma untouched_uninit_bool : engine_untouched uninit_bool.
Proof. unfold uninit_bool. untouched. Qed.
Lemma untouched_uninit_int32 : engine_untouched uninit_int32.
Proof. unfold uninit_int32. untouched. Qed.
Lemma untouched_uninit_uint32 : engine_untouched uninit_uint32.
Proof. unfold uninit_uint32. untouched. Qed.
Lemma untouched_uninit_int64 : engine_untouched uninit_int64.
Proof. unfold uninit_int64. untouched. Qed.
Lemma untouched_uninit_uint64 : engine_untouched uninit_uint64.
Proof. unfold uninit_uint64. untouched. Qed.
Lemma untouched_uninit_double : engine_untouched uninit_double.
Proof. unfold uninit_double. untouched. Qed.
Lemma untouched_uninit_size_t : engine_untouched uninit_size_t.
Proof. unfold uninit_size_t. untouched. Qed.
Lemma untouched_uninit_napi_value : engine_untouched uninit_napi_value.
Proof. unfold uninit_napi_value. untouched. Qed.

#[local] Hint Resolve untouched_uninit_bool untouched_uninit_int32 untouched_uninit_uint32
  untouched_uninit_int64 untouched_uninit_uint64 untouched_uninit_double
  untouched_uninit_size_t untouched_uninit_napi_value : untouched.

Lemma untouched_BoolToNValue (value : bool) : engine_untouched (BoolToNValue value).
Proof. unfold BoolToNValue. destruct (napi_coerce_to_bool _). untouched. Qed.

Lemma untouched_NValueToBool (value : napi_value) : engine_untouched (NValueToBool value).
Proof. unfold NValueToBool. destruct (napi_get_value_bool _). untouched. Qed.

Lemma untouched_NValueToInt32 (value : napi_value) : engine_untouched (NValueToInt32 value).
Proof. unfold NValueToInt32. destruct (napi_get_value_int32 _). untouched. Qed.

Lemma untouched_NValueToUInt32 (value : napi_value) : engine_untouched (NValueToUInt32 value).
Proof. unfold NValueToUInt32. destruct (napi_get_value_uint32 _). untouched. Qed.

Lemma untouched_NValueToDouble (value : napi_value) : engine_untouched (NValueToDouble value).
Proof. unfold NValueToDouble. destruct (napi_get_value_double _). untouched. Qed.

Lemma untouched_NValueToInt64 (value : napi_value) : engine_untouched (NValueToInt64 value).
Proof. unfold NValueToInt64. destruct (napi_get_value_bigint_int64 _). untouched. Qed.

Lemma untouched_NValueToUInt64 (value : napi_value) : engine_untouched (NValueToUInt64 value).
Proof. unfold NValueToUInt64. destruct (napi_get_value_bigint_uint64 _). untouched. Qed.

Lemma untouched_NValueToString (value : napi_value) (maybeUndefined : bool) :
  engine_untouched (NValueToString value maybeUndefined).
Proof.
  unfold NValueToString. destruct (maybeUndefined && IsNValueUndefined value); [untouched|].
  destruct (napi_get_value_string_utf8 value None 0) as [status out].
  apply untouched_bind; [untouched|]. intros size.
  apply untouched_NAPI_CALL_RET.
  destruct (napi_get_value_string_utf8 _ _ _) as [status' out'].
  untouched.
Qed.

Lemma untouched_StringToNValue (value : bytes) : engine_untouched (StringToNValue value).
Proof. unfold StringToNValue. untouched. Qed.

Lemma untouched_NValueToMMBuffer (value : napi_value) (maybeUndefined : bool) :
  engine_untouched (NValueToMMBuffer value maybeUndefined).
Proof.
  unfold NValueToMMBuffer. destruct (maybeUndefined && IsNValueUndefined value); [untouched|].
  apply untouched_bind; [by intros w|]. intros [status out].
  destruct (default (NULL, 0%nat) out). case_bool_decide; untouched.
Qed.

Lemma untouched_memcpy (dest src : pointer) (n : nat) : engine_untouched (memcpy dest src n).
Proof. intros w. by destruct dest. Qed.

Lemma untouched_MMBufferToNValue (value : MMBuffer) : engine_untouched (MMBufferToNValue value).
Proof.
  unfold MMBufferToNValue. apply untouched_bind; [by intros w|]. intros [status out].
  destruct (default (NULL, nullptr) out). apply untouched_bind; [|untouched].
  case_bool_decide; [apply untouched_memcpy | untouched].
Qed.

Lemma untouched_read_MMBuffer (b : MMBuffer) : engine_untouched (read_MMBuffer b).
Proof. by intros w. Qed.

#[local] Hint Resolve untouched_BoolToNValue untouched_NValueToBool untouched_NValueToInt32
  untouched_NValueToUInt32 untouched_NValueToDouble untouched_NValueToInt64
  untouched_NValueToUInt64 untouched_NValueToString untouched_StringToNValue
  untouched_NValueToMMBuffer untouched_MMBufferToNValue untouched_read_MMBuffer : untouched.

Lemma untouched_convert_value (t : value_type) (value : napi_value) :
  engine_untouched (convert_value t value).
Proof. destruct t; unfold convert_value; untouched. Qed.

Lemma convert_value_type (t : value_type) (value : napi_value) (w : World) :
  type_of_value (convert_value t value w).1 = t.
Proof.
  destruct t; unfold convert_value; rewrite bind_run;
    match goal with |- context [let '(_, _) := ?c in _] => destruct c end; reflexivity.
Qed.

(** If [m] run in [w] ends in [w'], the engine is in [w'] as it was in [w]. *)
Lemma untouched_run {A} (m : M A) (w w' : World) (a : A) :
  engine_untouched m → m w = (a, w') → mmkv w' = mmkv w ∧ mmkv_calls w' = mmkv_calls w.
Proof. intros Hm Hrun. specialize (Hm w). by rewrite Hrun in Hm. Qed.

(** One call of the engine. *)
Lemma MMKV_do_run {R} (c : MMKV_call R) (w : World) :
  MMKV_do c w = ((MMKV_perform c (mmkv w)).1, after_call c w).
Proof. unfold after_call, MMKV_do. by destruct (MMKV_perform c (mmkv w)). Qed.

Lemma after_call_mmkv {R} (c : MMKV_call R) (w : World) :
  mmkv (after_call c w) = (MMKV_perform c (mmkv w)).2.
Proof. unfold after_call, MMKV_do. by destruct (MMKV_perform c (mmkv w)). Qed.

Lemma after_call_calls {R} (c : MMKV_call R) (w : World) :
  mmkv_calls (after_call c w) = mmkv_calls w ++ [log_entry c].
Proof. unfold after_call, MMKV_do. by destruct (MMKV_perform c (mmkv w)). Qed.

Lemma encode_run_refused (t : value_type) (info : napi_callback_info) (w w1 w2 : World)
    (handle : Z) (key : bytes) :
  NValueToUInt64 (host_arg info 0) w = (handle, w1) →
  NValueToString (host_arg info 1) false w1 = (key, w2) →
  handle = 0 ∨ key = [] →
  encode_function t info w = BoolToNValue false w2.
Proof.
  intros Hh Hk Hg.
  destruct t; cbn [encode_function];
    [unfold encodeBool|unfold encodeInt32|unfold encodeUInt32|unfold encodeInt64
    |unfold encodeUInt64|unfold encodeDouble|unfold encodeString|unfold encodeBytes];
    enter info; step_with Hh; step_with Hk; by rewrite guard_false.
Qed.

Lemma decode_scalar_run (t : scalar_type) (info : napi_callback_info) (w w1 w2 w3 : World)
    (handle : Z) (key : bytes) (defaultValue : native_type (marshalling_of t)) :
  NValueToUInt64 (host_arg info 0) w = (handle, w1) →
  NValueToString (host_arg info 1) false w1 = (key, w2) →
  from_host (marshalling_of t) (host_arg info 2) w2 = (defaultValue, w3) →
  decode_function (value_type_of t) info w =
    if negb (handle =? 0) && (0 <? length key)%nat then
      (ret ← MMKV_do (get (marshalling_of t) handle key defaultValue);
       to_host (marshalling_of t) ret) w3
    else to_host (marshalling_of t) defaultValue w3.
Proof.
  intros Hh Hk Hd.
  destruct t; cbn [decode_function value_type_of marshalling_of from_host to_host get native_type] in *;
    [unfold decodeBool|unfold decodeInt32|unfold decodeUInt32|unfold decodeInt64
    |unfold decodeUInt64|unfold decodeDouble];
    enter info; step_with Hh; step_with Hk; step_with Hd;
    by destruct (negb (handle =? 0) && (0 <? length key)%nat).
Qed.

Lemma decodeString_run (info : napi_callback_info) (w w1 w2 : World) (handle : Z) (key : bytes) :
  NValueToUInt64 (host_arg info 0) w = (handle, w1) →
  NValueToString (host_arg info 1) false w1 = (key, w2) →
  decodeString info w =
    if negb (handle =? 0) && (0 <? length key)%nat then
      ('(found, result) ← MMKV_do (kv_getString handle key);
       if (found : bool) then StringToNValue result else mret (host_arg info 2)) w2
    else (host_arg info 2, w2).
Proof.
  intros Hh Hk. unfold decodeString. enter info. step_with Hh. step_with Hk.
  by destruct (negb (handle =? 0) && (0 <? length key)%nat).
Qed.

Lemma decodeBytes_run (info : napi_callback_info) (w w1 w2 : World) (handle : Z) (key : bytes) :
  NValueToUInt64 (host_arg info 0) w = (handle, w1) →
  NValueToString (host_arg info 1) false w1 = (key, w2) →
  decodeBytes info w =
    if negb (handle =? 0) && (0 <? length key)%nat then
      ('(found, result) ← MMKV_do (kv_getBytes handle key);
       if (found : bool) then MMBufferToNValue result else mret (host_arg info 2)) w2
    else (host_arg info 2, w2).
Proof.
  intros Hh Hk. unfold decodeBytes. enter info. step_with Hh. step_with Hk.
  by destruct (negb (handle =? 0) && (0 <? length key)%nat).
Qed.

Lemma untouched_to_host (t : scalar_type) (v : native_type (marshalling_of t)) :
  engine_untouched (to_host (marshalling_of t) v).
Proof. destruct t; cbn; untouched. Qed.

Lemma untouched_from_host (t : scalar_type) (value : napi_value) :
  engine_untouched (from_host (marshalling_of t) value).
Proof. destruct t; cbn; untouched. Qed.

(** The conversions of the handle and of the key leave the engine alone. *)
Lemma prefix_untouched (info : napi_callback_info) (w w1 w2 : World) (handle : Z) (key : bytes) :
  NValueToUInt64 (host_arg info 0) w = (handle, w1) →
  NValueToString (host_arg info 1) false w1 = (key, w2) →
  mmkv w2 = mmkv w ∧ mmkv_calls w2 = mmkv_calls w.
Proof.
  intros Hh Hk.
  destruct (untouched_run _ _ _ _ (untouched_NValueToUInt64 _) Hh) as [E1 E2].
  destruct (untouched_run _ _ _ _ (untouched_NValueToString _ _) Hk) as [E3 E4].
  split; congruence.
Qed.

(** The native-to-host conversions of scalars do not look at the state. *)
Lemma to_host_pure (t : scalar_type) (v : native_type (marshalling_of t)) (w w' : World) :
  (to_host (marshalling_of t) v w).1 = (to_host (marshalling_of t) v w').1.
Proof. destruct t; cbn [marshalling_of to_host]; rewrite ?BoolToNValue_run; reflexivity. Qed.

(** A scalar in range survives the way to the host and back. *)
Lemma scalar_roundtrip (t : scalar_type) (v : native_type (marshalling_of t)) (w : World) :
  in_range t v →
  (to_host (marshalling_of t) v ≫= from_host (marshalling_of t)) w = (v, w).
Proof.
  destruct t; cbn [marshalling_of to_host from_host in_range native_type] in *; intros Hv;
    rewrite bind_run.
  - by rewrite BoolToNValue_run.
  - unfold Int32ToNValue, NValueToInt32. cbn [mret M_ret].
    by rewrite napi_int32_roundtrip.
  - unfold UInt32ToNValue, NValueToUInt32. cbn [mret M_ret].
    by rewrite napi_uint32_roundtrip.
  - unfold Int64ToNValue. cbn [mret M_ret]. unfold napi_create_bigint_int64.
    by rewrite NValueToInt64_run, to_int64_id.
  - unfold UInt64ToNValue. cbn [mret M_ret]. unfold napi_create_bigint_uint64.
    by rewrite NValueToUInt64_run, to_uint64_id.
  - unfold DoubleToNValue. cbn [mret M_ret]. unfold napi_create_double.
    rewrite NValueToDouble_run. f_equal.
    destruct v as [s|s|s p|s m e]; try reflexivity. symmetry. by apply Hv.
Qed.

(** C1. An encode or decode function called with a non-null handle and a
    non-empty key acts on the engine through exactly one call: the log
    grows by one set (for encode) or one get (for decode) of the
    function's type on that handle and key, and the state of the engine
    afterwards is the one this call took it to. *)
Theorem bridge_single_engine_operation
    (t : value_type) (info : napi_callback_info) (w w1 w2 : World) (handle : Z) (key : bytes) :
  NValueToUInt64 (host_arg info 0) w = (handle, w1) →
  NValueToString (host_arg info 1) false w1 = (key, w2) →
  handle ≠ 0 → key ≠ [] →
  (∃ c, is_set_of t handle key c ∧
        mmkv_calls (encode_function t info w).2 = mmkv_calls w ++ [c] ∧
        mmkv (encode_function t info w).2 = store_after c (mmkv w)) ∧
  (∃ c, is_get_of t handle key c ∧
        mmkv_calls (decode_function t info w).2 = mmkv_calls w ++ [c] ∧
        mmkv (decode_function t info w).2 = store_after c (mmkv w)).
Proof.
  intros Hh Hk Hkv Hkey.
  destruct (prefix_untouched _ _ _ _ _ _ Hh Hk) as [Es Ec].
  split.
  - destruct (convert_value t (host_arg info 2) w2) as [value w3] eqn:Hv.
    destruct (untouched_run _ _ _ _ (untouched_convert_value _ _) Hv) as [Es3 Ec3].
    pose proof (convert_value_type t (host_arg info 2) w2) as Ht. rewrite Hv in Ht.
    rewrite (encode_run t info w w1 w2 w3 handle key value Hh Hk Hkv Hkey Hv).
    destruct (IsNValueUndefined (host_arg info 3)).
    + exists (log_entry (kv_set handle value key None)).
      rewrite bind_run, MMKV_do_run, BoolToNValue_run. cbn [snd].
      rewrite after_call_calls, after_call_mmkv, Es3, Ec3, Es, Ec. done.
    + rewrite bind_run.
      destruct (NValueToUInt32 (host_arg info 3) w3) as [e w4] eqn:He.
      destruct (untouched_run _ _ _ _ (untouched_NValueToUInt32 _) He) as [Es4 Ec4].
      exists (log_entry (kv_set handle value key (Some e))).
      rewrite bind_run, MMKV_do_run, BoolToNValue_run. cbn [snd].
      rewrite after_call_calls, after_call_mmkv, Es4, Ec4, Es3, Ec3, Es, Ec. done.
  - assert (Hscalar : ∀ s : scalar_type, ∃ c, is_get_of (value_type_of s) handle key c ∧
        mmkv_calls (decode_function (value_type_of s) info w).2 = mmkv_calls w ++ [c] ∧
        mmkv (decode_function (value_type_of s) info w).2 = store_after c (mmkv w)).
    { intros s.
      destruct (from_host (marshalling_of s) (host_arg info 2) w2) as [d w3] eqn:Hd.
      destruct (untouched_run _ _ _ _ (untouched_from_host _ _) Hd) as [Es3 Ec3].
      rewrite (decode_scalar_run s info w w1 w2 w3 handle key d Hh Hk Hd).
      rewrite guard_true by done. rewrite bind_run, MMKV_do_run.
      exists (log_entry (get (marshalling_of s) handle key d)).
      destruct (untouched_to_host s (MMKV_perform (get (marshalling_of s) handle key d) (mmkv w3)).1
                  (after_call (get (marshalling_of s) handle key d) w3)) as [-> ->].
      rewrite after_call_calls, after_call_mmkv, Es3, Ec3, Es, Ec.
      by destruct s. }
    destruct t;
      [apply (Hscalar SBool)|apply (Hscalar SInt32)|apply (Hscalar SUInt32)
      |apply (Hscalar SInt64)|apply (Hscalar SUInt64)|apply (Hscalar SDouble)| |];
      cbn [decode_function].
    + rewrite (decodeString_run info w w1 w2 handle key Hh Hk), guard_true by done.
      rewrite bind_run, MMKV_do_run.
      exists (log_entry (kv_getString handle key)).
      destruct (MMKV_perform (kv_getString handle key) (mmkv w2)).1 as [[|] result];
        cbn [snd mret M_ret StringToNValue];
        rewrite after_call_calls, after_call_mmkv, Es, Ec; done.
    + rewrite (decodeBytes_run info w w1 w2 handle key Hh Hk), guard_true by done.
      rewrite bind_run, MMKV_do_run.
      exists (log_entry (kv_getBytes handle key)).
      destruct (MMKV_perform (kv_getBytes handle key) (mmkv w2)).1 as [[|] result].
      * destruct (untouched_MMBufferToNValue result (after_call (kv_getBytes handle key) w2))
          as [-> ->].
        rewrite after_call_calls, after_call_mmkv, Es, Ec. done.
      * cbn [snd mret M_ret]. rewrite after_call_calls, after_call_mmkv, Es, Ec. done.
Qed.

(** The conversions of scalars against the two forms. *)
Lemma to_host_run (t : scalar_type) (v : native_type (marshalling_of t)) (w : World) :
  to_host (marshalling_of t) v w = (host_form t v, w).
Proof. destruct t; cbn [marshalling_of to_host host_form]; rewrite ?BoolToNValue_run; reflexivity. Qed.

Lemma from_host_run (t : scalar_type) (value : napi_value) (v : native_type (marshalling_of t))
    (w : World) :
  native_form t value = Some v → from_host (marshalling_of t) value w = (v, w).
Proof.
  destruct t; cbn [marshalling_of from_host native_form native_type]; destruct value;
    intros [= <-]; reflexivity.
Qed.

(** C6. Under the same precondition an encode function returns the host
    boolean that is the result of the engine's set, and a decode function
    of a scalar type returns the host form of what the engine's get
    returned for that key and the default it was called with; this
    default is the native form of the third argument whenever the third
    argument is of the host type the function expects. *)
Theorem bridge_returns_engine_answer
    (info : napi_callback_info) (w w1 w2 : World) (handle : Z) (key : bytes) :
  NValueToUInt64 (host_arg info 0) w = (handle, w1) →
  NValueToString (host_arg info 1) false w1 = (key, w2) →
  handle ≠ 0 → key ≠ [] →
  (∀ t : value_type, ∃ value expiration,
      let c := kv_set handle value key expiration in
      mmkv_calls (encode_function t info w).2 = mmkv_calls w ++ [log_entry c] ∧
      (encode_function t info w).1 = JBoolean (MMKV_perform c (mmkv w)).1) ∧
  (∀ t : scalar_type, ∃ defaultValue,
      let c := get (marshalling_of t) handle key defaultValue in
      mmkv_calls (decode_function (value_type_of t) info w).2 = mmkv_calls w ++ [log_entry c] ∧
      (decode_function (value_type_of t) info w).1 = host_form t (MMKV_perform c (mmkv w)).1 ∧
      (∀ d, native_form t (host_arg info 2) = Some d → defaultValue = d)).
Proof.
  intros Hh Hk Hkv Hkey.
  destruct (prefix_untouched _ _ _ _ _ _ Hh Hk) as [Es Ec].
  split.
  - intros t.
    destruct (convert_value t (host_arg info 2) w2) as [value w3] eqn:Hv.
    destruct (untouched_run _ _ _ _ (untouched_convert_value _ _) Hv) as [Es3 Ec3].
    rewrite (encode_run t info w w1 w2 w3 handle key value Hh Hk Hkv Hkey Hv).
    destruct (IsNValueUndefined (host_arg info 3)).
    + exists value, None. cbv zeta.
      rewrite bind_run, MMKV_do_run, BoolToNValue_run. cbn [fst snd].
      by rewrite after_call_calls, Es3, Ec3, Es, Ec.
    + rewrite bind_run.
      destruct (NValueToUInt32 (host_arg info 3) w3) as [e w4] eqn:He.
      destruct (untouched_run _ _ _ _ (untouched_NValueToUInt32 _) He) as [Es4 Ec4].
      exists value, (Some e). cbv zeta.
      rewrite bind_run, MMKV_do_run, BoolToNValue_run. cbn [fst snd].
      by rewrite after_call_calls, Es4, Ec4, Es3, Ec3, Es, Ec.
  - intros t.
    destruct (from_host (marshalling_of t) (host_arg info 2) w2) as [d w3] eqn:Hd.
    exists d. cbv zeta.
    destruct (untouched_run _ _ _ _ (untouched_from_host _ _) Hd) as [Es3 Ec3].
    rewrite (decode_scalar_run t info w w1 w2 w3 handle key d Hh Hk Hd).
    rewrite guard_true by done. rewrite bind_run, MMKV_do_run, to_host_run. cbn [fst snd].
    rewrite after_call_calls, Es3, Ec3, Es, Ec. split; [done|]. split; [done|].
    intros d' Hform. rewrite (from_host_run t _ d' w2 Hform) in Hd. by injection Hd.
Qed.

(** X23. The expiration an encode function passes on, under the same
    precondition.  The set operation has no expiration exactly when the
    fourth argument is [undefined] (or absent).  A fourth argument that
    is a number gives the integral part of the number cut to its low 32
    bits, so the number itself when it is an integer of [uint32_t].  For
    a fourth argument of any other type the expiration is what the
    uninitialised local of [NValueToUInt32] held. *)
Theorem encode_expiration
    (t : value_type) (info : napi_callback_info) (w w1 w2 w3 : World)
    (handle : Z) (key : bytes) (value : MMKV_value) :
  NValueToUInt64 (host_arg info 0) w = (handle, w1) →
  NValueToString (host_arg info 1) false w1 = (key, w2) →
  handle ≠ 0 → key ≠ [] →
  convert_value t (host_arg info 2) w2 = (value, w3) →
  ∃ expiration,
    mmkv_calls (encode_function t info w).2 =
      mmkv_calls w ++ [log_entry (kv_set handle value key expiration)] ∧
    (expiration = None ↔ host_arg info 3 = JUndefined) ∧
    (∀ x, host_arg info 3 = JNumber x → expiration = Some (to_uint32 (number_trunc x))) ∧
    (∀ n, is_uint32 n → host_arg info 3 = JNumber (Z_to_number n) → expiration = Some n) ∧
    (host_arg info 3 ≠ JUndefined → (∀ x, host_arg info 3 ≠ JNumber x) →
     expiration = Some (to_uint32 (stack_junk w3 0))).
Proof.
  intros Hh Hk Hkv Hkey Hv.
  destruct (prefix_untouched _ _ _ _ _ _ Hh Hk) as [Es Ec].
  destruct (untouched_run _ _ _ _ (untouched_convert_value _ _) Hv) as [Es3 Ec3].
  rewrite (encode_run t info w w1 w2 w3 handle key value Hh Hk Hkv Hkey Hv).
  destruct (IsNValueUndefined (host_arg info 3)) eqn:Hu.
  - apply IsNValueUndefined_true in Hu. exists None.
    rewrite bind_run, MMKV_do_run, BoolToNValue_run. cbn [snd].
    rewrite after_call_calls, Ec3, Ec. split; [done|]. split; [done|].
    rewrite Hu. split_and!; (discriminate || done).
  - assert (host_arg info 3 ≠ JUndefined) as Hne.
    { intros Heq. apply IsNValueUndefined_true in Heq. congruence. }
    rewrite bind_run.
    destruct (NValueToUInt32 (host_arg info 3) w3) as [e w4] eqn:He.
    destruct (untouched_run _ _ _ _ (untouched_NValueToUInt32 _) He) as [Es4 Ec4].
    exists (Some e).
    rewrite bind_run, MMKV_do_run, BoolToNValue_run. cbn [fst snd].
    rewrite after_call_calls, Ec4, Ec3, Ec. split; [done|]. split; [done|].
    assert (Hnum : ∀ x, host_arg info 3 = JNumber x → Some e = Some (to_uint32 (number_trunc x))).
    { intros x Hx. rewrite Hx, NValueToUInt32_run in He. by injection He as <- _. }
    split; [exact Hnum|]. split.
    + intros n Hn Hx. rewrite (Hnum _ Hx).
      rewrite number_trunc_Z_to_number by (unfold is_uint32 in Hn; lia).
      by rewrite to_uint32_id.
    + intros _ Hother. destruct (host_arg info 3) as [| | | | |x| | | |];
        try (by destruct (Hother x)); by injection He as <- _.
Qed.

(** C8, as the code has it.  With a null handle or an empty key the
    engine is not called.  An encode function returns the host boolean
    false.  A decode function of a scalar type returns the translation of
    its converted default, which is the third argument itself when that
    argument is the host form of a native value in range; [decodeString]
    and [decodeBytes] return their third argument as it is. *)
Theorem bridge_refuses_null_handle_and_empty_key
    (info : napi_callback_info) (w w1 w2 : World) (handle : Z) (key : bytes) :
  NValueToUInt64 (host_arg info 0) w = (handle, w1) →
  NValueToString (host_arg info 1) false w1 = (key, w2) →
  handle = 0 ∨ key = [] →
  (∀ t : value_type,
      (encode_function t info w).1 = JBoolean false ∧
      mmkv_calls (encode_function t info w).2 = mmkv_calls w ∧
      mmkv (encode_function t info w).2 = mmkv w) ∧
  (∀ (t : scalar_type) (defaultValue : native_type (marshalling_of t)) (w3 : World),
      from_host (marshalling_of t) (host_arg info 2) w2 = (defaultValue, w3) →
      (∀ w', (decode_function (value_type_of t) info w).1 =
             (to_host (marshalling_of t) defaultValue w').1) ∧
      mmkv_calls (decode_function (value_type_of t) info w).2 = mmkv_calls w ∧
      mmkv (decode_function (value_type_of t) info w).2 = mmkv w) ∧
  (∀ (t : scalar_type) (v : native_type (marshalling_of t)) (w' : World),
      in_range t v → host_arg info 2 = (to_host (marshalling_of t) v w').1 →
      (decode_function (value_type_of t) info w).1 = host_arg info 2) ∧
  (∀ t : value_type, t = TString ∨ t = TBytes →
      (decode_function t info w).1 = host_arg info 2 ∧
      mmkv_calls (decode_function t info w).2 = mmkv_calls w ∧
      mmkv (decode_function t info w).2 = mmkv w).
Proof.
  intros Hh Hk Hg.
  destruct (prefix_untouched _ _ _ _ _ _ Hh Hk) as [Es Ec].
  assert (Hdec : ∀ (t : scalar_type) (d : native_type (marshalling_of t)) (w3 : World),
      from_host (marshalling_of t) (host_arg info 2) w2 = (d, w3) →
      (∀ w', (decode_function (value_type_of t) info w).1 = (to_host (marshalling_of t) d w').1) ∧
      mmkv_calls (decode_function (value_type_of t) info w).2 = mmkv_calls w ∧
      mmkv (decode_function (value_type_of t) info w).2 = mmkv w).
  { intros t d w3 Hd.
    destruct (untouched_run _ _ _ _ (untouched_from_host _ _) Hd) as [Es3 Ec3].
    rewrite (decode_scalar_run t info w w1 w2 w3 handle key d Hh Hk Hd).
    rewrite guard_false by done.
    destruct (untouched_to_host t d w3) as [-> ->].
    split; [intros w'; apply to_host_pure|]. split; congruence. }
  split; [|split; [exact Hdec|split]].
  - intros t. rewrite (encode_run_refused t info w w1 w2 handle key Hh Hk Hg).
    rewrite BoolToNValue_run. done.
  - intros t v w' Hv Harg.
    destruct (from_host (marshalling_of t) (host_arg info 2) w2) as [d w3] eqn:Hd.
    destruct (Hdec t d w3 Hd) as [Hr _]. rewrite (Hr w2).
    pose proof (scalar_roundtrip t v w2 Hv) as Hrt. rewrite bind_run in Hrt.
    destruct (to_host (marshalling_of t) v w2) as [nv w2'] eqn:Hto.
    assert (nv = host_arg info 2) as ->.
    { rewrite Harg. rewrite (to_host_pure t v w' w2), Hto. done. }
    assert (w2' = w2) as ->.
    { clear -Hto. destruct t; cbn [marshalling_of to_host] in Hto;
        rewrite ?BoolToNValue_run in Hto; by injection Hto. }
    rewrite Hd in Hrt. injection Hrt as -> _. by rewrite Hto.
  - intros t [-> | ->]; cbn [decode_function].
    + rewrite (decodeString_run info w w1 w2 handle key Hh Hk), guard_false by done. done.
    + rewrite (decodeBytes_run info w w1 w2 handle key Hh Hk), guard_false by done. done.
Qed.

(** C2, as the code has it.  A native scalar converted to a host value
    and back is unchanged: a boolean, an integer in the range of int32,
    uint32, int64 or uint64, and a double that is not a NaN.  A NaN comes
    back as the NaN of the host, positive and quiet, whatever its sign
    and payload were. *)
Theorem scalar_conversions_roundtrip
    (w : World) (b : bool) (i32 u32 i64 u64 : Z) (d : double) :
  is_int32 i32 → is_uint32 u32 → is_int64 i64 → is_uint64 u64 →
  (BoolToNValue b ≫= NValueToBool) w = (b, w) ∧
  (Int32ToNValue i32 ≫= NValueToInt32) w = (i32, w) ∧
  (UInt32ToNValue u32 ≫= NValueToUInt32) w = (u32, w) ∧
  (Int64ToNValue i64 ≫= NValueToInt64) w = (i64, w) ∧
  (UInt64ToNValue u64 ≫= NValueToUInt64) w = (u64, w) ∧
  (is_nan d = false → (DoubleToNValue d ≫= NValueToDouble) w = (d, w)) ∧
  (is_nan d = true → (DoubleToNValue d ≫= NValueToDouble) w = (quiet_nan, w)).
Proof.
  intros H32 Hu32 H64 Hu64. split_and!.
  - exact (scalar_roundtrip SBool b w I).
  - exact (scalar_roundtrip SInt32 i32 w H32).
  - exact (scalar_roundtrip SUInt32 u32 w Hu32).
  - exact (scalar_roundtrip SInt64 i64 w H64).
  - exact (scalar_roundtrip SUInt64 u64 w Hu64).
  - intros Hd. apply (scalar_roundtrip SDouble d w). cbn [in_range]. congruence.
  - intros Hd. by destruct d.
Qed.

(** Allocating an ArrayBuffer does not move what a valid buffer holds. *)
Lemma read_valid_after_alloc (w : World) (b : MMBuffer) (extra : bytes) :
  MMBuffer_valid w b →
  take (MMBuffer_length b)
       (match getPtr b with
        | NULL => []
        | native content => content
        | host data => default [] ((arraybuffers w ++ [extra]) !! data)
        end) = MMBuffer_bytes w b.
Proof.
  unfold MMBuffer_valid, MMBuffer_bytes, read. destruct (getPtr b) as [| |data]; try done.
  intros Hvalid. destruct (arraybuffers w !! data) as [c|] eqn:Hc.
  - by rewrite (lookup_app_l_Some _ _ _ _ Hc).
  - cbn [default length] in Hvalid. assert (MMBuffer_length b = 0%nat) as -> by lia. done.
Qed.

Lemma MMBufferToNValue_run (b : MMBuffer) (w : World) :
  MMBuffer_valid w b →
  (MMBufferToNValue b w).1 = JArrayBuffer (length (arraybuffers w)) ∧
  arraybuffers (MMBufferToNValue b w).2 = arraybuffers w ++ [MMBuffer_bytes w b].
Proof.
  intros Hvalid. unfold MMBufferToNValue.
  rewrite (bind_run (napi_create_arraybuffer (MMBuffer_length b))).
  unfold napi_create_arraybuffer, set_arraybuffers. cbv beta iota zeta.
  cbn [from_option id]. cbv beta iota. rewrite bool_decide_true by done.
  rewrite (bind_run (memcpy _ _ _)). unfold memcpy, set_arraybuffers. cbv beta iota.
  cbn [fst snd mret M_ret arraybuffers]. split; [done|].
  rewrite <- (Nat.add_0_r (length (arraybuffers w))), alter_app_r. cbn [alter list_alter].
  f_equal. f_equal. unfold read. cbn [arraybuffers]. rewrite read_valid_after_alloc by done.
  assert (Hlen : length (MMBuffer_bytes w b) = MMBuffer_length b).
  { unfold MMBuffer_bytes. rewrite length_take. unfold MMBuffer_valid in Hvalid. lia. }
  unfold write_at_start. by rewrite Hlen, drop_replicate, Nat.sub_diag, app_nil_r.
Qed.

Lemma NValueToMMBuffer_run (data : nat) (content : bytes) (maybeUndefined : bool) (w : World) :
  arraybuffers w !! data = Some content →
  NValueToMMBuffer (JArrayBuffer data) maybeUndefined w =
  (MMBuffer_of (host data) (length content) true, w).
Proof.
  intros Hc. unfold NValueToMMBuffer.
  replace (maybeUndefined && IsNValueUndefined (JArrayBuffer data)) with false
    by (by destruct maybeUndefined).
  rewrite (bind_run (napi_get_arraybuffer_info _)). unfold napi_get_arraybuffer_info.
  cbv beta.
  match goal with
  | |- context [match ?x with Some _ => _ | None => _ end] =>
      replace x with (Some content) by (symmetry; exact Hc)
  end.
  reflexivity.
Qed.

(** C4. A well-formed native buffer converted to a host ArrayBuffer and
    back has the same length and holds the same bytes. *)
Theorem buffer_roundtrip (b : MMBuffer) (w : World) :
  MMBuffer_valid w b →
  let '(value, w1) := MMBufferToNValue b w in
  let '(b', w2) := NValueToMMBuffer value false w1 in
  MMBuffer_length b' = MMBuffer_length b ∧ MMBuffer_bytes w2 b' = MMBuffer_bytes w b.
Proof.
  intros Hvalid. destruct (MMBufferToNValue_run b w Hvalid) as [Hvalue Hheap].
  destruct (MMBufferToNValue b w) as [value w1]. cbn [fst snd] in Hvalue, Hheap. subst value.
  assert (Hc : arraybuffers w1 !! length (arraybuffers w) = Some (MMBuffer_bytes w b))
    by (rewrite Hheap; apply list_lookup_middle; done).
  rewrite (NValueToMMBuffer_run _ _ false w1 Hc).
  assert (Hlen : length (MMBuffer_bytes w b) = MMBuffer_length b).
  { unfold MMBuffer_bytes. rewrite length_take. unfold MMBuffer_valid in Hvalid. lia. }
  split; [exact Hlen|].
  unfold MMBuffer_bytes at 1, MMBuffer_of. cbn [MMBuffer_length getPtr read].
  match goal with
  | |- context [from_option id [] ?x] =>
      replace x with (Some (MMBuffer_bytes w b)) by (symmetry; exact Hc)
  end.
  cbn [from_option id]. apply firstn_all.
Qed.

(** C5. The library constructor registers the module ["mmkv"] whose
    register function is [Init], and [Init] gives a fresh exports object
    exactly nineteen properties, each name bound to the native function
    of that name. *)
Theorem module_registers_dispatch_table :
  (∀ registry, mmkvModule ∈ RegisterMMKVModule registry) ∧
  host_import (RegisterMMKVModule []) "mmkv" = Some (Init ∅) ∧
  nm_register_func mmkvModule = Init ∧
  size (Init ∅) = 19%nat ∧
  Init ∅ !! "initialize"%string = Some initialize ∧
  Init ∅ !! "version"%string = Some version ∧
  Init ∅ !! "getDefaultMMKV"%string = Some getDefaultMMKV ∧
  Init ∅ !! "encodeBool"%string = Some encodeBool ∧
  Init ∅ !! "decodeBool"%string = Some decodeBool ∧
  Init ∅ !! "encodeInt32"%string = Some encodeInt32 ∧
  Init ∅ !! "decodeInt32"%string = Some decodeInt32 ∧
  Init ∅ !! "encodeUInt32"%string = Some encodeUInt32 ∧
  Init ∅ !! "decodeUInt32"%string = Some decodeUInt32 ∧
  Init ∅ !! "encodeInt64"%string = Some encodeInt64 ∧
  Init ∅ !! "decodeInt64"%string = Some decodeInt64 ∧
  Init ∅ !! "encodeUInt64"%string = Some encodeUInt64 ∧
  Init ∅ !! "decodeUInt64"%string = Some decodeUInt64 ∧
  Init ∅ !! "encodeDouble"%string = Some encodeDouble ∧
  Init ∅ !! "decodeDouble"%string = Some decodeDouble ∧
  Init ∅ !! "encodeString"%string = Some encodeString ∧
  Init ∅ !! "decodeString"%string = Some decodeString ∧
  Init ∅ !! "encodeBytes"%string = Some encodeBytes ∧
  Init ∅ !! "decodeBytes"%string = Some decodeBytes.
Proof.
  split.
  { intros registry. unfold RegisterMMKVModule, napi_module_register.
    apply elem_of_app. right. apply list_elem_of_singleton. reflexivity. }
  split; [reflexivity|]. split; [reflexivity|].
  split; [vm_compute; reflexivity|].
  repeat split; reflexivity.
Qed.

(** With no exception pending, [NValueToString] gives the empty string
    for anything that is not a string. *)
Lemma NValueToString_not_string (value : napi_value) (maybeUndefined : bool) (w : World) :
  pending_exception w = None → (∀ s, value ≠ JString s) →
  (NValueToString value maybeUndefined w).1 = [].
Proof.
  intros Hp Hv. unfold NValueToString.
  destruct (maybeUndefined && IsNValueUndefined value); [done|].
  destruct value; try (by destruct (Hv utf8));
    cbn [napi_get_value_string_utf8 fmap option_fmap option_map written];
    rewrite (bind_run uninit_size_t); unfold uninit_size_t; rewrite (bind_run uninit);
    unfold uninit; cbv beta iota; cbn [mret M_ret];
    unfold NAPI_CALL_RET; rewrite bool_decide_true by done;
    rewrite (bind_run napi_is_exception_pending); unfold napi_is_exception_pending;
    cbn [pending_exception]; rewrite Hp; reflexivity.
Qed.

(** C10, as the code has it.  Called with a number as mode and no
    exception pending, [getDefaultMMKV] asks the engine for the encrypted
    default instance exactly when its second argument is a non-empty
    string; when it does not ask, or the engine answers with a null
    instance, it asks for the unencrypted default instance with the same
    mode; the handle returned is the encrypted instance if the engine
    gave one, else the answer to the second request. *)
Theorem getDefaultMMKV_falls_back
    (info : napi_callback_info) (w w1 : World) (d : number) (crypt : bytes) :
  host_arg info 0 = JNumber d →
  pending_exception w = None →
  NValueToString (host_arg info 1) true w = (crypt, w1) →
  let mode := to_int32 (number_trunc d) in
  let encrypted := MMKV_defaultMMKV mode (Some crypt) in
  let plain := MMKV_defaultMMKV mode None in
  let result := getDefaultMMKV info w in
  (crypt ≠ [] ↔ ∃ s, host_arg info 1 = JString s ∧ s ≠ []) ∧
  (crypt = [] →
     mmkv_calls result.2 = mmkv_calls w ++ [log_entry plain] ∧
     result.1 = JBigInt (MMKV_perform plain (mmkv w)).1) ∧
  (crypt ≠ [] → (MMKV_perform encrypted (mmkv w)).1 ≠ 0 →
     mmkv_calls result.2 = mmkv_calls w ++ [log_entry encrypted] ∧
     result.1 = JBigInt (MMKV_perform encrypted (mmkv w)).1) ∧
  (crypt ≠ [] → (MMKV_perform encrypted (mmkv w)).1 = 0 →
     mmkv_calls result.2 = mmkv_calls w ++ [log_entry encrypted; log_entry plain] ∧
     result.1 = JBigInt (MMKV_perform plain (MMKV_perform encrypted (mmkv w)).2).1).
Proof.
  intros Hmode Hp Hcrypt mode encrypted plain result.
  destruct (untouched_run _ _ _ _ (untouched_NValueToString _ _) Hcrypt) as [Es Ec].
  assert (Hrun : result =
    (kv ← (if (0 <? length crypt)%nat then MMKV_do encrypted else mret 0);
     kv ← (if kv =? 0 then MMKV_do plain else mret kv);
     UInt64ToNValue kv) w1).
  { unfold result, getDefaultMMKV. enter info. rewrite Hmode.
    cbn [napi_get_value_int32 written]. rewrite (bind_run (mret _)). cbn [mret M_ret].
    rewrite NAPI_CALL_RET_ok. step_with Hcrypt. reflexivity. }
  split_and!.
  - split.
    + intros Hne. destruct (host_arg info 1) as [| | | | | |s| | |] eqn:Harg;
        try (exfalso; apply Hne;
             pose proof (NValueToString_not_string (host_arg info 1) true w Hp) as Hn;
             rewrite Harg, Hcrypt in Hn; apply Hn; intros s; discriminate).
      exists s. split; [done|]. intros ->.
      pose proof (NValueToString_JString_length [] true w) as Hl.
      rewrite Hcrypt in Hl. cbn [fst length] in Hl. destruct crypt; [done|discriminate].
    + intros (s & Harg & Hs) ->. rewrite Harg in Hcrypt.
      pose proof (NValueToString_JString_length s true w) as Hl.
      rewrite Hcrypt in Hl. cbn [fst length] in Hl. destruct s; [done|discriminate].
  - intros ->. rewrite Hrun. cbn [length Nat.ltb Nat.leb].
    rewrite (bind_run (mret 0)). cbn [mret M_ret]. cbn [Z.eqb].
    rewrite (bind_run (MMKV_do plain)), MMKV_do_run. unfold UInt64ToNValue. cbn [mret M_ret fst snd].
    rewrite after_call_calls, Es, Ec. done.
  - intros Hne Hkv. rewrite Hrun.
    assert ((0 <? length crypt)%nat = true) as -> by (by destruct crypt).
    rewrite (bind_run (MMKV_do encrypted)), MMKV_do_run.
    rewrite Es. apply Z.eqb_neq in Hkv. rewrite Hkv.
    rewrite (bind_run (mret _)). cbn [mret M_ret]. unfold UInt64ToNValue. cbn [mret M_ret fst snd].
    rewrite after_call_calls, Ec. done.
  - intros Hne Hkv. rewrite Hrun.
    assert ((0 <? length crypt)%nat = true) as -> by (by destruct crypt).
    rewrite (bind_run (MMKV_do encrypted)), MMKV_do_run.
    rewrite Es, Hkv. cbn [Z.eqb].
    rewrite (bind_run (MMKV_do plain)), MMKV_do_run. unfold UInt64ToNValue. cbn [mret M_ret fst snd].
    rewrite after_call_calls, after_call_mmkv, after_call_calls, Es, Ec.
    by rewrite <- (assoc_L (++)).
Qed.

(** ** When the conversions are functions of their argument *)

(** Every conversion gives the same result in any two states when its
    argument has the type it expects: any native value for the
    native-to-host direction, a host boolean, number, BigInt or string
    (or [undefined] where that is allowed) for the host-to-native one, and
    for [NValueToMMBuffer] any value as long as the ArrayBuffers agree. *)
Lemma conversions_deterministic_on_expected_types (w w' : World) :
  (∀ t v, (to_host (marshalling_of t) v w).1 = (to_host (marshalling_of t) v w').1) ∧
  (∀ s, (StringToNValue s w).1 = (StringToNValue s w').1) ∧
  (∀ b, (NValueToBool (JBoolean b) w).1 = (NValueToBool (JBoolean b) w').1) ∧
  (∀ d, (NValueToInt32 (JNumber d) w).1 = (NValueToInt32 (JNumber d) w').1) ∧
  (∀ d, (NValueToUInt32 (JNumber d) w).1 = (NValueToUInt32 (JNumber d) w').1) ∧
  (∀ d, (NValueToDouble (JNumber d) w).1 = (NValueToDouble (JNumber d) w').1) ∧
  (∀ z, (NValueToInt64 (JBigInt z) w).1 = (NValueToInt64 (JBigInt z) w').1) ∧
  (∀ z, (NValueToUInt64 (JBigInt z) w).1 = (NValueToUInt64 (JBigInt z) w').1) ∧
  (∀ s mu, (NValueToString (JString s) mu w).1 = (NValueToString (JString s) mu w').1) ∧
  (NValueToString JUndefined true w).1 = (NValueToString JUndefined true w').1 ∧
  (∀ v mu, arraybuffers w = arraybuffers w' →
           (NValueToMMBuffer v mu w).1 = (NValueToMMBuffer v mu w').1).
Proof.
  split_and!; try reflexivity.
  - intros t v. apply to_host_pure.
  - intros s mu. by rewrite !NValueToString_JString.
  - intros v mu Hab. unfold NValueToMMBuffer.
    destruct (mu && IsNValueUndefined v); [done|].
    rewrite !(bind_run (napi_get_arraybuffer_info v)). unfold napi_get_arraybuffer_info.
    cbv beta. rewrite Hab. destruct v; try reflexivity.
    by destruct (arraybuffers w' !! data).
Qed.

(** ** The string round trip *)

Lemma StringToNValue_run (value : bytes) (w : World) :
  StringToNValue value w = (JString (utf8_decode None value), w).
Proof. unfold StringToNValue, napi_create_string_utf8. by rewrite firstn_all. Qed.

(** X3. With room for the terminator, that is with a capacity above
    the size, a string of well-formed UTF-8 survives the way to the host
    and back. *)
Lemma string_roundtrip_with_room (s : bytes) (w : World) :
  utf8_valid s = true →
  (length s < string_capacity (length s))%nat →
  (StringToNValue s ≫= λ v, NValueToString v false) w = (s, w).
Proof.
  intros Hvalid Hroom. rewrite (bind_run (StringToNValue s)), StringToNValue_run.
  rewrite (utf8_decode_valid s Hvalid).
  by apply NValueToString_JString_room.
Qed.

(** Without room, what is read of a string that is not empty ends in 0. *)
Lemma NValueToString_JString_full_last (s : bytes) (maybeUndefined : bool) (w : World) :
  string_capacity (length s) = length s → s ≠ [] →
  last (NValueToString (JString s) maybeUndefined w).1 = Some x00.
Proof.
  intros Hfull Hs.
  rewrite (NValueToString_JString_full s maybeUndefined w Hfull Hs). cbn [fst]. cbv zeta.
  assert (Hb : (utf8_boundary s (length s - 1) ≤ length s - 1)%nat).
  { induction (length s - 1)%nat as [|n IH]; [done|]. cbn [utf8_boundary].
    destruct (s !! S n); [|done]. destruct (is_utf8_continuation _); lia. }
  assert (0 < length s)%nat by (destruct s; [done|cbn; lia]).
  destruct (length s - utf8_boundary s (length s - 1))%nat as [|k] eqn:Hk; [lia|].
  rewrite replicate_S_end, (assoc_L (++)). apply last_snoc.
Qed.

(** X4. When the capacity is the size, a string that does not end in 0
    comes back changed: same length, last character lost. *)
Lemma string_roundtrip_without_room (s : bytes) (w : World) :
  string_capacity (length s) = length s → last s ≠ None → last s ≠ Some x00 →
  ((StringToNValue s ≫= λ v, NValueToString v false) w).1 ≠ s.
Proof.
  intros Hfull Hne Hlast. rewrite (bind_run (StringToNValue s)), StringToNValue_run.
  intros Heq.
  pose proof (NValueToString_JString_length (utf8_decode None s) false w) as Hlen.
  rewrite Heq in Hlen.
  assert (utf8_decode None s ≠ []) as Hs.
  { intros Hnil. rewrite Hnil in Hlen. destruct s; [done|discriminate]. }
  apply Hlast. rewrite <- Heq at 1.
  apply NValueToString_JString_full_last; [|exact Hs]. by rewrite <- Hlen.
Qed.

(** ** What the conversions leave alone *)

Lemma keeps_ret {X A} (field : World → X) (a : A) : keeps field (mret a : M A).
Proof. by intros w. Qed.

Lemma keeps_bind {X A B} (field : World → X) (m : M A) (f : A → M B) :
  keeps field m → (∀ a, keeps field (f a)) → keeps field (m ≫= f).
Proof.
  intros Hm Hf w. rewrite (bind_run m). specialize (Hm w).
  destruct (m w) as [a w']. cbn [snd] in Hm. rewrite <- Hm. apply Hf.
Qed.

Lemma keeps_run {X A} (field : World → X) (m : M A) (w w' : World) (a : A) :
  keeps field m → m w = (a, w') → field w' = field w.
Proof. intros Hm Hrun. specialize (Hm w). by rewrite Hrun in Hm. Qed.

Lemma keeps_MMKV_do_pending {R} (c : MMKV_call R) : keeps pending_exception (MMKV_do c).
Proof. intros w. unfold MMKV_do. by destruct (MMKV_perform c (mmkv w)). Qed.

Lemma keeps_MMKV_do_arraybuffers {R} (c : MMKV_call R) : keeps arraybuffers (MMKV_do c).
Proof. intros w. unfold MMKV_do. by destruct (MMKV_perform c (mmkv w)). Qed.

Lemma keeps_MMKV_do_tmpDir {R} (c : MMKV_call R) : keeps g_android_tmpDir (MMKV_do c).
Proof. intros w. unfold MMKV_do. by destruct (MMKV_perform c (mmkv w)). Qed.

(** The conversions that only read their argument and, at worst, an
    uninitialised local keep every component that reading such a local
    keeps. *)
Section Frames.
Context {X : Type} (field : World → X).
Hypothesis field_uninit : keeps field uninit.

Lemma keeps_written {T} (out : option T) (f : Z → T) :
  keeps field (written out (z ← uninit; mret (f z))).
Proof.
  destruct out; [apply keeps_ret|].
  apply keeps_bind; [exact field_uninit|]. intros z. apply keeps_ret.
Qed.

Lemma keeps_from_host (t : scalar_type) (value : napi_value) :
  keeps field (from_host (marshalling_of t) value).
Proof.
  destruct t; cbn [marshalling_of from_host];
    [unfold NValueToBool; destruct (napi_get_value_bool value)
    |unfold NValueToInt32; destruct (napi_get_value_int32 value)
    |unfold NValueToUInt32; destruct (napi_get_value_uint32 value)
    |unfold NValueToInt64; destruct (napi_get_value_bigint_int64 value)
    |unfold NValueToUInt64; destruct (napi_get_value_bigint_uint64 value)
    |unfold NValueToDouble; destruct (napi_get_value_double value)];
    apply keeps_written.
Qed.

Lemma keeps_to_host (t : scalar_type) (v : native_type (marshalling_of t)) :
  keeps field (to_host (marshalling_of t) v).
Proof.
  intros w. destruct t; cbn [marshalling_of to_host]; rewrite ?BoolToNValue_run; reflexivity.
Qed.

Lemma keeps_NValueToMMBuffer (value : napi_value) (maybeUndefined : bool) :
  keeps field (NValueToMMBuffer value maybeUndefined).
Proof.
  intros w. unfold NValueToMMBuffer.
  destruct (maybeUndefined && IsNValueUndefined value); [done|].
  rewrite (bind_run (napi_get_arraybuffer_info value)). unfold napi_get_arraybuffer_info.
  cbv beta. destruct value; try reflexivity.
  by destruct (arraybuffers w !! data).
Qed.

End Frames.

Lemma keeps_uninit_pending : keeps pending_exception uninit.
Proof. by intros w. Qed.

Lemma keeps_uninit_arraybuffers : keeps arraybuffers uninit.
Proof. by intros w. Qed.

Lemma keeps_uninit_tmpDir : keeps g_android_tmpDir uninit.
Proof. by intros w. Qed.

(** [NValueToString] may throw, but touches neither the ArrayBuffers nor
    the engine's global. *)
Lemma keeps_NAPI_CALL_RET {X A} (field : World → X) (status : napi_status)
    (return_value : A) (rest : M A) :
  (∀ msg, keeps field (napi_throw_error msg)) → keeps field rest →
  keeps field (NAPI_CALL_RET status return_value rest).
Proof.
  intros Ht Hr. unfold NAPI_CALL_RET. case_bool_decide; [|done].
  apply keeps_bind; [by intros w|]. intros [|]; cbn [negb]; [done|].
  apply keeps_bind; [apply Ht|]. intros _. apply keeps_ret.
Qed.

Lemma keeps_NValueToString {X} (field : World → X) (value : napi_value) (maybeUndefined : bool) :
  keeps field uninit → (∀ msg, keeps field (napi_throw_error msg)) →
  keeps field (NValueToString value maybeUndefined).
Proof.
  intros Hu Ht. unfold NValueToString.
  destruct (maybeUndefined && IsNValueUndefined value); [apply keeps_ret|].
  destruct (napi_get_value_string_utf8 value None 0) as [status out].
  apply keeps_bind.
  { destruct (snd <$> out); [apply keeps_ret|]. unfold uninit_size_t.
    apply keeps_bind; [exact Hu|]. intros z. apply keeps_ret. }
  intros size. apply keeps_NAPI_CALL_RET; [exact Ht|].
  destruct (napi_get_value_string_utf8 _ _ _) as [status' out'].
  apply keeps_NAPI_CALL_RET; [exact Ht|]. apply keeps_ret.
Qed.

Lemma keeps_NValueToString_arraybuffers (value : napi_value) (maybeUndefined : bool) :
  keeps arraybuffers (NValueToString value maybeUndefined).
Proof. apply keeps_NValueToString; [apply keeps_uninit_arraybuffers | by intros msg w]. Qed.

Lemma keeps_NValueToString_tmpDir (value : napi_value) (maybeUndefined : bool) :
  keeps g_android_tmpDir (NValueToString value maybeUndefined).
Proof. apply keeps_NValueToString; [apply keeps_uninit_tmpDir | by intros msg w]. Qed.

(** ** Edge behaviour of the conversions *)

Lemma NValueToString_non_string_run
    (value : napi_value) (maybeUndefined : bool) (w : World) :
  pending_exception w = None →
  (∀ s, value ≠ JString s) →
  (maybeUndefined = true → value ≠ JUndefined) →
  (NValueToString value maybeUndefined w).1 = [] ∧
  pending_exception (NValueToString value maybeUndefined w).2 = Some "null"%string.
Proof.
  intros Hp Hv Hu. split; [by apply NValueToString_not_string|].
  unfold NValueToString.
  destruct (maybeUndefined && IsNValueUndefined value) eqn:Hmu.
  { apply andb_true_iff in Hmu as [-> Hund]. apply IsNValueUndefined_true in Hund.
    by destruct (Hu eq_refl). }
  destruct value; try (by destruct (Hv utf8));
    cbn [napi_get_value_string_utf8 fmap option_fmap option_map written];
    rewrite (bind_run uninit_size_t); unfold uninit_size_t; rewrite (bind_run uninit);
    unfold uninit; cbv beta iota; cbn [mret M_ret];
    unfold NAPI_CALL_RET; rewrite bool_decide_true by done;
    rewrite (bind_run napi_is_exception_pending); unfold napi_is_exception_pending;
    cbn [pending_exception]; rewrite Hp; reflexivity.
Qed.

(** X1. [NValueToString] on a value that is not a string (and is not an
    allowed [undefined]), with no exception pending: the result is the
    empty string and a host error is thrown, whose message is ["null"]
    whatever the status of the failed call was, because the macro reads
    the message after the call that cleared it; the engine and the
    ArrayBuffers are left alone. *)
Theorem NValueToString_rejects_non_string
    (value : napi_value) (maybeUndefined : bool) (w : World) :
  pending_exception w = None →
  (∀ s, value ≠ JString s) →
  (maybeUndefined = true → value ≠ JUndefined) →
  (NValueToString value maybeUndefined w).1 = [] ∧
  pending_exception (NValueToString value maybeUndefined w).2 = Some "null"%string ∧
  mmkv (NValueToString value maybeUndefined w).2 = mmkv w ∧
  mmkv_calls (NValueToString value maybeUndefined w).2 = mmkv_calls w ∧
  arraybuffers (NValueToString value maybeUndefined w).2 = arraybuffers w.
Proof.
  intros Hp Hv Hu.
  destruct (untouched_NValueToString value maybeUndefined w) as [Es Ec].
  pose proof (keeps_NValueToString_arraybuffers value maybeUndefined w) as Ea.
  destruct (NValueToString_non_string_run value maybeUndefined w Hp Hv Hu) as (Hr & Hm).
  done.
Qed.

(** X2. [NValueToString] on a host string never throws and changes
    nothing; what it returns has the byte length of the host string and is
    a prefix of it followed by 0 bytes. *)
Theorem NValueToString_of_string (s : bytes) (maybeUndefined : bool) (w : World) :
  (NValueToString (JString s) maybeUndefined w).2 = w ∧
  length (NValueToString (JString s) maybeUndefined w).1 = length s ∧
  ∃ copied, (copied ≤ length s)%nat ∧
    (NValueToString (JString s) maybeUndefined w).1 =
      take copied s ++ replicate (length s - copied) x00.
Proof.
  split; [by rewrite NValueToString_JString|].
  split; [apply NValueToString_JString_length|].
  exists (utf8_fit s (string_capacity (length s) - 1)).
  split; [apply utf8_fit_le|]. by rewrite NValueToString_JString.
Qed.

(** X5. [NValueToMMBuffer] on anything that is not an ArrayBuffer gives
    the empty buffer, throws nothing and changes nothing. *)
Theorem NValueToMMBuffer_rejects_non_arraybuffer
    (value : napi_value) (maybeUndefined : bool) (w : World) :
  (∀ data, value ≠ JArrayBuffer data) →
  NValueToMMBuffer value maybeUndefined w = (MMBuffer_empty, w).
Proof.
  intros Hv. unfold NValueToMMBuffer.
  destruct (maybeUndefined && IsNValueUndefined value); [done|].
  rewrite (bind_run (napi_get_arraybuffer_info value)). unfold napi_get_arraybuffer_info.
  cbv beta. destruct value; try reflexivity. by destruct (Hv data).
Qed.

(** X6. [MMBufferToNValue] on a well-formed buffer allocates exactly one
    ArrayBuffer, which holds the bytes of the buffer; the ArrayBuffers
    that existed keep their content, and neither the engine nor the
    pending exception changes. *)
Theorem MMBufferToNValue_allocates_one_arraybuffer (b : MMBuffer) (w : World) :
  MMBuffer_valid w b →
  (MMBufferToNValue b w).1 = JArrayBuffer (length (arraybuffers w)) ∧
  arraybuffers (MMBufferToNValue b w).2 !! length (arraybuffers w) = Some (MMBuffer_bytes w b) ∧
  length (arraybuffers (MMBufferToNValue b w).2) = S (length (arraybuffers w)) ∧
  (∀ data content, arraybuffers w !! data = Some content →
                   arraybuffers (MMBufferToNValue b w).2 !! data = Some content) ∧
  mmkv_calls (MMBufferToNValue b w).2 = mmkv_calls w ∧
  pending_exception (MMBufferToNValue b w).2 = pending_exception w.
Proof.
  intros Hvalid. destruct (MMBufferToNValue_run b w Hvalid) as [Hvalue Hheap].
  destruct (untouched_MMBufferToNValue b w) as [_ Ec].
  split; [exact Hvalue|]. split; [rewrite Hheap; by apply list_lookup_middle|].
  split; [rewrite Hheap, length_app; cbn [length]; lia|].
  split; [intros data content Hc; rewrite Hheap; by apply lookup_app_l_Some|].
  split; [exact Ec|].
  unfold MMBufferToNValue.
  rewrite (bind_run (napi_create_arraybuffer (MMBuffer_length b))).
  unfold napi_create_arraybuffer, set_arraybuffers. cbv beta iota zeta.
  cbn [from_option id]. cbv beta iota. rewrite bool_decide_true by done.
  rewrite (bind_run (memcpy _ _ _)). unfold memcpy, set_arraybuffers. reflexivity.
Qed.

(** ** Edge behaviour of the exported functions *)

(** The handle and the key keep the ArrayBuffers as they are. *)
Lemma prefix_keeps_arraybuffers
    (info : napi_callback_info) (w w1 w2 : World) (handle : Z) (key : bytes) :
  NValueToUInt64 (host_arg info 0) w = (handle, w1) →
  NValueToString (host_arg info 1) false w1 = (key, w2) →
  arraybuffers w2 = arraybuffers w.
Proof.
  intros Hh Hk.
  rewrite (keeps_run arraybuffers _ _ _ _ (keeps_NValueToString_arraybuffers _ _) Hk).
  exact (keeps_run arraybuffers _ _ _ _
           (keeps_from_host arraybuffers keeps_uninit_arraybuffers SUInt64 _) Hh).
Qed.

(** X7. [decodeString] with a non-null handle and a non-empty key asks the
    engine once; when the engine has the key and what it found is
    well-formed UTF-8 the result is that text as a host string, when it
    has not the result is the third argument as it was passed. *)
Theorem decodeString_found_or_default
    (info : napi_callback_info) (w w1 w2 : World) (handle : Z) (key : bytes) :
  NValueToUInt64 (host_arg info 0) w = (handle, w1) →
  NValueToString (host_arg info 1) false w1 = (key, w2) →
  handle ≠ 0 → key ≠ [] →
  let answer := (MMKV_perform (kv_getString handle key) (mmkv w)).1 in
  mmkv_calls (decodeString info w).2 = mmkv_calls w ++ [log_entry (kv_getString handle key)] ∧
  (answer.1 = false → (decodeString info w).1 = host_arg info 2) ∧
  (answer.1 = true → utf8_valid answer.2 = true → (decodeString info w).1 = JString answer.2).
Proof.
  intros Hh Hk Hkv Hkey answer.
  destruct (prefix_untouched _ _ _ _ _ _ Hh Hk) as [Es Ec].
  rewrite (decodeString_run info w w1 w2 handle key Hh Hk), guard_true by done.
  rewrite (bind_run (MMKV_do _)), MMKV_do_run, Es. fold answer.
  destruct answer as [[|] result]; cbn [fst snd]; rewrite ?StringToNValue_run;
    cbn [fst snd mret M_ret]; rewrite after_call_calls, Ec.
  - split; [done|]. split; [discriminate|]. intros _ Hvalid.
    by rewrite (utf8_decode_valid result Hvalid).
  - split; [done|]. split; [done|]. discriminate.
Qed.

Lemma MMBuffer_valid_ext (w w' : World) (b : MMBuffer) :
  arraybuffers w = arraybuffers w' → MMBuffer_valid w b → MMBuffer_valid w' b.
Proof. intros Hh. unfold MMBuffer_valid, read. by rewrite Hh. Qed.

Lemma after_call_arraybuffers {R} (c : MMKV_call R) (w : World) :
  arraybuffers (after_call c w) = arraybuffers w.
Proof. apply keeps_MMKV_do_arraybuffers. Qed.

(** X8. [decodeBytes] with a non-null handle and a non-empty key asks the
    engine once.  When the engine has no value the result is the third
    argument as it was passed and no ArrayBuffer is created; when it has
    one (a well-formed buffer) the result is a new ArrayBuffer, the only
    one created, holding the bytes found. *)
Theorem decodeBytes_found_or_default
    (info : napi_callback_info) (w w1 w2 : World) (handle : Z) (key : bytes) :
  NValueToUInt64 (host_arg info 0) w = (handle, w1) →
  NValueToString (host_arg info 1) false w1 = (key, w2) →
  handle ≠ 0 → key ≠ [] →
  let answer := (MMKV_perform (kv_getBytes handle key) (mmkv w)).1 in
  mmkv_calls (decodeBytes info w).2 = mmkv_calls w ++ [log_entry (kv_getBytes handle key)] ∧
  (answer.1 = false →
     (decodeBytes info w).1 = host_arg info 2 ∧
     arraybuffers (decodeBytes info w).2 = arraybuffers w) ∧
  (answer.1 = true → MMBuffer_valid w answer.2 →
     (decodeBytes info w).1 = JArrayBuffer (length (arraybuffers w)) ∧
     arraybuffers (decodeBytes info w).2 = arraybuffers w ++ [MMBuffer_bytes w answer.2]).
Proof.
  intros Hh Hk Hkv Hkey answer.
  destruct (prefix_untouched _ _ _ _ _ _ Hh Hk) as [Es Ec].
  pose proof (prefix_keeps_arraybuffers _ _ _ _ _ _ Hh Hk) as Ea.
  rewrite (decodeBytes_run info w w1 w2 handle key Hh Hk), guard_true by done.
  rewrite (bind_run (MMKV_do _)), MMKV_do_run, Es. fold answer.
  set (w' := after_call (kv_getBytes handle key) w2).
  assert (Ea' : arraybuffers w' = arraybuffers w)
    by (unfold w'; by rewrite after_call_arraybuffers).
  assert (Ec' : mmkv_calls w' = mmkv_calls w ++ [log_entry (kv_getBytes handle key)])
    by (unfold w'; by rewrite after_call_calls, Ec).
  destruct answer as [[|] result]; cbn [fst snd].
  - split; [by destruct (untouched_MMBufferToNValue result w') as [_ ->]|].
    split; [done|]. intros _ Hvalid.
    assert (Hvalid' : MMBuffer_valid w' result)
      by (apply (MMBuffer_valid_ext w w'); done).
    destruct (MMBufferToNValue_run result w' Hvalid') as [-> ->].
    rewrite Ea'. split; [done|]. f_equal. f_equal. by apply MMBuffer_bytes_ext.
  - cbn [mret M_ret fst snd]. split; [done|]. split; [done|]. intros; discriminate.
Qed.

Lemma convert_value_bytes (value : napi_value) (w : World) :
  convert_value TBytes value w = (VBytes (arraybuffer_content w value), w).
Proof.
  unfold convert_value.
  rewrite (bind_run (NValueToMMBuffer value false)). unfold NValueToMMBuffer. cbn [andb].
  rewrite (bind_run (napi_get_arraybuffer_info value)). unfold napi_get_arraybuffer_info.
  cbv beta. unfold arraybuffer_content. destruct value; try reflexivity.
  destruct (arraybuffers w !! data) as [content|] eqn:Hc; [|reflexivity].
  cbn [from_option id]. cbv beta iota. rewrite bool_decide_true by done.
  cbn [mret M_ret]. rewrite (bind_run (read_MMBuffer _)). unfold read_MMBuffer. cbv beta iota.
  cbn [mret M_ret]. f_equal. f_equal.
  unfold MMBuffer_bytes, MMBuffer_of, read. cbn [MMBuffer_length getPtr].
  match goal with
  | |- context [from_option id [] ?x] => replace x with (Some content) by (symmetry; exact Hc)
  end.
  cbn [from_option id]. apply firstn_all.
Qed.

(** X9. [encodeBytes] with a non-null handle and a non-empty key gives the
    engine the bytes of the ArrayBuffer passed as third argument; when
    that argument is anything else (also [undefined] or absent) it still
    calls [set], with no bytes at all. *)
Theorem encodeBytes_stores_arraybuffer_content
    (info : napi_callback_info) (w w1 w2 : World) (handle : Z) (key : bytes) :
  NValueToUInt64 (host_arg info 0) w = (handle, w1) →
  NValueToString (host_arg info 1) false w1 = (key, w2) →
  handle ≠ 0 → key ≠ [] →
  ∃ expiration,
    mmkv_calls (encodeBytes info w).2 =
      mmkv_calls w ++
      [log_entry (kv_set handle (VBytes (arraybuffer_content w (host_arg info 2))) key expiration)].
Proof.
  intros Hh Hk Hkv Hkey.
  destruct (prefix_untouched _ _ _ _ _ _ Hh Hk) as [Es Ec].
  pose proof (prefix_keeps_arraybuffers _ _ _ _ _ _ Hh Hk) as Ea.
  pose proof (convert_value_bytes (host_arg info 2) w2) as Hv.
  assert (arraybuffer_content w2 (host_arg info 2) = arraybuffer_content w (host_arg info 2)) as Hcontent
    by (unfold arraybuffer_content; by rewrite Ea).
  rewrite Hcontent in Hv.
  change (encodeBytes info w) with (encode_function TBytes info w).
  rewrite (encode_run TBytes info w w1 w2 w2 handle key _ Hh Hk Hkv Hkey Hv).
  destruct (IsNValueUndefined (host_arg info 3)).
  - exists None. rewrite (bind_run (MMKV_do _)), MMKV_do_run, BoolToNValue_run. cbn [snd].
    by rewrite after_call_calls, Ec.
  - rewrite (bind_run (NValueToUInt32 _)).
    destruct (NValueToUInt32 (host_arg info 3) w2) as [e w4] eqn:He.
    destruct (untouched_run _ _ _ _ (untouched_NValueToUInt32 _) He) as [Es4 Ec4].
    exists (Some e). rewrite (bind_run (MMKV_do _)), MMKV_do_run, BoolToNValue_run. cbn [snd].
    by rewrite after_call_calls, Ec4, Ec.
Qed.

Lemma after_call_pending {R} (c : MMKV_call R) (w : World) :
  pending_exception (after_call c w) = pending_exception w.
Proof. apply keeps_MMKV_do_pending. Qed.

Lemma guard_cases (kv : Z) (key : bytes) :
  (kv ≠ 0 ∧ key ≠ []) ∨ (kv = 0 ∨ key = []).
Proof.
  destruct (decide (kv = 0)); [right; by left|].
  destruct key; [right; by right|]. left. done.
Qed.

(** What follows the conversions in an encode function keeps the pending
    exception. *)
Lemma encode_tail_keeps_pending
    (handle : Z) (value : MMKV_value) (key : bytes) (fourth : napi_value) (w : World) :
  pending_exception
    ((if IsNValueUndefined fourth then
        (ret ← MMKV_do (kv_set handle value key None); BoolToNValue ret) w
      else
        (expiration ← NValueToUInt32 fourth;
         ret ← MMKV_do (kv_set handle value key (Some expiration));
         BoolToNValue ret) w)).2 = pending_exception w.
Proof.
  destruct (IsNValueUndefined fourth).
  - rewrite (bind_run (MMKV_do _)), MMKV_do_run, BoolToNValue_run. cbn [snd].
    apply after_call_pending.
  - rewrite (bind_run (NValueToUInt32 _)).
    destruct (NValueToUInt32 fourth w) as [e w4] eqn:He.
    rewrite (bind_run (MMKV_do _)), MMKV_do_run, BoolToNValue_run. cbn [snd].
    rewrite after_call_pending.
    exact (keeps_run pending_exception _ _ _ _
             (keeps_from_host pending_exception keeps_uninit_pending SUInt32 _) He).
Qed.

Lemma keeps_convert_value_pending (t : value_type) (value : napi_value) :
  t ≠ TString → keeps pending_exception (convert_value t value).
Proof.
  intros Ht. destruct t; try done; unfold convert_value;
    (apply keeps_bind; [|intros ?; try apply keeps_ret]).
  - apply (keeps_from_host pending_exception keeps_uninit_pending SBool).
  - apply (keeps_from_host pending_exception keeps_uninit_pending SInt32).
  - apply (keeps_from_host pending_exception keeps_uninit_pending SUInt32).
  - apply (keeps_from_host pending_exception keeps_uninit_pending SInt64).
  - apply (keeps_from_host pending_exception keeps_uninit_pending SUInt64).
  - apply (keeps_from_host pending_exception keeps_uninit_pending SDouble).
  - apply keeps_NValueToMMBuffer.
  - apply keeps_bind; [by intros w|]. intros ?. apply keeps_ret.
Qed.

Lemma keeps_MMBufferToNValue_pending (b : MMBuffer) :
  keeps pending_exception (MMBufferToNValue b).
Proof.
  intros w. unfold MMBufferToNValue.
  rewrite (bind_run (napi_create_arraybuffer (MMBuffer_length b))).
  unfold napi_create_arraybuffer, set_arraybuffers. cbv beta iota zeta.
  cbn [from_option id]. cbv beta iota. rewrite bool_decide_true by done.
  rewrite (bind_run (memcpy _ _ _)). unfold memcpy, set_arraybuffers. reflexivity.
Qed.

(** X11. An encode or decode call whose key argument is a host string
    raises no host exception (for [encodeString]: when the value is a
    string too): a handle, value, default or expiration of the wrong type
    is never reported. *)
Theorem bridge_reports_no_type_error
    (t : value_type) (info : napi_callback_info) (w : World) (k : bytes) :
  host_arg info 1 = JString k →
  (t ≠ TString ∨ (∃ s, host_arg info 2 = JString s) →
   pending_exception (encode_function t info w).2 = pending_exception w) ∧
  pending_exception (decode_function t info w).2 = pending_exception w.
Proof.
  intros Hkey.
  destruct (NValueToUInt64 (host_arg info 0) w) as [handle w1] eqn:Hh.
  pose proof (keeps_run pending_exception _ _ _ _
                (keeps_from_host pending_exception keeps_uninit_pending SUInt64 _) Hh) as Ep1.
  destruct (NValueToString (host_arg info 1) false w1) as [key w2] eqn:Hk.
  assert (w2 = w1) as ->.
  { rewrite Hkey, NValueToString_JString in Hk. by injection Hk. }
  split.
  - intros Ht.
    destruct (guard_cases handle key) as [[Hkv Hne]|Hg].
    + destruct (convert_value t (host_arg info 2) w1) as [value w3] eqn:Hv.
      assert (pending_exception w3 = pending_exception w1) as Ep3.
      { destruct Ht as [Ht|[s Hs]].
        - exact (keeps_run pending_exception _ _ _ _ (keeps_convert_value_pending t _ Ht) Hv).
        - assert (t = TString ∨ t ≠ TString) as [->|Hne']
            by (destruct t; ((by left) || (by right))).
          + rewrite Hs in Hv. unfold convert_value in Hv.
            rewrite (bind_run (NValueToString _ _)), NValueToString_JString in Hv.
            by injection Hv as _ <-.
          + exact (keeps_run pending_exception _ _ _ _ (keeps_convert_value_pending t _ Hne') Hv). }
      rewrite (encode_run t info w w1 w1 w3 handle key value Hh Hk Hkv Hne Hv).
      rewrite encode_tail_keeps_pending. congruence.
    + rewrite (encode_run_refused t info w w1 w1 handle key Hh Hk Hg), BoolToNValue_run. done.
  - assert (Hscalar : ∀ s : scalar_type,
        pending_exception (decode_function (value_type_of s) info w).2 = pending_exception w).
    { intros s.
      destruct (from_host (marshalling_of s) (host_arg info 2) w1) as [d w3] eqn:Hd.
      pose proof (keeps_run pending_exception _ _ _ _
                    (keeps_from_host pending_exception keeps_uninit_pending s _) Hd) as Ep3.
      rewrite (decode_scalar_run s info w w1 w1 w3 handle key d Hh Hk Hd).
      destruct (negb (handle =? 0) && (0 <? length key)%nat).
      - rewrite (bind_run (MMKV_do _)), MMKV_do_run.
        rewrite (keeps_to_host pending_exception s), after_call_pending. congruence.
      - rewrite (keeps_to_host pending_exception s). congruence. }
    destruct t;
      [apply (Hscalar SBool)|apply (Hscalar SInt32)|apply (Hscalar SUInt32)
      |apply (Hscalar SInt64)|apply (Hscalar SUInt64)|apply (Hscalar SDouble)| |];
      cbn [decode_function].
    + rewrite (decodeString_run info w w1 w1 handle key Hh Hk).
      destruct (negb (handle =? 0) && (0 <? length key)%nat); [|done].
      rewrite (bind_run (MMKV_do _)), MMKV_do_run.
      destruct (MMKV_perform (kv_getString handle key) (mmkv w1)).1 as [[|] result];
        rewrite ?StringToNValue_run; cbn [snd mret M_ret]; by rewrite after_call_pending.
    + rewrite (decodeBytes_run info w w1 w1 handle key Hh Hk).
      destruct (negb (handle =? 0) && (0 <? length key)%nat); [|done].
      rewrite (bind_run (MMKV_do _)), MMKV_do_run.
      destruct (MMKV_perform (kv_getBytes handle key) (mmkv w1)).1 as [[|] result].
      * by rewrite keeps_MMBufferToNValue_pending, after_call_pending.
      * cbn [snd mret M_ret]. by rewrite after_call_pending.
Qed.

(** X12. When the key argument is not a string and no exception is
    pending, every encode and decode function throws a host error (with
    the message ["null"] of the macro) and leaves the engine uncalled. *)
Theorem bridge_raises_on_non_string_key
    (t : value_type) (info : napi_callback_info) (w : World) :
  pending_exception w = None →
  (∀ s, host_arg info 1 ≠ JString s) →
  pending_exception (encode_function t info w).2 = Some "null"%string ∧
  mmkv_calls (encode_function t info w).2 = mmkv_calls w ∧
  pending_exception (decode_function t info w).2 = Some "null"%string ∧
  mmkv_calls (decode_function t info w).2 = mmkv_calls w.
Proof.
  intros Hp Hkey.
  destruct (NValueToUInt64 (host_arg info 0) w) as [handle w1] eqn:Hh.
  pose proof (keeps_run pending_exception _ _ _ _
                (keeps_from_host pending_exception keeps_uninit_pending SUInt64 _) Hh) as Ep1.
  rewrite Hp in Ep1.
  destruct (NValueToString_non_string_run (host_arg info 1) false w1 Ep1 Hkey)
    as (Hr & Hm); [done|].
  destruct (NValueToString (host_arg info 1) false w1) as [key w2] eqn:Hk.
  cbn [fst snd] in Hr, Hm. subst key.
  destruct (prefix_untouched _ _ _ _ _ _ Hh Hk) as [Es Ec].
  rewrite (encode_run_refused t info w w1 w2 handle [] Hh Hk) by (by right).
  rewrite BoolToNValue_run. cbn [snd]. split; [exact Hm|]. split; [exact Ec|].
  assert (Hscalar : ∀ s : scalar_type,
      pending_exception (decode_function (value_type_of s) info w).2 = Some "null"%string ∧
      mmkv_calls (decode_function (value_type_of s) info w).2 = mmkv_calls w).
  { intros s.
    destruct (from_host (marshalling_of s) (host_arg info 2) w2) as [d w3] eqn:Hd.
    pose proof (keeps_run pending_exception _ _ _ _
                  (keeps_from_host pending_exception keeps_uninit_pending s _) Hd) as Ep3.
    destruct (untouched_run _ _ _ _ (untouched_from_host _ _) Hd) as [_ Ec3].
    rewrite (decode_scalar_run s info w w1 w2 w3 handle [] d Hh Hk Hd).
    rewrite guard_false by (by right).
    rewrite (keeps_to_host pending_exception s).
    destruct (untouched_to_host s d w3) as [_ ->]. split; congruence. }
  destruct t;
    [apply (Hscalar SBool)|apply (Hscalar SInt32)|apply (Hscalar SUInt32)
    |apply (Hscalar SInt64)|apply (Hscalar SUInt64)|apply (Hscalar SDouble)| |];
    cbn [decode_function].
  - rewrite (decodeString_run info w w1 w2 handle [] Hh Hk), guard_false by (by right). done.
  - rewrite (decodeBytes_run info w w1 w2 handle [] Hh Hk), guard_false by (by right). done.
Qed.

(** X10. [encodeString] with a non-null handle, a string key and a value
    that is not a string (no exception pending): the conversion of the
    value throws (the message is the ["null"] of the macro), and the
    function goes on to store the empty string under the key. *)
Theorem encodeString_stores_empty_for_non_string
    (info : napi_callback_info) (w w1 : World) (handle : Z) (k : bytes) :
  NValueToUInt64 (host_arg info 0) w = (handle, w1) →
  handle ≠ 0 →
  host_arg info 1 = JString k → k ≠ [] →
  pending_exception w = None →
  (∀ s, host_arg info 2 ≠ JString s) →
  let key := (NValueToString (JString k) false w1).1 in
  (∃ expiration,
     mmkv_calls (encodeString info w).2 =
       mmkv_calls w ++ [log_entry (kv_set handle (VString []) key expiration)]) ∧
  pending_exception (encodeString info w).2 = Some "null"%string.
Proof.
  intros Hh Hkv Hkey Hk Hp Hv key.
  pose proof (keeps_run pending_exception _ _ _ _
                (keeps_from_host pending_exception keeps_uninit_pending SUInt64 _) Hh) as Ep1.
  rewrite Hp in Ep1.
  assert (Hkrun : NValueToString (host_arg info 1) false w1 = (key, w1)).
  { rewrite Hkey. unfold key. by rewrite !NValueToString_JString. }
  assert (Hne : key ≠ []).
  { intros Heq. pose proof (NValueToString_JString_length k false w1) as Hl.
    fold key in Hl. rewrite Heq in Hl. destruct k; [done|discriminate]. }
  destruct (prefix_untouched _ _ _ _ _ _ Hh Hkrun) as [Es Ec].
  destruct (NValueToString_non_string_run (host_arg info 2) false w1 Ep1 Hv)
    as (Hr & Hm); [done|].
  destruct (NValueToString (host_arg info 2) false w1) as [value w3] eqn:Hval.
  cbn [fst snd] in Hr, Hm. subst value.
  destruct (untouched_run _ _ _ _ (untouched_NValueToString _ _) Hval) as [Es3 Ec3].
  assert (Hconv : convert_value TString (host_arg info 2) w1 = (VString [], w3)).
  { unfold convert_value. by rewrite (bind_run (NValueToString _ _)), Hval. }
  change (encodeString info w) with (encode_function TString info w).
  rewrite (encode_run TString info w w1 w1 w3 handle key _ Hh Hkrun Hkv Hne Hconv).
  rewrite encode_tail_keeps_pending. split; [|exact Hm].
  destruct (IsNValueUndefined (host_arg info 3)).
  - exists None. rewrite (bind_run (MMKV_do _)), MMKV_do_run, BoolToNValue_run. cbn [snd].
    by rewrite after_call_calls, Ec3, Ec.
  - rewrite (bind_run (NValueToUInt32 _)).
    destruct (NValueToUInt32 (host_arg info 3) w3) as [e w4] eqn:He.
    destruct (untouched_run _ _ _ _ (untouched_NValueToUInt32 _) He) as [Es4 Ec4].
    exists (Some e). rewrite (bind_run (MMKV_do _)), MMKV_do_run, BoolToNValue_run. cbn [snd].
    by rewrite after_call_calls, Ec4, Ec3, Ec.
Qed.

(** ** [initialize], [version] and [getDefaultMMKV] *)

Lemma initialize_run
    (info : napi_callback_info) (w w1 w2 : World) (rootDir cacheDir : bytes) :
  NValueToString (host_arg info 0) false w = (rootDir, w1) →
  NValueToString (host_arg info 1) false w1 = (cacheDir, w2) →
  initialize info w =
    (logLevel ← written (napi_get_value_int32 (host_arg info 2)).2 uninit_int32;
     NAPI_CALL (napi_get_value_int32 (host_arg info 2)).1 (
       MMKV_do (MMKV_initializeMMKV rootDir logLevel);;
       set_g_android_tmpDir cacheDir;;
       root ← MMKV_do MMKV_getRootDir;
       StringToNValue root)) w2.
Proof.
  intros Hr Hc. unfold initialize. enter info. step_with Hr. step_with Hc.
  by destruct (napi_get_value_int32 (host_arg info 2)).
Qed.

Lemma after_call_tmpDir {R} (c : MMKV_call R) (w : World) :
  g_android_tmpDir (after_call c w) = g_android_tmpDir w.
Proof. apply keeps_MMKV_do_tmpDir. Qed.

(** The engine part of [initialize], run. *)
Lemma initialize_engine_run (rootDir cacheDir : bytes) (logLevel : Z) (w : World) :
  let init := MMKV_initializeMMKV rootDir logLevel in
  let r := (MMKV_do init;;
            set_g_android_tmpDir cacheDir;;
            root ← MMKV_do MMKV_getRootDir;
            StringToNValue root) w in
  r.1 = JString (utf8_decode None
                   (MMKV_perform MMKV_getRootDir (MMKV_perform init (mmkv w)).2).1) ∧
  mmkv_calls r.2 = mmkv_calls w ++ [log_entry init; log_entry MMKV_getRootDir] ∧
  mmkv r.2 = (MMKV_perform MMKV_getRootDir (MMKV_perform init (mmkv w)).2).2 ∧
  g_android_tmpDir r.2 = cacheDir ∧
  pending_exception r.2 = pending_exception w ∧
  arraybuffers r.2 = arraybuffers w.
Proof.
  cbv zeta.
  rewrite (bind_run (MMKV_do (MMKV_initializeMMKV rootDir logLevel))), MMKV_do_run.
  cbv beta iota.
  rewrite (bind_run (set_g_android_tmpDir cacheDir)). unfold set_g_android_tmpDir.
  cbv beta iota. rewrite (bind_run (MMKV_do MMKV_getRootDir)), MMKV_do_run, StringToNValue_run.
  cbn [fst snd].
  rewrite after_call_calls, after_call_mmkv, after_call_pending, after_call_arraybuffers.
  rewrite after_call_tmpDir.
  cbn [mmkv mmkv_calls pending_exception arraybuffers g_android_tmpDir].
  rewrite after_call_calls, after_call_mmkv, after_call_pending, after_call_arraybuffers.
  cbn [mmkv mmkv_calls pending_exception arraybuffers g_android_tmpDir].
  by rewrite <- (assoc_L (++)).
Qed.

(** X13. [initialize] with two strings and a number: the engine is
    initialised with the first string and the number cut to 32 bits, then
    asked for its root directory, in this order and nothing else; the
    second string becomes [g_android_tmpDir]; the result is the root
    directory the engine reports, as a host string, when that is
    well-formed UTF-8; nothing is thrown. *)
Theorem initialize_initialises_engine
    (info : napi_callback_info) (w : World) (root cache : bytes) (level : number) :
  host_arg info 0 = JString root →
  host_arg info 1 = JString cache →
  host_arg info 2 = JNumber level →
  let rootDir := (NValueToString (JString root) false w).1 in
  let cacheDir := (NValueToString (JString cache) false w).1 in
  let init := MMKV_initializeMMKV rootDir (to_int32 (number_trunc level)) in
  let reported := (MMKV_perform MMKV_getRootDir (MMKV_perform init (mmkv w)).2).1 in
  (utf8_valid reported = true → (initialize info w).1 = JString reported) ∧
  mmkv_calls (initialize info w).2 =
    mmkv_calls w ++ [log_entry init; log_entry MMKV_getRootDir] ∧
  g_android_tmpDir (initialize info w).2 = cacheDir ∧
  pending_exception (initialize info w).2 = pending_exception w.
Proof.
  intros H0 H1 H2 rootDir cacheDir init reported.
  assert (Hr : NValueToString (host_arg info 0) false w = (rootDir, w))
    by (rewrite H0; unfold rootDir; by rewrite !NValueToString_JString).
  assert (Hc : NValueToString (host_arg info 1) false w = (cacheDir, w))
    by (rewrite H1; unfold cacheDir; by rewrite !NValueToString_JString).
  rewrite (initialize_run info w w w rootDir cacheDir Hr Hc), H2.
  cbn [napi_get_value_int32 fst snd written]. rewrite (bind_run (mret _)). cbn [mret M_ret].
  unfold NAPI_CALL. rewrite NAPI_CALL_RET_ok.
  destruct (initialize_engine_run rootDir cacheDir (to_int32 (number_trunc level)) w)
    as (Hres & Hcalls & _ & Htmp & Hpend & _).
  split; [|done]. intros Hvalid. cbv zeta in Hres. rewrite Hres.
  fold init. fold reported. by rewrite (utf8_decode_valid reported Hvalid).
Qed.

(** X14. [initialize] with two strings and a log level that is not a
    number (no exception pending): a host error is thrown (with the
    message ["null"] of the macro), the result is the null value, the
    engine is not called and [g_android_tmpDir] stays as it was. *)
Theorem initialize_rejects_non_number_level
    (info : napi_callback_info) (w : World) (root cache : bytes) :
  host_arg info 0 = JString root →
  host_arg info 1 = JString cache →
  (∀ d, host_arg info 2 ≠ JNumber d) →
  pending_exception w = None →
  (initialize info w).1 = nullptr ∧
  mmkv_calls (initialize info w).2 = mmkv_calls w ∧
  mmkv (initialize info w).2 = mmkv w ∧
  g_android_tmpDir (initialize info w).2 = g_android_tmpDir w ∧
  pending_exception (initialize info w).2 = Some "null"%string.
Proof.
  intros H0 H1 H2 Hp.
  assert (Hr : NValueToString (host_arg info 0) false w =
               ((NValueToString (JString root) false w).1, w))
    by (rewrite H0; by rewrite !NValueToString_JString).
  assert (Hc : NValueToString (host_arg info 1) false w =
               ((NValueToString (JString cache) false w).1, w))
    by (rewrite H1; by rewrite !NValueToString_JString).
  rewrite (initialize_run info w w w _ _ Hr Hc).
  destruct (host_arg info 2) as [| | | | |d| | | |]; try (by destruct (H2 d));
    cbn [napi_get_value_int32 fst snd written];
    rewrite (bind_run uninit_int32); unfold uninit_int32; rewrite (bind_run uninit);
    unfold uninit; cbv beta iota; cbn [mret M_ret];
    unfold NAPI_CALL, NAPI_CALL_RET; rewrite bool_decide_true by done;
    rewrite (bind_run napi_is_exception_pending); unfold napi_is_exception_pending;
    cbn [pending_exception]; rewrite Hp; done.
Qed.

(** X15. [initialize] with a first argument that is not a string, a
    string and a number (no exception pending): the conversion of the
    first argument throws (the message is the ["null"] of the macro), and
    the function goes on to initialise the engine with the empty root
    directory, sets [g_android_tmpDir] and returns the root directory the
    engine reports (as a host string, when that is well-formed UTF-8),
    with the exception still pending. *)
Theorem initialize_goes_on_after_bad_root
    (info : napi_callback_info) (w : World) (cache : bytes) (level : number) :
  (∀ s, host_arg info 0 ≠ JString s) →
  host_arg info 1 = JString cache →
  host_arg info 2 = JNumber level →
  pending_exception w = None →
  let cacheDir := (NValueToString (JString cache) false w).1 in
  let init := MMKV_initializeMMKV [] (to_int32 (number_trunc level)) in
  let reported := (MMKV_perform MMKV_getRootDir (MMKV_perform init (mmkv w)).2).1 in
  (utf8_valid reported = true → (initialize info w).1 = JString reported) ∧
  mmkv_calls (initialize info w).2 =
    mmkv_calls w ++ [log_entry init; log_entry MMKV_getRootDir] ∧
  g_android_tmpDir (initialize info w).2 = cacheDir ∧
  pending_exception (initialize info w).2 = Some "null"%string.
Proof.
  intros H0 H1 H2 Hp cacheDir init reported.
  destruct (NValueToString_non_string_run (host_arg info 0) false w Hp H0)
    as (Hr & Hm); [done|].
  destruct (NValueToString (host_arg info 0) false w) as [rootDir w1] eqn:Hroot.
  cbn [fst snd] in Hr, Hm. subst rootDir.
  destruct (untouched_run _ _ _ _ (untouched_NValueToString _ _) Hroot) as [Es Ec].
  assert (Hc : NValueToString (host_arg info 1) false w1 = (cacheDir, w1))
    by (rewrite H1; unfold cacheDir; by rewrite !NValueToString_JString).
  rewrite (initialize_run info w w1 w1 [] cacheDir Hroot Hc), H2.
  cbn [napi_get_value_int32 fst snd written]. rewrite (bind_run (mret _)). cbn [mret M_ret].
  unfold NAPI_CALL. rewrite NAPI_CALL_RET_ok.
  destruct (initialize_engine_run [] cacheDir (to_int32 (number_trunc level)) w1)
    as (Hres & Hcalls & _ & Htmp & Hpend & _).
  cbv zeta in Hres, Hcalls, Htmp, Hpend.
  rewrite Hres, Hcalls, Htmp, Hpend, Es, Ec, Hm. split; [|done].
  intros Hvalid. fold init. fold reported. by rewrite (utf8_decode_valid reported Hvalid).
Qed.

Lemma strlen_plain_ascii (s : bytes) : plain_ascii s → strlen s = length s.
Proof.
  induction 1 as [|b s Hb _ IH]; [done|]. cbn [strlen length].
  destruct (Byte.eqb b x00) eqn:Heq; [|by rewrite IH].
  apply Byte.byte_dec_bl in Heq. subst b. cbn in Hb. lia.
Qed.

Lemma latin1_plain_ascii (s : bytes) :
  plain_ascii s → concat (map latin1_to_utf8 s) = s.
Proof.
  induction 1 as [|b s Hb _ IH]; [done|]. cbn [map concat]. rewrite IH.
  unfold latin1_to_utf8. destruct (N.ltb_spec (Byte.to_N b) 128); [done|lia].
Qed.

(** X16. [version] calls nothing and changes nothing, whatever its
    arguments; when the version text of the engine is plain ASCII the
    result is that text as a host string. *)
Theorem version_returns_version_text (info : napi_callback_info) (w : World) :
  plain_ascii MMKV_VERSION →
  version info w = (JString MMKV_VERSION, w).
Proof.
  intros Hascii. unfold version, NAPI_CALL. rewrite NAPI_CALL_RET_ok. cbn [mret M_ret].
  unfold napi_create_string_latin1.
  by rewrite (strlen_plain_ascii _ Hascii), firstn_all, (latin1_plain_ascii _ Hascii).
Qed.

(** X17. [getDefaultMMKV] with a mode that is not a number (no exception
    pending): a host error is thrown (with the message ["null"] of the
    macro), the result is the null value and the engine is not asked for
    any instance. *)
Theorem getDefaultMMKV_rejects_non_number_mode (info : napi_callback_info) (w : World) :
  (∀ d, host_arg info 0 ≠ JNumber d) →
  pending_exception w = None →
  (getDefaultMMKV info w).1 = nullptr ∧
  mmkv_calls (getDefaultMMKV info w).2 = mmkv_calls w ∧
  mmkv (getDefaultMMKV info w).2 = mmkv w ∧
  pending_exception (getDefaultMMKV info w).2 = Some "null"%string.
Proof.
  intros H0 Hp. unfold getDefaultMMKV. enter info.
  destruct (host_arg info 0) as [| | | | |d| | | |]; try (by destruct (H0 d));
    cbn [napi_get_value_int32 written];
    rewrite (bind_run uninit_int32); unfold uninit_int32; rewrite (bind_run uninit);
    unfold uninit; cbv beta iota; cbn [mret M_ret];
    unfold NAPI_CALL_RET; rewrite bool_decide_true by done;
    rewrite (bind_run napi_is_exception_pending); unfold napi_is_exception_pending;
    cbn [pending_exception]; rewrite Hp; done.
Qed.

(** ** Arguments, composition and the table *)

Lemma cb_info_ext (info info' : napi_callback_info) (argc : nat) :
  (∀ i, (i < argc)%nat → host_arg info i = host_arg info' i) →
  napi_get_cb_info info argc = napi_get_cb_info info' argc.
Proof.
  intros Hargs. unfold napi_get_cb_info. f_equal. apply list_eq. intros i.
  destruct (decide (i < argc)%nat) as [Hi|Hi].
  - pose proof (argv_take info argc i Hi) as H1.
    pose proof (argv_take info' argc i Hi) as H2.
    unfold argv in H1, H2. rewrite <- (Hargs i Hi) in H2.
    assert (Hsome : ∀ l : napi_callback_info,
              is_Some (take argc (l ++ replicate argc JUndefined) !! i)).
    { intros l. apply lookup_lt_is_Some. rewrite length_take, length_app, length_replicate. lia. }
    destruct (Hsome info) as [a Ha]. destruct (Hsome info') as [b Hb].
    rewrite Ha in H1. rewrite Hb in H2. cbn in H1, H2. congruence.
  - rewrite !lookup_take_ge by lia. done.
Qed.

(** X18. An exported function reads its first four (encode) or three
    (decode) arguments only, an absent argument counting as [undefined]:
    two calls that agree on them behave the same. *)
Theorem bridge_ignores_further_arguments
    (t : value_type) (info info' : napi_callback_info) (w : World) :
  (∀ i, (i < 4)%nat → host_arg info i = host_arg info' i) →
  encode_function t info w = encode_function t info' w ∧
  decode_function t info w = decode_function t info' w.
Proof.
  intros Hargs.
  pose proof (cb_info_ext info info' 4 Hargs) as H4.
  assert (H3 : napi_get_cb_info info 3 = napi_get_cb_info info' 3)
    by (apply cb_info_ext; intros i Hi; apply Hargs; lia).
  split; destruct t; cbn [encode_function decode_function];
    [unfold encodeBool|unfold encodeInt32|unfold encodeUInt32|unfold encodeInt64
    |unfold encodeUInt64|unfold encodeDouble|unfold encodeString|unfold encodeBytes
    |unfold decodeBool|unfold decodeInt32|unfold decodeUInt32|unfold decodeInt64
    |unfold decodeUInt64|unfold decodeDouble|unfold decodeString|unfold decodeBytes];
    cbv zeta; rewrite ?H4, ?H3; reflexivity.
Qed.

Lemma convert_value_scalar (t : scalar_type) (value : napi_value) (w w' : World)
    (v : native_type (marshalling_of t)) :
  from_host (marshalling_of t) value w = (v, w') →
  convert_value (value_type_of t) value w = (wrap_scalar t v, w').
Proof.
  intros Hv. destruct t; cbn [value_type_of marshalling_of from_host wrap_scalar] in *;
    unfold convert_value;
    match goal with |- (?m ≫= _) _ = _ => rewrite (bind_run m) end; by rewrite Hv.
Qed.

Lemma from_host_to_host (t : scalar_type) (v : native_type (marshalling_of t)) (w w' : World) :
  in_range t v →
  from_host (marshalling_of t) (to_host (marshalling_of t) v w').1 w = (v, w).
Proof.
  intros Hv. pose proof (scalar_roundtrip t v w Hv) as Hrt.
  rewrite (bind_run (to_host _ _)) in Hrt.
  rewrite (to_host_pure t v w' w).
  destruct (to_host (marshalling_of t) v w) as [nv w2] eqn:Hto.
  assert (w2 = w) as ->.
  { clear -Hto. destruct t; cbn [marshalling_of to_host] in Hto;
      rewrite ?BoolToNValue_run in Hto; by injection Hto. }
  exact Hrt.
Qed.

(** X19. Encode then decode.  Take an encode call of a scalar type with a
    BigInt handle that is not null, a non-empty string key and the host
    form of a native value [v], and afterwards a decode call of the same
    type with the same handle and key.  The decode call asks the engine,
    in the state the encode call left it in, for the key as the encode
    call converted it; so if the engine answers a get after this set with
    the value set, the decode call returns the host value that was
    encoded. *)
Theorem decode_after_encode
    (t : scalar_type) (info_e info_d : napi_callback_info) (w : World)
    (h : Z) (k : bytes) (v : native_type (marshalling_of t)) :
  host_arg info_e 0 = JBigInt h → host_arg info_d 0 = JBigInt h → to_uint64 h ≠ 0 →
  host_arg info_e 1 = JString k → host_arg info_d 1 = JString k → k ≠ [] →
  in_range t v → host_arg info_e 2 = (to_host (marshalling_of t) v w).1 →
  (∀ expiration d,
     (MMKV_perform (get (marshalling_of t) (to_uint64 h) (NValueToString (JString k) false w).1 d)
        (MMKV_perform (kv_set (to_uint64 h) (wrap_scalar t v)
                         (NValueToString (JString k) false w).1 expiration) (mmkv w)).2).1 = v) →
  (decode_function (value_type_of t) info_d
     (encode_function (value_type_of t) info_e w).2).1 = host_arg info_e 2.
Proof.
  intros He0 Hd0 Hh He1 Hd1 Hk Hv He2 Hlaw.
  set (key := (NValueToString (JString k) false w).1) in *.
  assert (Hkey : ∀ w', NValueToString (JString k) false w' = (key, w')).
  { intros w'. unfold key. by rewrite !NValueToString_JString. }
  assert (Hne : key ≠ []).
  { intros Heq. pose proof (NValueToString_JString_length k false w) as Hl.
    fold key in Hl. rewrite Heq in Hl. destruct k; [done|discriminate]. }
  (* the encode call *)
  assert (Hhe : NValueToUInt64 (host_arg info_e 0) w = (to_uint64 h, w))
    by (by rewrite He0).
  assert (Hke : NValueToString (host_arg info_e 1) false w = (key, w))
    by (rewrite He1; apply Hkey).
  assert (Hve : convert_value (value_type_of t) (host_arg info_e 2) w = (wrap_scalar t v, w)).
  { apply convert_value_scalar. rewrite He2. by apply from_host_to_host. }
  assert (Hstate : ∃ expiration,
    mmkv (encode_function (value_type_of t) info_e w).2 =
      (MMKV_perform (kv_set (to_uint64 h) (wrap_scalar t v) key expiration) (mmkv w)).2).
  { rewrite (encode_run _ info_e w w w w _ key _ Hhe Hke Hh Hne Hve).
    destruct (IsNValueUndefined (host_arg info_e 3)).
    - exists None. rewrite (bind_run (MMKV_do _)), MMKV_do_run, BoolToNValue_run. cbn [snd].
      apply after_call_mmkv.
    - rewrite (bind_run (NValueToUInt32 _)).
      destruct (NValueToUInt32 (host_arg info_e 3) w) as [e w4] eqn:Hexp.
      destruct (untouched_run _ _ _ _ (untouched_NValueToUInt32 _) Hexp) as [Es4 _].
      exists (Some e). rewrite (bind_run (MMKV_do _)), MMKV_do_run, BoolToNValue_run. cbn [snd].
      by rewrite after_call_mmkv, Es4. }
  destruct Hstate as [expiration Hstate].
  set (w_e := (encode_function (value_type_of t) info_e w).2) in *.
  (* the decode call *)
  assert (Hhd : NValueToUInt64 (host_arg info_d 0) w_e = (to_uint64 h, w_e))
    by (by rewrite Hd0).
  assert (Hkd : NValueToString (host_arg info_d 1) false w_e = (key, w_e))
    by (rewrite Hd1; apply Hkey).
  destruct (from_host (marshalling_of t) (host_arg info_d 2) w_e) as [d w3] eqn:Hdef.
  destruct (untouched_run _ _ _ _ (untouched_from_host _ _) Hdef) as [Es3 _].
  rewrite (decode_scalar_run t info_d w_e w_e w_e w3 _ key d Hhd Hkd Hdef).
  rewrite guard_true by done. rewrite (bind_run (MMKV_do _)), MMKV_do_run.
  rewrite Es3, Hstate, Hlaw, He2. apply to_host_pure.
Qed.

Lemma define_properties_other
    (props : list napi_property_descriptor) (obj : gmap string napi_callback) (name : string) :
  name ∉ map utf8name props →
  foldl (λ o p, <[utf8name p := method p]> o) obj props !! name = obj !! name.
Proof.
  revert obj. induction props as [|q props IH]; intros obj Hname; [done|].
  cbn [foldl]. cbn [map] in Hname. apply not_elem_of_cons in Hname as [Hq Hrest].
  rewrite IH by done. by rewrite lookup_insert_ne.
Qed.

Lemma define_properties_bound
    (props : list napi_property_descriptor) (obj : gmap string napi_callback)
    (p : napi_property_descriptor) :
  NoDup (map utf8name props) → p ∈ props →
  foldl (λ o q, <[utf8name q := method q]> o) obj props !! utf8name p = Some (method p).
Proof.
  revert obj. induction props as [|q props IH]; intros obj Hnodup Hp.
  - by apply elem_of_nil in Hp.
  - cbn [map] in Hnodup. apply NoDup_cons in Hnodup as [Hq Hrest]. cbn [foldl].
    apply elem_of_cons in Hp as [->|Hp].
    + rewrite define_properties_other by done. apply lookup_insert_eq.
    + by apply IH.
Qed.

Lemma elem_of_names (props : list napi_property_descriptor) (q : napi_property_descriptor) :
  q ∈ props → utf8name q ∈ map utf8name props.
Proof.
  induction props as [|r props IH]; intros Hq; [by apply elem_of_nil in Hq|].
  cbn [map]. apply elem_of_cons in Hq as [->|Hq]; [apply list_elem_of_here|].
  apply list_elem_of_further. by apply IH.
Qed.

(** As long as no name is refused the properties are defined one after
    the other, and their names are refused from then on. *)
Lemma define_properties_accepted
    (props rest : list napi_property_descriptor) (object : host_object) :
  NoDup (map utf8name props) →
  (∀ q, q ∈ props → refuses object (utf8name q) = false) →
  ∃ object',
    define_properties object (props ++ rest) = define_properties object' rest ∧
    methods object' = foldl (λ o q, <[utf8name q := method q]> o) (methods object) props ∧
    (∀ name, refuses object' name =
             bool_decide (name ∈ map utf8name props) || refuses object name).
Proof.
  revert object. induction props as [|q props IH]; intros object Hnodup Hfree.
  - exists object. split; [done|]. split; [done|]. intros name. cbn [map].
    rewrite bool_decide_false by apply not_elem_of_nil. done.
  - cbn [map] in Hnodup. apply NoDup_cons in Hnodup as [Hq Hrest].
    cbn [app define_properties]. rewrite (Hfree q) by apply list_elem_of_here.
    edestruct (IH {| methods := <[utf8name q := method q]> (methods object);
                     refuses := λ name, bool_decide (name = utf8name q) || refuses object name |})
      as (object' & Hrun & Hmethods & Hrefuses); [exact Hrest| |].
    { intros q' Hq'. cbn [refuses].
      rewrite (Hfree q') by (by apply list_elem_of_further).
      rewrite bool_decide_false; [done|]. intros Heq. apply Hq. rewrite <- Heq.
      by apply elem_of_names. }
    exists object'. split; [exact Hrun|]. split; [exact Hmethods|].
    intros name. rewrite Hrefuses. cbn [refuses map].
    destruct (refuses object name); [by rewrite !orb_true_r|]. rewrite !orb_false_r.
    destruct (decide (name = utf8name q)) as [->|Hne].
    + rewrite (bool_decide_true (utf8name q = utf8name q)) by done. rewrite orb_true_r.
      symmetry. apply bool_decide_true, list_elem_of_here.
    + rewrite (bool_decide_false (name = utf8name q)) by done. rewrite orb_false_r.
      apply bool_decide_ext. rewrite elem_of_cons. split; [by right|by intros [?|?]].
Qed.

Lemma desc_names_differ : NoDup (map utf8name desc).
Proof. apply (bool_decide_unpack _). vm_compute. reflexivity. Qed.

(** X20. [Init] on an exports object that refuses none of the nineteen
    names of the table: each name is bound to its function, whatever the
    object held under that name, and every native function under another
    name is left as it was. *)
Theorem Init_binds_table_when_not_refused (exports : host_object) :
  (∀ p, p ∈ desc → refuses exports (utf8name p) = false) →
  (∀ p, p ∈ desc → Init exports !! utf8name p = Some (method p)) ∧
  (∀ name, name ∉ map utf8name desc → Init exports !! name = exports !! name).
Proof.
  intros Hfree. unfold Init, napi_define_properties. rewrite firstn_all.
  destruct (define_properties_accepted desc [] exports desc_names_differ Hfree)
    as (object' & Hrun & Hmethods & _).
  rewrite app_nil_r in Hrun. rewrite Hrun. cbn [define_properties].
  unfold lookup, host_object_lookup. rewrite Hmethods. split.
  - intros p Hp. apply define_properties_bound; [apply desc_names_differ|done].
  - intros name Hname. by apply define_properties_other.
Qed.

(** X22. [Init] on an exports object that refuses a name of the table:
    [napi_define_properties] returns an error at that name, which [Init]
    does not look at; the names before it in the table are bound to their
    functions, that name and the names after it are not, and the object
    is returned as if nothing had happened. *)
Theorem Init_stops_at_first_refused_name
    (exports : host_object) (before after : list napi_property_descriptor)
    (p : napi_property_descriptor) :
  desc = before ++ p :: after →
  (∀ q, q ∈ before → refuses exports (utf8name q) = false) →
  refuses exports (utf8name p) = true →
  (napi_define_properties exports (length desc) desc).1 ≠ napi_ok ∧
  (∀ q, q ∈ before → Init exports !! utf8name q = Some (method q)) ∧
  (∀ q, q ∈ p :: after → Init exports !! utf8name q = exports !! utf8name q) ∧
  (∀ name, name ∉ map utf8name before → Init exports !! name = exports !! name).
Proof.
  intros Hdesc Hfree Hrefused.
  pose proof desc_names_differ as Hnodup. rewrite Hdesc, map_app in Hnodup.
  apply NoDup_app in Hnodup as (Hbefore & Hdisjoint & _).
  destruct (define_properties_accepted before (p :: after) exports Hbefore Hfree)
    as (object' & Hrun & Hmethods & Hrefuses).
  assert (Hstop : define_properties exports desc = (napi_invalid_arg, object')).
  { rewrite Hdesc, Hrun. cbn [define_properties].
    by rewrite Hrefuses, Hrefused, orb_true_r. }
  unfold Init, napi_define_properties. rewrite firstn_all, Hstop. cbn [fst].
  unfold lookup, host_object_lookup. rewrite Hmethods.
  split; [discriminate|].
  assert (Hother : ∀ name, name ∉ map utf8name before →
            foldl (λ o q, <[utf8name q := method q]> o) (methods exports) before !! name =
            methods exports !! name)
    by (intros name Hname; by apply define_properties_other).
  split; [|split; [|exact Hother]].
  - intros q Hq. by apply define_properties_bound.
  - intros q Hq. apply Hother. intros Hin. apply (Hdisjoint _ Hin).
    by apply (elem_of_names (p :: after)).
Qed.

Lemma string_read_without_room (s : bytes) (maybeUndefined : bool) (w : World) :
  string_capacity (length s) = length s → last s ≠ Some x00 → s ≠ [] →
  (NValueToString (JString s) maybeUndefined w).1 ≠ s.
Proof.
  intros Hfull Hlast Hs.
  rewrite (NValueToString_JString_full s maybeUndefined w Hfull Hs). cbn [fst]. cbv zeta.
  assert (Hb : (utf8_boundary s (length s - 1) ≤ length s - 1)%nat).
  { induction (length s - 1)%nat as [|n IH]; [done|]. cbn [utf8_boundary].
    destruct (s !! S n); [|done]. destruct (is_utf8_continuation _); lia. }
  assert (0 < length s)%nat by (destruct s; [done|cbn; lia]).
  destruct (length s - utf8_boundary s (length s - 1))%nat as [|n] eqn:Hn; [lia|].
  intros Heq. apply Hlast. rewrite <- Heq at 1.
  rewrite replicate_S_end, (assoc_L (++)). apply last_snoc.
Qed.

(** X21. The key the engine is called with.  An encode call with a BigInt
    handle that is not null and a non-empty string key calls [set] with
    the key as [NValueToString] read it: the key the host passed when the
    string has room for its terminator, another key (its last character
    lost) when the capacity is the size and the key does not end in 0. *)
Theorem encode_key_reaches_engine
    (t : value_type) (info : napi_callback_info) (w w3 : World)
    (h : Z) (k : bytes) (value : MMKV_value) :
  host_arg info 0 = JBigInt h → to_uint64 h ≠ 0 →
  host_arg info 1 = JString k → k ≠ [] →
  convert_value t (host_arg info 2) w = (value, w3) →
  let key := (NValueToString (JString k) false w).1 in
  (∃ expiration,
     mmkv_calls (encode_function t info w).2 =
       mmkv_calls w ++ [log_entry (kv_set (to_uint64 h) value key expiration)]) ∧
  ((length k < string_capacity (length k))%nat → key = k) ∧
  (string_capacity (length k) = length k → last k ≠ Some x00 → key ≠ k).
Proof.
  intros H0 Hh H1 Hk Hv key.
  assert (Hhr : NValueToUInt64 (host_arg info 0) w = (to_uint64 h, w)) by (by rewrite H0).
  assert (Hkr : NValueToString (host_arg info 1) false w = (key, w))
    by (rewrite H1; unfold key; by rewrite !NValueToString_JString).
  assert (Hne : key ≠ []).
  { intros Heq. pose proof (NValueToString_JString_length k false w) as Hl.
    fold key in Hl. rewrite Heq in Hl. destruct k; [done|discriminate]. }
  destruct (untouched_run _ _ _ _ (untouched_convert_value _ _) Hv) as [_ Ec3].
  split; [|split].
  - rewrite (encode_run t info w w w w3 _ key value Hhr Hkr Hh Hne Hv).
    destruct (IsNValueUndefined (host_arg info 3)).
    + exists None. rewrite (bind_run (MMKV_do _)), MMKV_do_run, BoolToNValue_run. cbn [snd].
      by rewrite after_call_calls, Ec3.
    + rewrite (bind_run (NValueToUInt32 _)).
      destruct (NValueToUInt32 (host_arg info 3) w3) as [e w4] eqn:He.
      destruct (untouched_run _ _ _ _ (untouched_NValueToUInt32 _) He) as [_ Ec4].
      exists (Some e). rewrite (bind_run (MMKV_do _)), MMKV_do_run, BoolToNValue_run. cbn [snd].
      by rewrite after_call_calls, Ec4, Ec3.
  - intros Hroom. unfold key. by rewrite NValueToString_JString_room.
  - intros Hfull Hlast. by apply string_read_without_room.
Qed.

End BridgeProperties.

(** ** The bridge on the memory engine, with the strings of libc++ *)

#[local] Existing Instance memory_engine.
#[local] Existing Instance libcxx.

Lemma bridge_single_engine_operation_witness :
  NValueToUInt64 (host_arg info_encode 0) world0 = (1, world0) ∧
  NValueToString (host_arg info_encode 1) false world0 = (key_k, world0) ∧
  1 ≠ 0 ∧ key_k ≠ [] ∧
  (∃ c, is_set_of TInt32 1 key_k c ∧
        mmkv_calls (encode_function TInt32 info_encode world0).2 = mmkv_calls world0 ++ [c] ∧
        mmkv (encode_function TInt32 info_encode world0).2 = store_after c (mmkv world0)) ∧
  (∃ c, is_get_of TInt32 1 key_k c ∧
        mmkv_calls (decode_function TInt32 info_encode world0).2 = mmkv_calls world0 ++ [c] ∧
        mmkv (decode_function TInt32 info_encode world0).2 = store_after c (mmkv world0)).
Proof.
  split_and!; [reflexivity | reflexivity | lia | discriminate | |];
    apply (bridge_single_engine_operation TInt32 info_encode world0 world0 world0 1 key_k);
    (reflexivity || lia || discriminate).
Defined.

Lemma bridge_returns_engine_answer_witness :
  NValueToUInt64 (host_arg info_decode 0) world0 = (1, world0) ∧
  NValueToString (host_arg info_decode 1) false world0 = (key_k, world0) ∧
  1 ≠ 0 ∧ key_k ≠ [] ∧
  (∀ t : value_type, ∃ value expiration,
      let c := kv_set 1 value key_k expiration in
      mmkv_calls (encode_function t info_decode world0).2 = mmkv_calls world0 ++ [log_entry c] ∧
      (encode_function t info_decode world0).1 = JBoolean (MMKV_perform c (mmkv world0)).1) ∧
  (∀ t : scalar_type, ∃ defaultValue,
      let c := get (marshalling_of t) 1 key_k defaultValue in
      mmkv_calls (decode_function (value_type_of t) info_decode world0).2 =
        mmkv_calls world0 ++ [log_entry c] ∧
      (decode_function (value_type_of t) info_decode world0).1 =
        host_form t (MMKV_perform c (mmkv world0)).1 ∧
      (∀ d, native_form t (host_arg info_decode 2) = Some d → defaultValue = d)).
Proof.
  split_and!; [reflexivity | reflexivity | lia | discriminate | |];
    apply (bridge_returns_engine_answer info_decode world0 world0 world0 1 key_k);
    (reflexivity || lia || discriminate).
Defined.

Lemma encode_expiration_witness :
  NValueToUInt64 (host_arg info_encode 0) world0 = (1, world0) ∧
  NValueToString (host_arg info_encode 1) false world0 = (key_k, world0) ∧
  1 ≠ 0 ∧ key_k ≠ [] ∧
  convert_value TInt32 (host_arg info_encode 2) world0 = (VInt32 7, world0) ∧
  ∃ expiration,
    mmkv_calls (encode_function TInt32 info_encode world0).2 =
      mmkv_calls world0 ++ [log_entry (kv_set 1 (VInt32 7) key_k expiration)] ∧
    (expiration = None ↔ host_arg info_encode 3 = JUndefined) ∧
    (∀ x, host_arg info_encode 3 = JNumber x → expiration = Some (to_uint32 (number_trunc x))) ∧
    (∀ n, is_uint32 n → host_arg info_encode 3 = JNumber (Z_to_number n) → expiration = Some n) ∧
    (host_arg info_encode 3 ≠ JUndefined → (∀ x, host_arg info_encode 3 ≠ JNumber x) →
     expiration = Some (to_uint32 (stack_junk world0 0))).
Proof.
  split_and!; [reflexivity | reflexivity | lia | discriminate | reflexivity |].
  apply (encode_expiration TInt32 info_encode world0 world0 world0 world0 1 key_k (VInt32 7));
    (reflexivity || lia || discriminate).
Defined.

Lemma bridge_refuses_null_handle_and_empty_key_witness :
  NValueToUInt64 (host_arg info_null_handle 0) world0 = (0, world0) ∧
  NValueToString (host_arg info_null_handle 1) false world0 = (key_k, world0) ∧
  (0 = 0 ∨ key_k = []) ∧
  (∀ t : value_type,
      (encode_function t info_null_handle world0).1 = JBoolean false ∧
      mmkv_calls (encode_function t info_null_handle world0).2 = mmkv_calls world0 ∧
      mmkv (encode_function t info_null_handle world0).2 = mmkv world0) ∧
  (∀ (t : scalar_type) (defaultValue : native_type (marshalling_of t)) (w3 : World),
      from_host (marshalling_of t) (host_arg info_null_handle 2) world0 = (defaultValue, w3) →
      (∀ w', (decode_function (value_type_of t) info_null_handle world0).1 =
             (to_host (marshalling_of t) defaultValue w').1) ∧
      mmkv_calls (decode_function (value_type_of t) info_null_handle world0).2 = mmkv_calls world0 ∧
      mmkv (decode_function (value_type_of t) info_null_handle world0).2 = mmkv world0) ∧
  (∀ (t : scalar_type) (v : native_type (marshalling_of t)) (w' : World),
      in_range t v → host_arg info_null_handle 2 = (to_host (marshalling_of t) v w').1 →
      (decode_function (value_type_of t) info_null_handle world0).1 = host_arg info_null_handle 2) ∧
  (∀ t : value_type, t = TString ∨ t = TBytes →
      (decode_function t info_null_handle world0).1 = host_arg info_null_handle 2 ∧
      mmkv_calls (decode_function t info_null_handle world0).2 = mmkv_calls world0 ∧
      mmkv (decode_function t info_null_handle world0).2 = mmkv world0).
Proof.
  split_and!; [reflexivity | reflexivity | left; reflexivity | | | |];
    apply (bridge_refuses_null_handle_and_empty_key info_null_handle world0 world0 world0 0 key_k);
    (reflexivity || (left; reflexivity)).
Defined.

Lemma scalar_conversions_roundtrip_witness :
  is_int32 (-5) ∧ is_uint32 4000000000 ∧ is_int64 (- 2^62) ∧ is_uint64 (2^64 - 1) ∧
  (BoolToNValue true ≫= NValueToBool) world0 = (true, world0) ∧
  (Int32ToNValue (-5) ≫= NValueToInt32) world0 = (-5, world0) ∧
  (UInt32ToNValue 4000000000 ≫= NValueToUInt32) world0 = (4000000000, world0) ∧
  (Int64ToNValue (- 2^62) ≫= NValueToInt64) world0 = (- 2^62, world0) ∧
  (UInt64ToNValue (2^64 - 1) ≫= NValueToUInt64) world0 = (2^64 - 1, world0) ∧
  (is_nan minus_three_and_a_half = false →
   (DoubleToNValue minus_three_and_a_half ≫= NValueToDouble) world0 =
     (minus_three_and_a_half, world0)) ∧
  (is_nan minus_three_and_a_half = true →
   (DoubleToNValue minus_three_and_a_half ≫= NValueToDouble) world0 = (quiet_nan, world0)).
Proof.
  assert (H32 : is_int32 (-5)) by (unfold is_int32; lia).
  assert (Hu32 : is_uint32 4000000000) by (unfold is_uint32; lia).
  assert (H64 : is_int64 (- 2^62)) by (unfold is_int64; lia).
  assert (Hu64 : is_uint64 (2^64 - 1)) by (unfold is_uint64; lia).
  split; [exact H32|]. split; [exact Hu32|]. split; [exact H64|]. split; [exact Hu64|].
  exact (scalar_conversions_roundtrip world0 true (-5) 4000000000 (- 2^62) (2^64 - 1)
           minus_three_and_a_half H32 Hu32 H64 Hu64).
Defined.

Lemma buffer_roundtrip_witness :
  MMBuffer_valid world0 buffer_abc ∧
  let '(value, w1) := MMBufferToNValue buffer_abc world0 in
  let '(b', w2) := NValueToMMBuffer value false w1 in
  MMBuffer_length b' = MMBuffer_length buffer_abc ∧
  MMBuffer_bytes w2 b' = MMBuffer_bytes world0 buffer_abc.
Proof.
  assert (Hvalid : MMBuffer_valid world0 buffer_abc) by (vm_compute; lia).
  split; [exact Hvalid|]. exact (buffer_roundtrip buffer_abc world0 Hvalid).
Defined.

Lemma getDefaultMMKV_falls_back_witness :
  host_arg info_default 0 = JNumber (Z_to_number 1) ∧
  pending_exception world0 = None ∧
  NValueToString (host_arg info_default 1) true world0 = (secret, world0) ∧
  let mode := to_int32 (number_trunc (Z_to_number 1)) in
  let encrypted := MMKV_defaultMMKV mode (Some secret) in
  let plain := MMKV_defaultMMKV mode None in
  let result := getDefaultMMKV info_default world0 in
  (secret ≠ [] ↔ ∃ s, host_arg info_default 1 = JString s ∧ s ≠ []) ∧
  (secret = [] →
     mmkv_calls result.2 = mmkv_calls world0 ++ [log_entry plain] ∧
     result.1 = JBigInt (MMKV_perform plain (mmkv world0)).1) ∧
  (secret ≠ [] → (MMKV_perform encrypted (mmkv world0)).1 ≠ 0 →
     mmkv_calls result.2 = mmkv_calls world0 ++ [log_entry encrypted] ∧
     result.1 = JBigInt (MMKV_perform encrypted (mmkv world0)).1) ∧
  (secret ≠ [] → (MMKV_perform encrypted (mmkv world0)).1 = 0 →
     mmkv_calls result.2 = mmkv_calls world0 ++ [log_entry encrypted; log_entry plain] ∧
     result.1 = JBigInt (MMKV_perform plain (MMKV_perform encrypted (mmkv world0)).2).1).
Proof.
  split; [reflexivity|]. split; [reflexivity|]. split; [reflexivity|].
  apply (getDefaultMMKV_falls_back info_default world0 world0 (Z_to_number 1) secret);
    reflexivity.
Defined.

(** C3 at a string of 22 bytes, the capacity of a short libc++ string:
    [NValueToString] passes [capacity()] as the size of the buffer, the
    host keeps one byte of it for the terminator, and the string comes
    back with its last byte replaced by 0. *)
Theorem string_roundtrip_truncates_22_bytes :
  string_capacity (length key_of_22_bytes) = length key_of_22_bytes ∧
  (StringToNValue key_of_22_bytes ≫= λ v, NValueToString v false) world0 =
    (String.list_byte_of_string "abcdefghijklmnopqrstu" ++ [x00], world0) ∧
  ((StringToNValue key_of_22_bytes ≫= λ v, NValueToString v false) world0).1 ≠ key_of_22_bytes.
Proof. split_and!; [reflexivity | reflexivity | discriminate]. Qed.

(** C7 at [NValueToBool] and a host number: [napi_get_value_bool] refuses
    the number and writes nothing, so the result is what the local
    happened to hold; in two states that differ only in the content of the
    stack the same argument gives two different booleans. *)
Theorem NValueToBool_depends_on_the_stack :
  (NValueToBool (JNumber (Z_to_number 1)) (world_with_junk (λ _, 0))).1 = false ∧
  (NValueToBool (JNumber (Z_to_number 1)) (world_with_junk (λ _, 1))).1 = true.
Proof. split; reflexivity. Qed.

(** [NValueToString] on a value that is not a string: the empty string
    and a thrown error when no exception is pending; when one is, the
    macro lets the function go on with a size that was never written. *)
Example NValueToString_depends_on_pending_exception :
  (NValueToString JNull false world0).1 = [] ∧
  pending_exception (NValueToString JNull false world0).2 = Some "null"%string ∧
  (NValueToString JNull false world_pending).1 = [x00; x00].
Proof. split_and!; reflexivity. Qed.

(** C2 fails as stated at a NaN that is not the one of the host: the
    double with the encoding 0xfff8000000000123 comes back as the double
    with the encoding 0x7ff8000000000000. *)
Lemma DoubleToNValue_loses_nan_payload :
  nan_with_payload = Dnan true (2 ^ 51 + 0x123) ∧
  (DoubleToNValue nan_with_payload ≫= NValueToDouble) world0 =
    (double_of_bits 0x7ff8000000000000, world0) ∧
  ((DoubleToNValue nan_with_payload ≫= NValueToDouble) world0).1 ≠ nan_with_payload.
Proof. split_and!; [reflexivity | reflexivity | discriminate]. Qed.

(** C9 at [encodeInt32(1n, "k", 7, null)]: the fourth argument is not
    [undefined], so [NValueToUInt32] is asked for the expiration;
    [napi_get_value_uint32] refuses [null] and writes nothing, the status
    is dropped, and the engine is given what the local happened to hold:
    in two states that differ only in the content of the stack the same
    call sets the key with two different expirations. *)
Theorem encode_expiration_depends_on_the_stack :
  host_arg info_encode_null_expiration 3 = JNull ∧
  mmkv_calls (encodeInt32 info_encode_null_expiration (world_with_junk (λ _, 0))).2 =
    [log_entry (kv_set 1 (VInt32 7) key_k (Some 0))] ∧
  mmkv_calls (encodeInt32 info_encode_null_expiration (world_with_junk (λ _, 5))).2 =
    [log_entry (kv_set 1 (VInt32 7) key_k (Some 5))].
Proof. split_and!; reflexivity. Qed.

(** C8 fails as stated at [decodeInt32(0n, "k", 3.5)]: the handle is null,
    and the function returns the number 3, not its third argument. *)
Lemma decodeInt32_returns_converted_default :
  NValueToUInt64 (host_arg info_null_handle 0) world0 = (0, world0) ∧
  host_arg info_null_handle 2 = JNumber three_and_a_half ∧
  (decodeInt32 info_null_handle world0).1 = JNumber (Z_to_number 3) ∧
  (decodeInt32 info_null_handle world0).1 ≠ host_arg info_null_handle 2.
Proof. split_and!; [reflexivity | reflexivity | reflexivity | discriminate]. Qed.

(** C10 fails as stated at [getDefaultMMKV(undefined, "secret")]: the
    encrypted instance is not asked for, and neither is the unencrypted
    one; the function returns a null value, not a handle. *)
Lemma getDefaultMMKV_without_mode_opens_nothing :
  mmkv_calls (getDefaultMMKV info_default_without_mode world0).2 = [] ∧
  (getDefaultMMKV info_default_without_mode world0).1 = nullptr ∧
  pending_exception (getDefaultMMKV info_default_without_mode world0).2 = Some "null"%string.
Proof. split_and!; reflexivity. Qed.

(** ** Further runs on the memory engine *)

Lemma NValueToString_rejects_non_string_witness :
  pending_exception world0 = None ∧
  (∀ s, JNull ≠ JString s) ∧
  (false = true → JNull ≠ JUndefined) ∧
  (NValueToString JNull false world0).1 = [] ∧
  pending_exception (NValueToString JNull false world0).2 = Some "null"%string ∧
  mmkv (NValueToString JNull false world0).2 = mmkv world0 ∧
  mmkv_calls (NValueToString JNull false world0).2 = mmkv_calls world0 ∧
  arraybuffers (NValueToString JNull false world0).2 = arraybuffers world0.
Proof.
  split; [reflexivity|]. split; [discriminate|]. split; [discriminate|].
  apply (NValueToString_rejects_non_string JNull false world0); (reflexivity || discriminate).
Defined.

Lemma string_roundtrip_with_room_witness :
  utf8_valid euro_sign = true ∧
  (length euro_sign < string_capacity (length euro_sign))%nat ∧
  (StringToNValue euro_sign ≫= λ v, NValueToString v false) world0 = (euro_sign, world0).
Proof.
  assert (Hroom : (length euro_sign < string_capacity (length euro_sign))%nat)
    by (vm_compute; lia).
  split; [reflexivity|]. split; [exact Hroom|].
  exact (string_roundtrip_with_room euro_sign world0 eq_refl Hroom).
Defined.

Lemma string_roundtrip_without_room_witness :
  string_capacity (length key_of_22_bytes) = length key_of_22_bytes ∧
  last key_of_22_bytes ≠ None ∧
  last key_of_22_bytes ≠ Some x00 ∧
  ((StringToNValue key_of_22_bytes ≫= λ v, NValueToString v false) world0).1 ≠ key_of_22_bytes.
Proof.
  split; [reflexivity|]. split; [discriminate|]. split; [discriminate|].
  apply (string_roundtrip_without_room key_of_22_bytes world0); (reflexivity || discriminate).
Defined.

Lemma NValueToMMBuffer_rejects_non_arraybuffer_witness :
  (∀ data, JNull ≠ JArrayBuffer data) ∧
  NValueToMMBuffer JNull false world0 = (MMBuffer_empty, world0).
Proof.
  split; [discriminate|].
  apply (NValueToMMBuffer_rejects_non_arraybuffer JNull false world0). discriminate.
Defined.

Lemma MMBufferToNValue_allocates_one_arraybuffer_witness :
  MMBuffer_valid world0 buffer_abc ∧
  (MMBufferToNValue buffer_abc world0).1 = JArrayBuffer (length (arraybuffers world0)) ∧
  arraybuffers (MMBufferToNValue buffer_abc world0).2 !! length (arraybuffers world0) =
    Some (MMBuffer_bytes world0 buffer_abc) ∧
  length (arraybuffers (MMBufferToNValue buffer_abc world0).2) = S (length (arraybuffers world0)) ∧
  (∀ data content, arraybuffers world0 !! data = Some content →
                   arraybuffers (MMBufferToNValue buffer_abc world0).2 !! data = Some content) ∧
  mmkv_calls (MMBufferToNValue buffer_abc world0).2 = mmkv_calls world0 ∧
  pending_exception (MMBufferToNValue buffer_abc world0).2 = pending_exception world0.
Proof.
  assert (Hvalid : MMBuffer_valid world0 buffer_abc) by (vm_compute; lia).
  split; [exact Hvalid|].
  exact (MMBufferToNValue_allocates_one_arraybuffer buffer_abc world0 Hvalid).
Defined.

Lemma decodeString_found_or_default_witness :
  NValueToUInt64 (host_arg info_decode_string 0) world0 = (1, world0) ∧
  NValueToString (host_arg info_decode_string 1) false world0 = (key_k, world0) ∧
  1 ≠ 0 ∧ key_k ≠ [] ∧
  mmkv_calls (decodeString info_decode_string world0).2 =
    mmkv_calls world0 ++ [log_entry (kv_getString 1 key_k)] ∧
  ((MMKV_perform (kv_getString 1 key_k) (mmkv world0)).1.1 = false →
   (decodeString info_decode_string world0).1 = host_arg info_decode_string 2) ∧
  ((MMKV_perform (kv_getString 1 key_k) (mmkv world0)).1.1 = true →
   utf8_valid (MMKV_perform (kv_getString 1 key_k) (mmkv world0)).1.2 = true →
   (decodeString info_decode_string world0).1 =
     JString (MMKV_perform (kv_getString 1 key_k) (mmkv world0)).1.2).
Proof.
  split; [reflexivity|]. split; [reflexivity|]. split; [lia|]. split; [discriminate|].
  apply (decodeString_found_or_default info_decode_string world0 world0 world0 1 key_k);
    (reflexivity || lia || discriminate).
Defined.

Lemma decodeBytes_found_or_default_witness :
  NValueToUInt64 (host_arg info_decode 0) world0 = (1, world0) ∧
  NValueToString (host_arg info_decode 1) false world0 = (key_k, world0) ∧
  1 ≠ 0 ∧ key_k ≠ [] ∧
  mmkv_calls (decodeBytes info_decode world0).2 =
    mmkv_calls world0 ++ [log_entry (kv_getBytes 1 key_k)] ∧
  ((MMKV_perform (kv_getBytes 1 key_k) (mmkv world0)).1.1 = false →
     (decodeBytes info_decode world0).1 = host_arg info_decode 2 ∧
     arraybuffers (decodeBytes info_decode world0).2 = arraybuffers world0) ∧
  ((MMKV_perform (kv_getBytes 1 key_k) (mmkv world0)).1.1 = true →
   MMBuffer_valid world0 (MMKV_perform (kv_getBytes 1 key_k) (mmkv world0)).1.2 →
     (decodeBytes info_decode world0).1 = JArrayBuffer (length (arraybuffers world0)) ∧
     arraybuffers (decodeBytes info_decode world0).2 =
       arraybuffers world0 ++
       [MMBuffer_bytes world0 (MMKV_perform (kv_getBytes 1 key_k) (mmkv world0)).1.2]).
Proof.
  split; [reflexivity|]. split; [reflexivity|]. split; [lia|]. split; [discriminate|].
  apply (decodeBytes_found_or_default info_decode world0 world0 world0 1 key_k);
    (reflexivity || lia || discriminate).
Defined.

Lemma encodeBytes_stores_arraybuffer_content_witness :
  NValueToUInt64 (host_arg info_encode_no_buffer 0) world0 = (1, world0) ∧
  NValueToString (host_arg info_encode_no_buffer 1) false world0 = (key_k, world0) ∧
  1 ≠ 0 ∧ key_k ≠ [] ∧
  ∃ expiration,
    mmkv_calls (encodeBytes info_encode_no_buffer world0).2 =
      mmkv_calls world0 ++
      [log_entry (kv_set 1 (VBytes (arraybuffer_content world0 (host_arg info_encode_no_buffer 2)))
                    key_k expiration)].
Proof.
  split; [reflexivity|]. split; [reflexivity|]. split; [lia|]. split; [discriminate|].
  apply (encodeBytes_stores_arraybuffer_content info_encode_no_buffer world0 world0 world0 1 key_k);
    (reflexivity || lia || discriminate).
Defined.

Lemma encodeString_stores_empty_for_non_string_witness :
  NValueToUInt64 (host_arg info_encode_number_as_string 0) world0 = (1, world0) ∧
  1 ≠ 0 ∧
  host_arg info_encode_number_as_string 1 = JString key_k ∧ key_k ≠ [] ∧
  pending_exception world0 = None ∧
  (∀ s, host_arg info_encode_number_as_string 2 ≠ JString s) ∧
  (∃ expiration,
     mmkv_calls (encodeString info_encode_number_as_string world0).2 =
       mmkv_calls world0 ++
       [log_entry (kv_set 1 (VString []) (NValueToString (JString key_k) false world0).1
                     expiration)]) ∧
  pending_exception (encodeString info_encode_number_as_string world0).2 = Some "null"%string.
Proof.
  split; [reflexivity|]. split; [lia|]. split; [reflexivity|]. split; [discriminate|].
  split; [reflexivity|]. split; [discriminate|].
  apply (encodeString_stores_empty_for_non_string
           info_encode_number_as_string world0 world0 1 key_k);
    (reflexivity || lia || discriminate).
Defined.

Lemma bridge_reports_no_type_error_witness :
  host_arg info_encode 1 = JString key_k ∧
  (TInt32 ≠ TString ∨ (∃ s, host_arg info_encode 2 = JString s) →
   pending_exception (encode_function TInt32 info_encode world0).2 = pending_exception world0) ∧
  pending_exception (decode_function TInt32 info_encode world0).2 = pending_exception world0.
Proof.
  split; [reflexivity|].
  apply (bridge_reports_no_type_error TInt32 info_encode world0 key_k). reflexivity.
Defined.

Lemma bridge_raises_on_non_string_key_witness :
  pending_exception world0 = None ∧
  (∀ s, host_arg info_bad_key 1 ≠ JString s) ∧
  pending_exception (encode_function TInt32 info_bad_key world0).2 = Some "null"%string ∧
  mmkv_calls (encode_function TInt32 info_bad_key world0).2 = mmkv_calls world0 ∧
  pending_exception (decode_function TInt32 info_bad_key world0).2 = Some "null"%string ∧
  mmkv_calls (decode_function TInt32 info_bad_key world0).2 = mmkv_calls world0.
Proof.
  split; [reflexivity|]. split; [discriminate|].
  apply (bridge_raises_on_non_string_key TInt32 info_bad_key world0);
    (reflexivity || discriminate).
Defined.

Lemma initialize_initialises_engine_witness :
  host_arg info_initialize 0 = JString dir_data ∧
  host_arg info_initialize 1 = JString dir_cache ∧
  host_arg info_initialize 2 = JNumber (Z_to_number 1) ∧
  (utf8_valid dir_data = true → (initialize info_initialize world0).1 = JString dir_data) ∧
  mmkv_calls (initialize info_initialize world0).2 =
    mmkv_calls world0 ++
    [log_entry (MMKV_initializeMMKV (NValueToString (JString dir_data) false world0).1
                  (to_int32 (number_trunc (Z_to_number 1))));
     log_entry MMKV_getRootDir] ∧
  g_android_tmpDir (initialize info_initialize world0).2 =
    (NValueToString (JString dir_cache) false world0).1 ∧
  pending_exception (initialize info_initialize world0).2 = pending_exception world0.
Proof.
  split; [reflexivity|]. split; [reflexivity|]. split; [reflexivity|].
  exact (initialize_initialises_engine info_initialize world0 dir_data dir_cache (Z_to_number 1)
           eq_refl eq_refl eq_refl).
Defined.

Lemma initialize_rejects_non_number_level_witness :
  host_arg info_initialize_bad_level 0 = JString dir_data ∧
  host_arg info_initialize_bad_level 1 = JString dir_cache ∧
  (∀ d, host_arg info_initialize_bad_level 2 ≠ JNumber d) ∧
  pending_exception world0 = None ∧
  (initialize info_initialize_bad_level world0).1 = nullptr ∧
  mmkv_calls (initialize info_initialize_bad_level world0).2 = mmkv_calls world0 ∧
  mmkv (initialize info_initialize_bad_level world0).2 = mmkv world0 ∧
  g_android_tmpDir (initialize info_initialize_bad_level world0).2 = g_android_tmpDir world0 ∧
  pending_exception (initialize info_initialize_bad_level world0).2 = Some "null"%string.
Proof.
  split; [reflexivity|]. split; [reflexivity|]. split; [discriminate|]. split; [reflexivity|].
  apply (initialize_rejects_non_number_level info_initialize_bad_level world0 dir_data dir_cache);
    (reflexivity || discriminate).
Defined.

Lemma initialize_goes_on_after_bad_root_witness :
  (∀ s, host_arg info_initialize_bad_root 0 ≠ JString s) ∧
  host_arg info_initialize_bad_root 1 = JString dir_cache ∧
  host_arg info_initialize_bad_root 2 = JNumber (Z_to_number 1) ∧
  pending_exception world0 = None ∧
  (utf8_valid [] = true → (initialize info_initialize_bad_root world0).1 = JString []) ∧
  mmkv_calls (initialize info_initialize_bad_root world0).2 =
    mmkv_calls world0 ++
    [log_entry (MMKV_initializeMMKV [] (to_int32 (number_trunc (Z_to_number 1))));
     log_entry MMKV_getRootDir] ∧
  g_android_tmpDir (initialize info_initialize_bad_root world0).2 =
    (NValueToString (JString dir_cache) false world0).1 ∧
  pending_exception (initialize info_initialize_bad_root world0).2 = Some "null"%string.
Proof.
  assert (Hroot : ∀ s, host_arg info_initialize_bad_root 0 ≠ JString s) by discriminate.
  split; [exact Hroot|]. split; [reflexivity|]. split; [reflexivity|]. split; [reflexivity|].
  exact (initialize_goes_on_after_bad_root
           info_initialize_bad_root world0 dir_cache (Z_to_number 1)
           Hroot eq_refl eq_refl eq_refl).
Defined.

Lemma version_returns_version_text_witness :
  plain_ascii MMKV_VERSION ∧
  version [] world0 = (JString MMKV_VERSION, world0).
Proof.
  assert (Hascii : plain_ascii MMKV_VERSION)
    by (repeat constructor; vm_compute; done).
  split; [exact Hascii|]. exact (version_returns_version_text [] world0 Hascii).
Defined.

Lemma getDefaultMMKV_rejects_non_number_mode_witness :
  (∀ d, host_arg info_default_without_mode 0 ≠ JNumber d) ∧
  pending_exception world0 = None ∧
  (getDefaultMMKV info_default_without_mode world0).1 = nullptr ∧
  mmkv_calls (getDefaultMMKV info_default_without_mode world0).2 = mmkv_calls world0 ∧
  mmkv (getDefaultMMKV info_default_without_mode world0).2 = mmkv world0 ∧
  pending_exception (getDefaultMMKV info_default_without_mode world0).2 = Some "null"%string.
Proof.
  split; [discriminate|]. split; [reflexivity|].
  apply (getDefaultMMKV_rejects_non_number_mode info_default_without_mode world0);
    (reflexivity || discriminate).
Defined.

Lemma bridge_ignores_further_arguments_witness :
  (∀ i, (i < 4)%nat → host_arg info_encode i = host_arg info_encode_extra i) ∧
  encode_function TInt32 info_encode world0 = encode_function TInt32 info_encode_extra world0 ∧
  decode_function TInt32 info_encode world0 = decode_function TInt32 info_encode_extra world0.
Proof.
  assert (Hargs : ∀ i, (i < 4)%nat → host_arg info_encode i = host_arg info_encode_extra i).
  { intros i Hi. do 4 (destruct i as [|i]; [reflexivity|]). lia. }
  split; [exact Hargs|].
  exact (bridge_ignores_further_arguments TInt32 info_encode info_encode_extra world0 Hargs).
Defined.

Lemma decode_after_encode_witness :
  host_arg info_encode 0 = JBigInt 1 ∧ host_arg info_decode 0 = JBigInt 1 ∧ to_uint64 1 ≠ 0 ∧
  host_arg info_encode 1 = JString key_k ∧ host_arg info_decode 1 = JString key_k ∧
  key_k ≠ [] ∧
  in_range SInt32 7 ∧
  host_arg info_encode 2 = (to_host (marshalling_of SInt32) 7 world0).1 ∧
  (∀ expiration d,
     (MMKV_perform
        (get (marshalling_of SInt32) (to_uint64 1) (NValueToString (JString key_k) false world0).1 d)
        (MMKV_perform
           (kv_set (to_uint64 1) (wrap_scalar SInt32 7)
              (NValueToString (JString key_k) false world0).1 expiration)
           (mmkv world0)).2).1 = 7) ∧
  (decode_function (value_type_of SInt32) info_decode
     (encode_function (value_type_of SInt32) info_encode world0).2).1 = host_arg info_encode 2.
Proof.
  assert (Hrange : in_range SInt32 7) by (cbn; unfold is_int32; lia).
  assert (Hengine : ∀ (expiration : option Z) (d : Z),
     (MMKV_perform
        (get (marshalling_of SInt32) (to_uint64 1) (NValueToString (JString key_k) false world0).1 d)
        (MMKV_perform
           (kv_set (to_uint64 1) (wrap_scalar SInt32 7)
              (NValueToString (JString key_k) false world0).1 expiration)
           (mmkv world0)).2).1 = 7)
    by (intros expiration d; vm_compute; reflexivity).
  split; [reflexivity|]. split; [reflexivity|]. split; [discriminate|].
  split; [reflexivity|]. split; [reflexivity|]. split; [discriminate|].
  split; [exact Hrange|]. split; [reflexivity|]. split; [exact Hengine|].
  apply (decode_after_encode SInt32 info_encode info_decode world0 1 key_k 7);
    (reflexivity || discriminate || assumption).
Defined.

Lemma encode_key_reaches_engine_witness :
  host_arg info_encode 0 = JBigInt 1 ∧ to_uint64 1 ≠ 0 ∧
  host_arg info_encode 1 = JString key_k ∧ key_k ≠ [] ∧
  convert_value TInt32 (host_arg info_encode 2) world0 = (VInt32 7, world0) ∧
  (∃ expiration,
     mmkv_calls (encode_function TInt32 info_encode world0).2 =
       mmkv_calls world0 ++
       [log_entry (kv_set (to_uint64 1) (VInt32 7)
                     (NValueToString (JString key_k) false world0).1 expiration)]) ∧
  ((length key_k < string_capacity (length key_k))%nat →
   (NValueToString (JString key_k) false world0).1 = key_k) ∧
  (string_capacity (length key_k) = length key_k → last key_k ≠ Some x00 →
   (NValueToString (JString key_k) false world0).1 ≠ key_k).
Proof.
  split; [reflexivity|]. split; [discriminate|]. split; [reflexivity|]. split; [discriminate|].
  split; [reflexivity|].
  apply (encode_key_reaches_engine TInt32 info_encode world0 world0 1 key_k (VInt32 7));
    (reflexivity || discriminate).
Defined.

Lemma Init_binds_table_when_not_refused_witness :
  (∀ p, p ∈ desc → refuses (∅ : host_object) (utf8name p) = false) ∧
  (∀ p, p ∈ desc → Init ∅ !! utf8name p = Some (method p)) ∧
  (∀ name, name ∉ map utf8name desc → Init ∅ !! name = (∅ : host_object) !! name).
Proof.
  assert (Hfree : ∀ p, p ∈ desc → refuses (∅ : host_object) (utf8name p) = false)
    by (intros p _; reflexivity).
  split; [exact Hfree|]. exact (Init_binds_table_when_not_refused ∅ Hfree).
Defined.

Lemma Init_stops_at_first_refused_name_witness :
  desc = [desc_initialize] ++ desc_version :: drop 2 desc ∧
  (∀ q, q ∈ [desc_initialize] → refuses exports_with_version (utf8name q) = false) ∧
  refuses exports_with_version (utf8name desc_version) = true ∧
  (napi_define_properties exports_with_version (length desc) desc).1 ≠ napi_ok ∧
  (∀ q, q ∈ [desc_initialize] →
        Init exports_with_version !! utf8name q = Some (method q)) ∧
  (∀ q, q ∈ desc_version :: drop 2 desc →
        Init exports_with_version !! utf8name q = exports_with_version !! utf8name q) ∧
  (∀ name, name ∉ map utf8name [desc_initialize] →
           Init exports_with_version !! name = exports_with_version !! name).
Proof.
  assert (Hfree : ∀ q, q ∈ [desc_initialize] →
            refuses exports_with_version (utf8name q) = false)
    by (intros q Hq; apply list_elem_of_singleton in Hq as ->; reflexivity).
  split; [reflexivity|]. split; [exact Hfree|]. split; [reflexivity|].
  exact (Init_stops_at_first_refused_name exports_with_version
           [desc_initialize] (drop 2 desc) desc_version eq_refl Hfree eq_refl).
Defined.
